(** * seagrass_map.py: grid construction, feature styling and sample data

    A shallow embedding of [src/seagrass_map.py].

    - Python floats are IEEE 754 binary64 numbers: they are modelled by the
      kernel's primitive floats ([PrimFloat]), which are binary64 with
      round-to-nearest-even, so every arithmetic step of the script runs
      here bit for bit.
    - Python exceptions are modelled by the left summand of [sum]; a
      function that may raise returns [exn + A].
    - The libraries the script calls are not part of the repository.
      [shapely.geometry.box], the index alignment of a pandas column
      assignment and the check that [folium.GeoJson] makes of its style
      function are written out as the libraries implement them; the
      coordinate transformation behind [GeoDataFrame.to_crs] (pyproj) and
      the generator behind [random] are section variables. *)

From Stdlib Require Import ZArith List String Ascii Bool Lia Lqa QArith Qabs Qpower Floats.
From Stdlib Require Import DecimalString.

(* Decimal float literals denote the nearest binary64 value, as in Python. *)
#[global] Set Warnings "-inexact-float".
Import ListNotations.

Local Open Scope Z_scope.

(** ** Exceptions *)

Module Err.

Definition ret {E A : Type} (a : A) : E + A := inr a.

Definition bind {E A B : Type} (c : E + A) (k : A -> E + B) : E + B :=
  match c with
  | inl e => inl e
  | inr a => k a
  end.

(** A comprehension or a vectorised library call over a sequence: the
    first element that raises aborts the whole call. *)
Fixpoint mapM {E A B : Type} (f : A -> E + B) (l : list A) : E + list B :=
  match l with
  | [] => inr []
  | a :: l' =>
      match f a with
      | inl e => inl e
      | inr b =>
          match mapM f l' with
          | inl e => inl e
          | inr bs => inr (b :: bs)
          end
      end
  end.

(** An exception of a callee, passed on as an exception of the caller. *)
Definition lift {E E' A : Type} (f : E -> E') (c : E + A) : E' + A :=
  match c with
  | inl e => inl (f e)
  | inr a => inr a
  end.

End Err.

Notation "x <- c ;; k" := (Err.bind c (fun x => k))
  (at level 61, c at next level, right associativity).
Notation "' pat <- c ;; k" := (Err.bind c (fun x => match x with pat => k end))
  (at level 61, pat pattern, c at next level, right associativity).

(** ** Floats and their exact values *)

Module Float.

(** The rational number a binary64 value denotes; [None] for the
    infinities and NaN. *)
Definition SF2Q (f : spec_float) : option Q :=
  match f with
  | S754_zero _ => Some 0%Q
  | S754_finite s m e => Some (inject_Z (cond_Zopp s (Zpos m)) * Qpower 2 e)%Q
  | S754_infinity _ | S754_nan => None
  end.

Definition to_Q (f : float) : option Q := SF2Q (Prim2SF f).

(** Zeros and finite numbers, as opposed to the infinities and NaN. *)
Definition sf_finite (x : spec_float) : bool :=
  match x with
  | S754_zero _ | S754_finite _ _ _ => true
  | S754_infinity _ | S754_nan => false
  end.

(** Zeros, positive numbers and plus infinity. *)
Definition sf_nonneg (h : spec_float) : bool :=
  match h with
  | S754_zero _ | S754_finite false _ _ | S754_infinity false => true
  | _ => false
  end.

Definition is_finite (f : float) : bool := sf_finite (Prim2SF f).

(** Two floats that [=?] identifies: equal numbers, the two zeros
    included. *)
Definition sf_same (x y : spec_float) : Prop :=
  match x, y with
  | S754_zero _, S754_zero _ => True
  | S754_infinity s1, S754_infinity s2 => s1 = s2
  | S754_finite s1 m1 e1, S754_finite s2 m2 e2 => s1 = s2 /\ m1 = m2 /\ e1 = e2
  | _, _ => False
  end.

(** *** The vocabulary of rounding

    Every finite binary64 number is an integer multiple of [2^-1074], and
    every product of two of them of [2^-2148]; magnitudes are measured in
    that unit. *)

(** The bits shifted out so far are not all zero. *)
Definition sticky (mrs : shr_record) : bool := shr_r mrs || shr_s mrs.

(** [shifted n mrs mrs']: [mrs'] is [mrs] shifted right by [n >= 1] bits:
    the mantissa is the quotient, the round bit tells whether the
    remainder reaches half of [2^n], the sticky bit whether anything was
    lost below the round bit. *)
Definition shifted (n : Z) (mrs mrs' : shr_record) : Prop :=
  0 <= shr_m mrs' /\
  shr_m mrs' = shr_m mrs / 2 ^ n /\
  (shr_r mrs' = true <-> 2 ^ n <= 2 * (shr_m mrs mod 2 ^ n)) /\
  (shr_s mrs' = false <-> sticky mrs = false /\ shr_m mrs mod 2 ^ (n - 1) = 0).

(** [nearest V t m]: the multiple [m * 2^t] is at most half a step of
    [2^t] away from the value [V]. *)
Definition nearest (V t m : Z) : Prop :=
  - 2 ^ (t + 2148) <= 2 * (m * 2 ^ (t + 2148) - V) <= 2 ^ (t + 2148).

(** What [binary_round_aux] returns for the rounded mantissa [m] at the
    exponent [t]: a mantissa of 54 bits is renormalised, an exponent
    above 971 overflows. *)
Definition packed (s : bool) (m t : Z) : spec_float :=
  match m with
  | Z0 => S754_zero s
  | Zpos p =>
      if m <? 2 ^ 53
      then (if t <=? 971 then S754_finite s p t else S754_infinity s)
      else (if t + 1 <=? 971 then S754_finite s (2 ^ 52)%positive (t + 1) else S754_infinity s)
  | Zneg _ => S754_nan
  end.

(** The magnitude [m * 2^e]. *)
Definition mag (m : positive) (e : Z) : Z := Zpos m * 2 ^ (e + 2148).

(** [rounded V t m]: rounding the magnitude [V] to nearest at the exponent
    [t] of its binade gives the mantissa [m]. *)
Definition rounded (V t m : Z) : Prop :=
  -1074 <= t /\ 0 <= m <= 2 ^ 53 /\ nearest V t m /\
  V < 2 ^ 53 * 2 ^ (t + 2148) /\
  (-1074 < t -> 2 ^ 52 * 2 ^ (t + 2148) <= V).

(** The order of two positive magnitudes in canonical form: first by
    exponent, then by mantissa. *)
Definition lex_le (m1 : positive) (e1 : Z) (m2 : positive) (e2 : Z) : Prop :=
  e1 < e2 \/ (e1 = e2 /\ Zpos m1 <= Zpos m2).

(** The float [r] is at least as large in magnitude as [m * 2^e]. *)
Definition mag_ge (r : spec_float) (m : positive) (e : Z) : Prop :=
  match r with
  | S754_infinity _ => True
  | S754_finite _ m' e' => lex_le m e m' e'
  | _ => False
  end.

(** The float [r] is at most as large in magnitude as [m * 2^e]. *)
Definition mag_le (r : spec_float) (m : positive) (e : Z) : Prop :=
  match r with
  | S754_zero _ => True
  | S754_finite _ m' e' => lex_le m' e' m e
  | _ => False
  end.

(** The value of a zero or a finite float. *)
Definition val (x : spec_float) : Z :=
  match x with
  | S754_finite s m e => cond_Zopp s (mag m e)
  | _ => 0
  end.

(** [shrinks d D]: the float [d] is zero or positive, and every product
    of [d] with a float in [0, 1) rounds to at most [D]. The witness is a
    float [F <= D] such that [d * (1 - 2^-53)] lies below the midpoint of
    [F] and its successor. *)
Definition shrinks (d : spec_float) (D : Z) : Prop :=
  match d with
  | S754_zero _ => True
  | S754_finite false md ed =>
      exists my ey,
        bounded prec emax my ey = true /\ mag my ey <= D /\
        2 * mag md ed * (2 ^ 53 - 1) < (2 * mag my ey + 2 ^ (ey + 2148)) * 2 ^ 53
  | _ => False
  end.

(** The exact difference [a - b] of two finite floats. *)
Definition exact_diff (a b : float) : option Q :=
  match to_Q a, to_Q b with
  | Some qa, Some qb => Some (qa - qb)%Q
  | _, _ => None
  end.

(** The float operation returned the exact result: no rounding took
    place. *)
Definition exact_sub (a b : float) : Prop :=
  match to_Q a, to_Q b, to_Q (a - b)%float with
  | Some qa, Some qb, Some qr => (qr == qa - qb)%Q
  | _, _, _ => False
  end.

Definition exact_add (a b : float) : Prop :=
  match to_Q a, to_Q b, to_Q (a + b)%float with
  | Some qa, Some qb, Some qr => (qr == qa + qb)%Q
  | _, _, _ => False
  end.

(** In exact arithmetic, the interval from [lo] to [hi] has the length
    [g] and the midpoint [mid]. *)
Definition measures (g lo hi mid : float) : Prop :=
  exists edge qlo qhi qmid,
    to_Q g = Some edge /\ to_Q lo = Some qlo /\
    to_Q hi = Some qhi /\ to_Q mid = Some qmid /\
    (qhi - qlo == edge)%Q /\ (qlo + qhi == 2 * qmid)%Q.

Definition exact_half (a : float) : Prop :=
  match to_Q a, to_Q (a / 2)%float with
  | Some qa, Some qr => (qr * 2 == qa)%Q
  | _, _ => False
  end.

(** The unit roundoff of binary64, [2^-53]: rounding to nearest moves a
    number by at most this fraction of the result. *)
Definition unit_roundoff : Q := 1 # 9007199254740992.

(** The interval from [lo] to [hi] has the length [g] and the midpoint
    [mid] up to the rounding of its two ends. *)
Definition measures_nearly (g lo hi mid : float) : Prop :=
  exists edge qlo qhi qmid,
    to_Q g = Some edge /\ to_Q lo = Some qlo /\
    to_Q hi = Some qhi /\ to_Q mid = Some qmid /\
    (Qabs (qhi - qlo - edge) <= (Qabs qlo + Qabs qhi) * unit_roundoff)%Q /\
    (Qabs (qlo + qhi - 2 * qmid) <= (Qabs qlo + Qabs qhi) * unit_roundoff)%Q.

(** [h] exceeds the rounding of [x]: it is more than [2^-53 * |x|]. *)
Definition exceeds_rounding (h x : float) : Prop :=
  exists qh qx,
    to_Q h = Some qh /\ to_Q x = Some qx /\
    (Qabs qx * unit_roundoff < qh)%Q.

(** [float(n)] for a Python int [n] below [2^63] in magnitude; exact for
    [|n| <= 2^53]. *)
Definition of_Z (n : Z) : float :=
  match n with
  | Z0 => PrimFloat.zero
  | Zpos _ => PrimFloat.of_uint63 (Uint63.of_Z n)
  | Zneg p => PrimFloat.opp (PrimFloat.of_uint63 (Uint63.of_Z (Zpos p)))
  end.

End Float.

(** ** Python values (the objects a data frame cell or a GeoJSON property
    can hold) *)

Inductive value : Type :=
| VNone
| VBool (b : bool)
| VInt (n : Z)
| VFloat (f : float)
| VStr (s : string)
| VDict (d : dict)
with dict : Type :=
| DEmpty
| DItem (key : string) (v : value) (rest : dict).

Inductive exception : Type :=
| KeyError (key : string)
| TypeError.

Module Py.

Fixpoint lookup (k : string) (d : dict) : option value :=
  match d with
  | DEmpty => None
  | DItem k' v d' => if String.eqb k k' then Some v else lookup k d'
  end.

(** [obj[key]]: subscripting a dict raises [KeyError] on a missing key;
    the other values of this model are not subscriptable by a string. *)
Definition getitem (obj : value) (key : string) : exception + value :=
  match obj with
  | VDict d =>
      match lookup key d with
      | Some v => inr v
      | None => inl (KeyError key)
      end
  | _ => inl TypeError
  end.

(** [v == n] for an int literal [n]: ints compare by value, [True] and
    [False] are the ints 1 and 0, a float equals an int when it denotes
    the same number, and every other value is unequal to an int. *)
Definition eq_int (v : value) (n : Z) : bool :=
  match v with
  | VInt m => Z.eqb m n
  | VBool b => Z.eqb (if b then 1 else 0) n
  | VFloat f =>
      match Float.to_Q f with
      | Some q => Qeq_bool q (inject_Z n)
      | None => false
      end
  | VNone | VStr _ | VDict _ => false
  end.

End Py.

(** ** shapely geometry *)

Module Shapely.

(** A coordinate pair [(x, y)]. *)
Definition coord : Type := float * float.

Definition Point (x y : float) : coord := (x, y).

(** A polygon without holes, as the coordinate sequence of its exterior
    ring. *)
Definition polygon : Type := list coord.

(** [shapely.errors.GEOSException] *)
Inductive error : Type := GEOSException.

(** [p == q] on both coordinates; a NaN equals nothing, itself
    included. *)
Definition same_point (p q : coord) : bool :=
  ((fst p =? fst q) && (snd p =? snd q))%float.

(** [box(minx, miny, maxx, maxy)] with the default [ccw=True], that is,
    [Polygon([(maxx, miny), (maxx, maxy), (minx, maxy), (minx, miny)])]:
    the four corners, counter-clockwise from the lower right one. The
    ring is closed with a copy of its first coordinate unless its last
    coordinate equals the first already, as it does when [minx == maxx];
    GEOS then refuses a ring whose two ends differ, and they still do
    when the first coordinate holds a NaN. *)
Definition box (minx miny maxx maxy : float) : error + polygon :=
  let corners := [ (maxx, miny); (maxx, maxy); (minx, maxy); (minx, miny) ] in
  if same_point (maxx, miny) (minx, miny) then inr corners
  else if same_point (maxx, miny) (maxx, miny) then inr (corners ++ [ (maxx, miny) ])
  else inl GEOSException.







End Shapely.

(** ** Data frames *)

Module Sample.

(** One row of the tab separated input, as [pd.read_csv] parses it. *)
Record row : Type := mk {
  cell : Z;
  latitude : float;
  longitude : float;
  n_seagrass_plants : Z;
  method : value
}.

End Sample.

Module Grid.

(** One row of [grid_df]. A column that has not been assigned, or whose
    assigned series has no entry for the row's index label, holds no
    value ([None] here, NaN in pandas). *)
Record row : Type := mk {
  geometry : Shapely.polygon;
  n_plants : option Z;
  cell : option Z;
  method : option value
}.

Definition set_n_plants (r : row) (v : option Z) : row :=
  mk (geometry r) v (cell r) (method r).

Definition set_cell (r : row) (v : option Z) : row :=
  mk (geometry r) (n_plants r) v (method r).

Definition set_method (r : row) (v : option value) : row :=
  mk (geometry r) (n_plants r) (cell r) v.

End Grid.

(** A GeoDataFrame: its coordinate reference system (an EPSG code) and its
    rows, labelled by the default [RangeIndex] 0, 1, ..., so that a row's
    index label is its position. *)
Record GeoDataFrame (R : Type) : Type := mkGDF {
  crs : Z;
  rows : list R
}.
Arguments mkGDF {R} _ _.
Arguments crs {R} _.
Arguments rows {R} _.

Fixpoint mapi_from {A B : Type} (i : nat) (f : nat -> A -> B) (l : list A) : list B :=
  match l with
  | [] => []
  | a :: l' => f i a :: mapi_from (S i) f l'
  end.

(** [frame[column] = series]: pandas aligns the series with the frame on
    the index; row [i] receives the series entry labelled [i]. *)
Definition set_column {A : Type} (upd : Grid.row -> option A -> Grid.row)
    (series : list A) (frame : list Grid.row) : list Grid.row :=
  mapi_from 0 (fun i r => upd r (nth_error series i)) frame.

(** ** The grid builder *)

(** What [create_grid_df] can raise: an exception of the projection
    library, or one of shapely. *)
Inductive raised (exn : Type) : Type :=
| Projection (e : exn)
| Geometry (e : Shapely.error).
Arguments Projection {exn} e.
Arguments Geometry {exn} e.

Section GridBuilder.

Import Shapely.

(** The exceptions of the projection library. *)
Variable exn : Type.

(** [transformer src dst]: the coordinate transformation from EPSG code
    [src] to EPSG code [dst]. Building it raises for a code the library
    does not know; applying it to a coordinate pair may raise as well.
    Nothing else is assumed about it. *)
Variable transformer : Z -> Z -> exn + (coord -> exn + coord).

(** The transformation of one row of a frame of points: the row keeps
    its columns, its point is transformed. *)
Definition project_row (tf : coord -> exn + coord) (rp : Sample.row * coord)
    : exn + (Sample.row * coord) :=
  q <- tf (snd rp) ;; Err.ret (fst rp, q).

(** [frame.to_crs(epsg=dst)] on a frame of points. *)
Definition to_crs_points (dst : Z) (frame : GeoDataFrame (Sample.row * coord))
    : exn + GeoDataFrame (Sample.row * coord) :=
  tf <- transformer (crs frame) dst ;;
  rs <- Err.mapM (project_row tf) (rows frame) ;;
  Err.ret (mkGDF dst rs).

(** [frame.to_crs(epsg=dst)] on a frame of polygons: every vertex of
    every ring is transformed, in order. *)
Definition to_crs_polygons (dst : Z) (frame : GeoDataFrame polygon)
    : exn + GeoDataFrame polygon :=
  tf <- transformer (crs frame) dst ;;
  rs <- Err.mapM (fun ring : polygon => Err.mapM tf ring) (rows frame) ;;
  Err.ret (mkGDF dst rs).

(** [df.apply(lambda row: Point(row.longitude, row.latitude), axis=1)] *)
Definition points (df : list Sample.row) : list coord :=
  map (fun row => Point (Sample.longitude row) (Sample.latitude row)) df.

(** [gpd.GeoDataFrame(df, geometry=points)] with [crs] set to EPSG 4326. *)
Definition seagrass (df : list Sample.row) : GeoDataFrame (Sample.row * coord) :=
  mkGDF 4326 (combine df (points df)).

(** The square of side [grid_size] around one planar point. *)
Definition grid_box (grid_size : float) (point : coord) : error + polygon :=
  box (fst point - grid_size / 2)%float (snd point - grid_size / 2)%float
      (fst point + grid_size / 2)%float (snd point + grid_size / 2)%float.

(** [[box(...) for point in gdf['geometry']]]: the first box that raises
    aborts the comprehension. *)
Definition grid_geometries (grid_size : float)
    (gdf : GeoDataFrame (Sample.row * coord)) : error + list polygon :=
  Err.mapM (fun rp => grid_box grid_size (snd rp)) (rows gdf).

(** The three column assignments that end [create_grid_df]. *)
Definition add_columns (df : list Sample.row) (rings : list polygon) : list Grid.row :=
  let grid_df := map (fun g => Grid.mk g None None None) rings in
  let grid_df := set_column Grid.set_n_plants (map Sample.n_seagrass_plants df) grid_df in
  let grid_df := set_column Grid.set_cell (map Sample.cell df) grid_df in
  let grid_df := set_column Grid.set_method (map Sample.method df) grid_df in
  grid_df.

(** [create_grid_df(file_name, utm, grid_size)], from the table [df] that
    [pd.read_csv(file_name, sep='\t', header=0)] returns. [grid_size] is
    the float the script divides ([20] in the script's main stands for
    [20.0]: [grid_size / 2] is a true division). *)
Definition create_grid_df (df : list Sample.row) (utm : Z) (grid_size : float)
    : raised exn + (GeoDataFrame (Sample.row * coord) * GeoDataFrame Grid.row) :=
  gdf <- Err.lift Projection (to_crs_points utm (seagrass df)) ;;
  grid_geometries <- Err.lift Geometry (grid_geometries grid_size gdf) ;;
  let grid_df := mkGDF (crs gdf) grid_geometries in
  grid_df <- Err.lift Projection (to_crs_polygons 4326 grid_df) ;;
  Err.ret (gdf, mkGDF (crs grid_df) (add_columns df (rows grid_df))).

End GridBuilder.

Arguments project_row {exn} tf rp.
Arguments to_crs_points {exn} transformer dst frame.
Arguments to_crs_polygons {exn} transformer dst frame.
Arguments create_grid_df {exn} transformer df utm grid_size.

(** ** Styling a GeoJSON feature *)

(** [feature['properties']['method']] *)
Definition feature_method (feature : value) : exception + value :=
  properties <- Py.getitem feature "properties" ;;
  Py.getitem properties "method".

(** [style_function(feature)]: the chain of [if]/[elif], each test
    evaluating the subscripts again; a function body that ends without a
    [return] yields [None]. *)
Definition style_function (feature : value) : exception + value :=
  m <- feature_method feature ;;
  if Py.eq_int m 1
  then Err.ret (VDict (DItem "color" (VStr "orange") (DItem "weight" (VInt 4) DEmpty)))
  else
    m <- feature_method feature ;;
    if Py.eq_int m 2
    then Err.ret (VDict (DItem "color" (VStr "red") (DItem "weight" (VInt 4) DEmpty)))
    else
      m <- feature_method feature ;;
      if Py.eq_int m 3
      then Err.ret (VDict (DItem "color" (VStr "blue") (DItem "weight" (VInt 4) DEmpty)))
      else
        m <- feature_method feature ;;
        if Py.eq_int m 4
        then Err.ret (VDict (DItem "color" (VStr "Yellow") (DItem "weight" (VInt 4) DEmpty)))
        else Err.ret VNone.

(** ** printf-style formatting *)

Module Format.

Local Open Scope string_scope.

(** The characters [\t] and [\n]. *)
Definition tab : string := String (ascii_of_nat 9) "".
Definition newline : string := String (ascii_of_nat 10) "".

(** The number of line breaks in a string. *)
Fixpoint newlines (s : string) : nat :=
  match s with
  | EmptyString => 0
  | String c s' => (if Ascii.eqb c (ascii_of_nat 10) then 1 else 0) + newlines s'
  end.

(** A string that is one line of a text file: it ends with a line break
    and holds no other. *)
Definition one_line (s : string) : Prop :=
  exists body, s = (body ++ newline)%string /\ newlines body = 0%nat.

(** [%d] *)
Definition d (n : Z) : string := DecimalString.NilZero.string_of_int (Z.to_int n).

Definition digit (k : Z) : ascii := ascii_of_nat (48 + Z.to_nat (k mod 10)).

(** The six decimals of a fraction given in millionths. *)
Definition six_digits (n : Z) : string :=
  String (digit (n / 100000)) (String (digit (n / 10000)) (String (digit (n / 1000))
    (String (digit (n / 100)) (String (digit (n / 10)) (String (digit n) ""))))).

(** The integer nearest to [num / den] (for [0 <= num], [0 < den]), a
    tie going to the even neighbour. *)
Definition round_half_even (num den : Z) : Z :=
  let fl := num / den in
  let r2 := 2 * (num mod den) in
  if (r2 <? den)%Z then fl
  else if (den <? r2)%Z then fl + 1
  else if Z.even fl then fl else fl + 1.

(** [m * 2^e] in millionths, correctly rounded. *)
Definition millionths (m : positive) (e : Z) : Z :=
  if (0 <=? e)%Z then Zpos m * 2 ^ e * 1000000
  else round_half_even (Zpos m * 1000000) (2 ^ (- e)).

Definition sign (s : bool) : string := if s then "-" else "".

(** [%.6f]: the float's exact value rounded to six decimals. *)
Definition f6 (x : float) : string :=
  match Prim2SF x with
  | S754_nan => "nan"
  | S754_infinity s => sign s ++ "inf"
  | S754_zero s => sign s ++ "0.000000"
  | S754_finite s m e =>
      let n := millionths m e in
      sign s ++ d (n / 1000000) ++ "." ++ six_digits (n mod 1000000)
  end.

(** The number that [f6] prints, as a rational. *)
Definition f6_value (x : float) : option Q :=
  match Prim2SF x with
  | S754_nan | S754_infinity _ => None
  | S754_zero _ => Some 0%Q
  | S754_finite s m e => Some (cond_Zopp s (millionths m e) # 1000000)%Q
  end.

(** The float [x] lies between [lo] and [hi], and the number that [%.6f]
    prints for it lies between them up to half a millionth. *)
Definition within (lo hi x : float) : Prop :=
  (lo <=? x)%float = true /\ (x <=? hi)%float = true /\
  exists vlo vhi p,
    Float.to_Q lo = Some vlo /\ Float.to_Q hi = Some vhi /\
    f6_value x = Some p /\
    (vlo - (1 # 2000000) <= p <= vhi + (1 # 2000000))%Q.

End Format.

(** ** Random sample data *)

Module Draw.

(** The values of one data row before they are formatted. *)
Record row : Type := mk {
  cell : Z;
  lat : float;
  lon : float;
  n_plants : Z;
  method : string
}.

End Draw.

Section RandomData.

Local Open Scope string_scope.

(** The state of the generator behind the [random] module. *)
Variable rng : Type.
(** [random.randint(a, b)] *)
Variable randint : Z -> Z -> rng -> Z * rng.
(** [random.random()] *)
Variable random : rng -> float * rng.

Variables min_lat max_lat min_lon max_lon : float.

Definition header : string :=
  "cell" ++ Format.tab ++ "latitude" ++ Format.tab ++ "longitude" ++ Format.tab
    ++ "n_seagrass_plants" ++ Format.tab ++ "method" ++ Format.newline.

(** The [if]/[elif] chain on the loop index. *)
Definition method_label (i : Z) : string :=
  if (i <? 25)%Z then "1"
  else if (i <? 50)%Z then "2"
  else if (i <? 75)%Z then "3"
  else "4".

(** The draws of one loop iteration, in the order the body makes them. *)
Definition draw_row (i : Z) (s : rng) : Draw.row * rng :=
  let cell := i + 1 in
  let '(n_plants, s) := randint 0 100 s in
  let '(r, s) := random s in
  let lat := (min_lat + r * (max_lat - min_lat))%float in
  let '(r, s) := random s in
  let lon := (min_lon + r * (max_lon - min_lon))%float in
  (Draw.mk cell lat lon n_plants (method_label i), s).

(** ['%d\t%.6f\t%.6f\t%d\t%s\n' % (cell, lat, lon, n_plants, method)] *)
Definition format_row (r : Draw.row) : string :=
  Format.d (Draw.cell r) ++ Format.tab ++ Format.f6 (Draw.lat r) ++ Format.tab
    ++ Format.f6 (Draw.lon r) ++ Format.tab ++ Format.d (Draw.n_plants r) ++ Format.tab
    ++ Draw.method r ++ Format.newline.

(** [for i in range(num_rows)], from index [i] with [n] iterations left:
    the generator state and the lines written so far are threaded
    through the loop. *)
Fixpoint write_rows (i : Z) (n : nat) (s : rng) (output : list string) : list string :=
  match n with
  | O => output
  | S n' =>
      let '(r, s') := draw_row i s in
      write_rows (i + 1) n' s' (output ++ [format_row r])
  end.

(** [generate_random_data(min_lat, max_lat, min_lon, max_lon, num_rows,
    file_name, seed)]: the strings written to the file, one per call of
    [output.write]. [s] is the generator state that [random.seed(seed)]
    leaves. *)
Definition generate_random_data (num_rows : Z) (s : rng) : list string :=
  write_rows 0 (Z.to_nat num_rows) s [header].

(** The unformatted rows of the same run. *)
Fixpoint drawn_rows (i : Z) (n : nat) (s : rng) : list Draw.row :=
  match n with
  | O => []
  | S n' => let '(r, s') := draw_row i s in r :: drawn_rows (i + 1) n' s'
  end.

(** The values an iteration with index [i] may put in a row: the
    identifier and the label follow from the index, the count is between 0
    and 100, the coordinates are affine in two draws of [random.random()]. *)
Definition row_of_index (i : Z) (r : Draw.row) : Prop :=
  Draw.cell r = i + 1 /\
  0 <= Draw.n_plants r <= 100 /\
  Draw.method r = method_label i /\
  exists s1 s2,
    Draw.lat r = (min_lat + fst (random s1) * (max_lat - min_lat))%float /\
    Draw.lon r = (min_lon + fst (random s2) * (max_lon - min_lon))%float.

End RandomData.

Arguments draw_row {rng} randint random min_lat max_lat min_lon max_lon i s.
Arguments write_rows {rng} randint random min_lat max_lat min_lon max_lon i n s output.
Arguments drawn_rows {rng} randint random min_lat max_lat min_lon max_lon i n s.
Arguments generate_random_data {rng} randint random min_lat max_lat min_lon max_lon
  num_rows s.
Arguments row_of_index {rng} random min_lat max_lat min_lon max_lon i r.

(** ** Concrete collaborators

    The theorems below hold for every transformation and every generator.
    To run the model on concrete inputs, two simple instances are fixed
    here. *)

Module Plate.

Import Shapely.

Inductive error : Type := CRSError | ProjError.

(** An equirectangular map around the meridian 3 degrees east, with
    power-of-two scale factors: it sends longitude 3 to the easting
    500000, as UTM zone 31 does. It accepts every coordinate pair. *)
Definition forward (p : coord) : error + coord :=
  inr ((500000 + (fst p - 3) * 65536)%float, (snd p * 131072)%float).

Definition inverse (p : coord) : error + coord :=
  inr (((fst p - 500000) / 65536 + 3)%float, (snd p / 131072)%float).

(** Only EPSG 4326 (geodetic) and EPSG 32631 (planar) are known. *)
Definition transformer (src dst : Z) : error + (coord -> error + coord) :=
  if (src =? 4326) && (dst =? 32631) then inr forward
  else if (src =? 32631) && (dst =? 4326) then inr inverse
  else inl CRSError.

(** The same map behind a range check: a latitude outside [-90, 90] or a
    longitude outside [-180, 180] (NaN included) raises. *)
Definition in_range (p : coord) : bool :=
  ((-180 <=? fst p) && (fst p <=? 180) && (-90 <=? snd p) && (snd p <=? 90))%float.

Definition strict_forward (p : coord) : error + coord :=
  if in_range p then forward p else inl ProjError.

Definition strict_transformer (src dst : Z) : error + (coord -> error + coord) :=
  if (src =? 4326) && (dst =? 32631) then inr strict_forward
  else if (src =? 32631) && (dst =? 4326) then inr inverse
  else inl CRSError.

End Plate.

(** Two survey records: the one of the script's map centre, and a second
    one a little to the north-east. *)
Definition survey : list Sample.row :=
  [ Sample.mk 1 51.4501 4.1901 42 (VInt 2);
    Sample.mk 2 51.4513 4.1922 7 (VInt 3) ].

(** A record whose latitude is no latitude. *)
Definition stray : list Sample.row :=
  [ Sample.mk 1 200 4.1901 42 (VInt 2) ].

(** A GeoJSON feature as [GeoDataFrame.to_json] emits it for a grid row
    (the geometry left out). *)
Definition feature_of (cell n_plants : Z) (method : value) : value :=
  VDict (DItem "id" (VStr "0") (DItem "type" (VStr "Feature")
    (DItem "properties"
       (VDict (DItem "n_plants" (VInt n_plants) (DItem "cell" (VInt cell)
          (DItem "method" method DEmpty)))) DEmpty))).

Module Tape.

(** A generator that replays recorded raw draws: [randint] reduces the
    next draw into the requested range, [random] scales the next 53 bits
    into [0, 1). An exhausted tape yields the lowest value. *)
Definition rng : Type := list Z.

Definition randint (a b : Z) (s : rng) : Z * rng :=
  match s with
  | [] => (a, [])
  | k :: s' => (a + k mod (b - a + 1), s')
  end.

Definition random (s : rng) : float * rng :=
  match s with
  | [] => (0%float, [])
  | k :: s' => ((Float.of_Z (k mod 2 ^ 53) * 0x1p-53)%float, s')
  end.

End Tape.

(** ** What the collaborators are asked to accept *)

Section Reprojection.

Import Shapely.

Variable exn : Type.
Variable transformer : Z -> Z -> exn + (coord -> exn + coord).

(** The transformation [tf] does not raise on [p]. *)
Definition accepts (tf : coord -> exn + coord) (p : coord) : Prop :=
  exists q, tf p = inr q.

(** Every step of the build goes through: both transformations exist,
    the forward one accepts every record's point, the square around the
    planar point is one shapely constructs, and the backward
    transformation accepts every coordinate of its ring. *)
Definition reprojectable (df : list Sample.row) (utm : Z) (grid_size : float) : Prop :=
  exists fwd bwd,
    transformer 4326 utm = inr fwd /\
    transformer utm 4326 = inr bwd /\
    Forall (fun record =>
              exists p ring,
                fwd (Point (Sample.longitude record) (Sample.latitude record)) = inr p /\
                grid_box grid_size p = inr ring /\
                Forall (accepts bwd) ring) df.

(** The cell [c] is built from [record] by way of the planar point [p]:
    [p] is the forward image of the record's point, and the cell's ring is
    the backward image, coordinate by coordinate, of the ring of the
    square around [p]. *)
Definition built_from (utm : Z) (grid_size : float) (record : Sample.row)
    (p : coord) (c : Grid.row) : Prop :=
  exists fwd bwd ring,
    transformer 4326 utm = inr fwd /\
    transformer utm 4326 = inr bwd /\
    fwd (Point (Sample.longitude record) (Sample.latitude record)) = inr p /\
    grid_box grid_size p = inr ring /\
    Err.mapM bwd ring = inr (Grid.geometry c).

(** The cell [c] is the one built from [record]. *)
Definition cell_of (utm : Z) (grid_size : float) (record : Sample.row)
    (c : Grid.row) : Prop :=
  exists p, built_from utm grid_size record p c.

(** The exception [e] was raised by the projection library: while
    building one of the two transformations, on a record's point, or on a
    coordinate of the ring of a record's square. *)
Definition raised_by_library (df : list Sample.row) (utm : Z) (grid_size : float)
    (e : exn) : Prop :=
  transformer 4326 utm = inl e \/
  (exists fwd record,
     transformer 4326 utm = inr fwd /\ In record df /\
     fwd (Point (Sample.longitude record) (Sample.latitude record)) = inl e) \/
  transformer utm 4326 = inl e \/
  (exists fwd bwd record p ring v,
     transformer 4326 utm = inr fwd /\ transformer utm 4326 = inr bwd /\
     In record df /\
     fwd (Point (Sample.longitude record) (Sample.latitude record)) = inr p /\
     grid_box grid_size p = inr ring /\
     In v ring /\ bwd v = inl e).

(** Shapely refused the square of a record: the forward transformation
    accepted every point, and for one record the first coordinate of the
    square's ring, [(x + grid_size/2, y - grid_size/2)], holds a NaN. *)
Definition raised_by_shapely (df : list Sample.row) (utm : Z) (grid_size : float) : Prop :=
  exists fwd,
    transformer 4326 utm = inr fwd /\
    Forall (fun record =>
              accepts fwd (Point (Sample.longitude record) (Sample.latitude record))) df /\
    exists record x y,
      In record df /\
      fwd (Point (Sample.longitude record) (Sample.latitude record)) = inr (x, y) /\
      ((x + grid_size / 2 =? x + grid_size / 2)%float = false \/
       (y - grid_size / 2 =? y - grid_size / 2)%float = false).

End Reprojection.

Arguments accepts {exn} tf p.
Arguments reprojectable {exn} transformer df utm grid_size.
Arguments built_from {exn} transformer utm grid_size record p c.
Arguments cell_of {exn} transformer utm grid_size record c.
Arguments raised_by_library {exn} transformer df utm grid_size e.
Arguments raised_by_shapely {exn} transformer df utm grid_size.

(** ** The map layers

    The three layer functions hand [grid_df] to folium, which turns every
    row into a GeoJSON feature and reads the feature's properties. *)

Module GeoJSON.

(** The [properties] of the feature that [GeoDataFrame.to_json] (and
    [__geo_interface__]) emits for a row of [grid_df]: its columns other
    than the geometry, in the order in which [create_grid_df] added them.
    Defined for a row whose three columns hold a value. *)
Definition properties (c : Grid.row) : option dict :=
  match Grid.n_plants c, Grid.cell c, Grid.method c with
  | Some n, Some k, Some m =>
      Some (DItem "n_plants" (VInt n) (DItem "cell" (VInt k) (DItem "method" m DEmpty)))
  | _, _, _ => None
  end.

(** [feature] is a feature of the row [c]: whatever its other members
    ([id], [type], [geometry]) are, its properties are those of the row. *)
Definition feature_for (c : Grid.row) (feature : value) : Prop :=
  exists props,
    properties c = Some props /\
    Py.getitem feature "properties" = inr (VDict props).

End GeoJSON.

Module Folium.

(** What the constructor of a layer can raise: folium's own
    [ValueError], or whatever the style function raised. *)
Inductive error : Type :=
| ValueError
| Raised (e : exception).

(** [folium.GeoJson(data, style_function=f)]: the constructor tries [f]
    on the first feature, if there is one, and raises [ValueError] unless
    [f] returns a dictionary for it. The layer keeps the features; [f] is
    applied to each of them when the map is drawn. *)
Definition GeoJson (features : list value) (f : value -> exception + value)
    : error + list value :=
  match features with
  | [] => inr features
  | first :: _ =>
      match f first with
      | inl e => inl (Raised e)
      | inr (VDict _) => inr features
      | inr _ => inl ValueError
      end
  end.

End Folium.

(** [create_methods_map(grid_df, m)], on the features of [grid_df]. *)
Definition create_methods_map (features : list value) : Folium.error + list value :=
  Folium.GeoJson features style_function.

Module Hover.

(** [fields] and [aliases] of the tooltip that [create_hover_data]
    configures. *)
Definition fields : list string := ["cell"; "method"; "n_plants"]%string.

Definition aliases : list string :=
  ["Plot number: "; "Method: "; "Number of plants: "]%string.

(** What the tooltip shows for a feature: every alias with the property
    that its field names. *)
Definition tooltip (feature : value) : exception + list (string * value) :=
  properties <- Py.getitem feature "properties" ;;
  Err.mapM (fun af : string * string =>
              v <- Py.getitem properties (snd af) ;; Err.ret (fst af, v))
    (combine aliases fields).

End Hover.

Module Choropleth.

(** [key_on="feature.properties.cell"] in [create_seagrass_map]. *)
Definition key_on (feature : value) : exception + value :=
  properties <- Py.getitem feature "properties" ;;
  Py.getitem properties "cell".

(** [columns=["cell", "n_seagrass_plants"]] of [data=gdf]: the key and
    the value of every row. *)
Definition columns (gdf : GeoDataFrame (Sample.row * Shapely.coord)) : list (Z * Z) :=
  map (fun rp => (Sample.cell (fst rp), Sample.n_seagrass_plants (fst rp))) (rows gdf).

(** The data holds the value [v] under the key [key]. *)
Definition binds (data : list (Z * Z)) (key : value) (v : Z) : Prop :=
  exists k, key = VInt k /\ In (k, v) data.

End Choropleth.

(** ** Further notions for the edge length, the file and the bounds *)

(** The ring of a box, started at the opposite corner. *)
Definition opposite_start (ring : Shapely.polygon) : Shapely.polygon :=
  match ring with
  | [v0; v1; v2; v3] => [v2; v3; v0; v1]
  | [v0; v1; v2; v3; _] => [v2; v3; v0; v1; v2]
  | _ => ring
  end.

(** Two floats that are opposite numbers: one the opposite of the other,
    or two zeros of any signs. *)
Definition sf_opposite (x y : spec_float) : Prop :=
  y = SFopp x \/ (exists s s', x = S754_zero s /\ y = S754_zero s').

(** ** Tab-separated text *)

Module Tsv.

(** [s.split(sep)] for a separator of one character. *)
Fixpoint split (sep : ascii) (s : string) : list string :=
  match s with
  | EmptyString => [EmptyString]
  | String c s' =>
      if Ascii.eqb c sep then EmptyString :: split sep s'
      else
        match split sep s' with
        | field :: fields => String c field :: fields
        | [] => [String c EmptyString]
        end
  end.

(** The fields of a line of the file: the text before the final line
    break, cut at the tabs. *)
Definition fields (line : string) (fs : list string) : Prop :=
  exists body, line = (body ++ Format.newline)%string /\ split (ascii_of_nat 9) body = fs.

End Tsv.

(** ** The draws behind the sample data *)

Section RandomDraws.

Variable rng : Type.
Variable randint : Z -> Z -> rng -> Z * rng.
Variable random : rng -> float * rng.

(** What [n] iterations of the loop take from the generator: a plant
    count and two fractions each, in this order. *)
Fixpoint draws (n : nat) (s : rng) : list (Z * float * float) :=
  match n with
  | O => []
  | S n' =>
      let '(n_plants, s) := randint 0 100 s in
      let '(r1, s) := random s in
      let '(r2, s) := random s in
      (n_plants, r1, r2) :: draws n' s
  end.

End RandomDraws.

Arguments draws {rng} randint random n s.

(** * Properties *)

(** ** Rounding of binary64 results

    The facts about [SpecFloat] that the script's arithmetic rests on.
    [binary_round_aux] rounds to nearest; from that: adding a non-negative
    number to a finite one does not decrease it and subtracting one does
    not increase it, a finite sum or difference is within [2^-53] of
    itself of the exact one, half of a positive number is not negative,
    and [a + r * (b - a)] stays between [a] and [b] for [0 <= r < 1]. *)

Section Rounding.

Import Float.

Lemma fexp_eq (e : Z) : fexp prec emax e = Z.max (e - 53) (-1074).
Proof. reflexivity. Qed.

Lemma digits2_pos_size (p : positive) : digits2_pos p = Pos.size p.
Proof. induction p; simpl; congruence. Qed.

Lemma digits2_pos_bounds (p : positive) :
  2 ^ (Zpos (digits2_pos p) - 1) <= Zpos p < 2 ^ Zpos (digits2_pos p).
Proof.
  rewrite digits2_pos_size. split.
  - pose proof (Pos.size_le p) as H.
    apply Pos2Z.pos_le_pos in H. rewrite Pos2Z.inj_pow in H.
    replace (Zpos (Pos.size p)) with (Zpos (Pos.size p) - 1 + 1) in H by lia.
    rewrite Z.pow_add_r in H by lia.
    change (Zpos p~0) with (2 * Zpos p) in H. lia.
  - pose proof (Pos.size_gt p) as H.
    apply Pos2Z.pos_lt_pos in H. rewrite Pos2Z.inj_pow in H. exact H.
Qed.

Lemma pos_iter_xO (m d : positive) : Zpos (Pos.iter xO m d) = Zpos m * 2 ^ Zpos d.
Proof.
  induction d as [|d IH] using Pos.peano_ind.
  - simpl. lia.
  - rewrite Pos.iter_succ, Pos2Z.inj_xO, IH, Pos2Z.inj_succ, Z.pow_succ_r by lia. lia.
Qed.

(** *** Shifting right *)

Lemma shr_1_shifted (mrs : shr_record) :
  0 <= shr_m mrs -> shifted 1 mrs (shr_1 mrs).
Proof.
  destruct mrs as [m r s]. unfold shifted, sticky. cbn [shr_m shr_r shr_s].
  intros Hm. change (2 ^ 1) with 2. change (2 ^ (1 - 1)) with 1. rewrite Z.mod_1_r.
  assert (Hdiv : forall q b, 0 <= b < 2 -> (2 * q + b) / 2 = q)
    by (intros q b Hb; symmetry; apply Z.div_unique with b; lia).
  assert (Hmod : forall q b, 0 <= b < 2 -> (2 * q + b) mod 2 = b)
    by (intros q b Hb; symmetry; apply Z.mod_unique with q; lia).
  destruct m as [|[p|p|]|p]; try lia; cbn [shr_1 shr_m shr_r shr_s].
  - change (0 / 2) with 0. change (0 mod 2) with 0.
    repeat split; try lia; try discriminate; tauto.
  - rewrite Pos2Z.inj_xI, (Hdiv _ 1), (Hmod _ 1) by lia.
    repeat split; try lia; try discriminate; tauto.
  - rewrite Pos2Z.inj_xO.
    replace (2 * Z.pos p) with (2 * Z.pos p + 0) by lia.
    rewrite (Hdiv _ 0), (Hmod _ 0) by lia.
    repeat split; try lia; try discriminate; tauto.
  - change (1 / 2) with 0. change (1 mod 2) with 1.
    repeat split; try lia; try discriminate; tauto.
Qed.

(** The remainder of a shift by [a + b] bits, from the remainders of the
    two parts. *)
Lemma mod_pow2_split (m a b : Z) :
  0 <= a -> 0 <= b ->
  m mod 2 ^ (a + b) = m mod 2 ^ a + 2 ^ a * ((m / 2 ^ a) mod 2 ^ b).
Proof.
  intros Ha Hb. rewrite Z.pow_add_r by lia.
  apply Z.rem_mul_r; [apply Z.pow_nonzero; lia|apply Z.pow_pos_nonneg; lia].
Qed.

(** Two shifts in a row are one shift by the sum. *)
Lemma shifted_trans (a b : Z) (x y z : shr_record) :
  1 <= a -> 1 <= b -> 0 <= shr_m x ->
  shifted a x y -> shifted b y z -> shifted (a + b) x z.
Proof.
  intros Ha Hb Hx (Hy0 & Hy & Hyr & Hys) (Hz0 & Hz & Hzr & Hzs).
  assert (Hpa : 0 < 2 ^ a) by (apply Z.pow_pos_nonneg; lia).
  assert (Hpb : 0 < 2 ^ b) by (apply Z.pow_pos_nonneg; lia).
  assert (Hpb1 : 0 < 2 ^ (b - 1)) by (apply Z.pow_pos_nonneg; lia).
  assert (Hpa1 : 0 < 2 ^ (a - 1)) by (apply Z.pow_pos_nonneg; lia).
  assert (Hb2 : 2 ^ b = 2 * 2 ^ (b - 1))
    by (rewrite <- Z.pow_succ_r by lia; f_equal; lia).
  assert (Ha2 : 2 ^ a = 2 ^ (a - 1) * 2)
    by (rewrite Z.mul_comm, <- Z.pow_succ_r by lia; f_equal; lia).
  pose proof (mod_pow2_split (shr_m x) a b ltac:(lia) ltac:(lia)) as Hab.
  pose proof (mod_pow2_split (shr_m x) a (b - 1) ltac:(lia) ltac:(lia)) as Hab1.
  replace (a + (b - 1)) with (a + b - 1) in Hab1 by lia.
  pose proof (mod_pow2_split (shr_m x) (a - 1) 1 ltac:(lia) ltac:(lia)) as Ha1.
  replace (a - 1 + 1) with a in Ha1 by lia. change (2 ^ 1) with 2 in Ha1.
  pose proof (Z.mod_pos_bound (shr_m x) (2 ^ a) Hpa) as Bra.
  pose proof (Z.mod_pos_bound (shr_m x) (2 ^ (a - 1)) Hpa1) as Bra1.
  pose proof (Z.mod_pos_bound (shr_m x / 2 ^ a) (2 ^ b) Hpb) as Brb.
  pose proof (Z.mod_pos_bound (shr_m x / 2 ^ a) (2 ^ (b - 1)) Hpb1) as Brb1.
  pose proof (Z.mod_pos_bound (shr_m x / 2 ^ (a - 1)) 2 ltac:(lia)) as Bbit.
  rewrite <- Hy in *.
  set (ra := shr_m x mod 2 ^ a) in *.
  set (ra1 := shr_m x mod 2 ^ (a - 1)) in *.
  set (rb := shr_m y mod 2 ^ b) in *.
  set (rb1 := shr_m y mod 2 ^ (b - 1)) in *.
  set (bit := (shr_m x / 2 ^ (a - 1)) mod 2) in *.
  clearbody ra ra1 rb rb1 bit.
  split; [assumption|]. split; [|split].
  - rewrite Hz, Hy, Z.div_div, (Z.pow_add_r 2 a b) by lia. reflexivity.
  - rewrite Hzr, Hab, (Z.pow_add_r 2 a b) by lia. split; intros H.
    + assert (0 <= 2 ^ a * (2 * rb - 2 ^ b)) by (apply Z.mul_nonneg_nonneg; lia). lia.
    + destruct (Z_lt_le_dec (2 * rb) (2 ^ b)) as [Hlt|]; [exfalso|assumption].
      assert (0 <= 2 ^ a * (2 ^ (b - 1) - rb - 1)) by (apply Z.mul_nonneg_nonneg; lia).
      rewrite Hb2 in H. lia.
  - rewrite Hzs, Hab1. unfold sticky at 1.
    rewrite orb_false_iff, Hys.
    assert (Hyr' : shr_r y = false <-> 2 * ra < 2 ^ a).
    { destruct (shr_r y); split; intros H; try reflexivity; try discriminate.
      - destruct Hyr as [Hyr _]. specialize (Hyr eq_refl). lia.
      - destruct (Z_lt_le_dec (2 * ra) (2 ^ a)) as [|Hge]; [assumption|].
        apply Hyr in Hge. discriminate. }
    rewrite Hyr'.
    split.
    + intros ((Hlt & Hs & H1) & H2). split; [assumption|].
      rewrite H2, Z.mul_0_r, Z.add_0_r.
      assert (Hbit : bit = 0 \/ bit = 1) by lia.
      destruct Hbit as [-> | ->]; lia.
    + intros (Hs & H12).
      assert (0 <= 2 ^ a * rb1) by (apply Z.mul_nonneg_nonneg; lia).
      assert (Hra : ra = 0) by lia.
      assert (Hrb : 2 ^ a * rb1 = 0) by lia.
      apply Z.mul_eq_0 in Hrb.
      assert (0 <= 2 ^ (a - 1) * bit) by (apply Z.mul_nonneg_nonneg; lia).
      repeat split; try assumption; try lia.
Qed.

Lemma iter_pos_shifted (p : positive) (mrs : shr_record) :
  0 <= shr_m mrs -> shifted (Zpos p) mrs (iter_pos shr_1 p mrs).
Proof.
  revert mrs; induction p as [p IH|p IH|]; intros mrs Hm; simpl iter_pos.
  - pose proof (shr_1_shifted mrs Hm) as H1.
    assert (H1m : 0 <= shr_m (shr_1 mrs)) by apply H1.
    pose proof (IH _ H1m) as H2.
    assert (H2m : 0 <= shr_m (iter_pos shr_1 p (shr_1 mrs))) by apply H2.
    pose proof (IH _ H2m) as H3.
    replace (Zpos p~1) with (1 + Zpos p + Zpos p) by lia.
    eapply shifted_trans; [lia|lia|assumption| |exact H3].
    eapply shifted_trans; [lia|lia|assumption|exact H1|exact H2].
  - pose proof (IH _ Hm) as H1.
    assert (H1m : 0 <= shr_m (iter_pos shr_1 p mrs)) by apply H1.
    pose proof (IH _ H1m) as H2.
    replace (Zpos p~0) with (Zpos p + Zpos p) by lia.
    eapply shifted_trans; [lia|lia|assumption|exact H1|exact H2].
  - apply shr_1_shifted; assumption.
Qed.

(** *** Rounding to nearest *)

Lemma round_nearest_even_cases (mrs : shr_record) :
  let m1 := round_nearest_even (shr_m mrs) (loc_of_shr_record mrs) in
  m1 = shr_m mrs \/ (m1 = shr_m mrs + 1 /\ sticky mrs = true).
Proof.
  destruct mrs as [m [|] [|]]; unfold sticky; simpl; auto.
  destruct (Z.even m); auto.
Qed.

(** The mantissa after a right shift by [n >= 1] bits and rounding to
    nearest is within half a unit of the shifted number. *)
Lemma round_nearest_even_shifted (n m : Z) (mrs : shr_record) :
  1 <= n -> 0 <= m ->
  shifted n (Build_shr_record m false false) mrs ->
  let m1 := round_nearest_even (shr_m mrs) (loc_of_shr_record mrs) in
  (m1 = shr_m mrs \/ m1 = shr_m mrs + 1) /\
  - 2 ^ n <= 2 * (m1 * 2 ^ n - m) <= 2 ^ n.
Proof.
  intros Hn Hm (Hm0 & Hq & Hr & Hs). cbn [shr_m] in Hq, Hr, Hs.
  unfold sticky in Hs. cbn [shr_r shr_s orb] in Hs.
  assert (HK : 0 < 2 ^ n) by (apply Z.pow_pos_nonneg; lia).
  assert (HK1 : 0 < 2 ^ (n - 1)) by (apply Z.pow_pos_nonneg; lia).
  assert (Hn2 : 2 ^ n = 2 ^ (n - 1) * 2)
    by (rewrite Z.mul_comm, <- Z.pow_succ_r by lia; f_equal; lia).
  pose proof (Z.div_mod m (2 ^ n) ltac:(lia)) as Hdm. rewrite <- Hq in Hdm.
  pose proof (Z.mod_pos_bound m (2 ^ n) HK) as Hrem.
  pose proof (mod_pow2_split m (n - 1) 1 ltac:(lia) ltac:(lia)) as Hsplit.
  replace (n - 1 + 1) with n in Hsplit by lia. change (2 ^ 1) with 2 in Hsplit.
  pose proof (Z.mod_pos_bound (m / 2 ^ (n - 1)) 2 ltac:(lia)) as Hbit.
  set (rho := m mod 2 ^ n) in *. set (rho1 := m mod 2 ^ (n - 1)) in *.
  set (bit := (m / 2 ^ (n - 1)) mod 2) in *. clearbody rho rho1 bit.
  assert (Hr' : shr_r mrs = false -> 2 * rho < 2 ^ n).
  { intros Hf. destruct (Z_lt_le_dec (2 * rho) (2 ^ n)) as [|Hge]; [assumption|].
    apply Hr in Hge. congruence. }
  destruct mrs as [m' r s]. cbn [shr_m shr_r shr_s] in *.
  cbv zeta. destruct r, s; cbn [loc_of_shr_record round_nearest_even].
  - split; [right; reflexivity|]. destruct Hr as [Hr _]. specialize (Hr eq_refl). nia.
  - destruct Hr as [Hr _]. specialize (Hr eq_refl).
    destruct Hs as [Hs _]. destruct (Hs eq_refl) as [_ Hz].
    assert (Hb : bit = 0 \/ bit = 1) by lia.
    assert (Hrho : 2 * rho = 2 ^ n) by (destruct Hb as [-> | ->]; lia).
    destruct (Z.even m'); split; auto; nia.
  - split; [left; reflexivity|]. specialize (Hr' eq_refl). nia.
  - split; [left; reflexivity|]. specialize (Hr' eq_refl). nia.
Qed.

Lemma shr_fexp_exact_small (m t : Z) :
  -1074 <= t -> 0 <= m < 2 ^ 53 ->
  shr_fexp prec emax m t loc_Exact = (Build_shr_record m false false, t).
Proof.
  intros Ht Hm. unfold shr_fexp. rewrite fexp_eq. cbn [shr_record_of_loc].
  assert (Hd : Zdigits2 m <= 53).
  { destruct m as [|p|p]; cbn [Zdigits2]; try lia.
    pose proof (digits2_pos_bounds p) as [Hlo _].
    destruct (Z_le_gt_dec (Zpos (digits2_pos p)) 53) as [|Hgt]; [assumption|].
    assert (2 ^ 53 <= 2 ^ (Zpos (digits2_pos p) - 1)) by (apply Z.pow_le_mono_r; lia). lia. }
  destruct (Z.max (Zdigits2 m + t - 53) (-1074) - t) as [|k|k] eqn:Hn;
    try reflexivity. lia.
Qed.

Lemma shr_fexp_exact_carry (t : Z) :
  -1074 <= t ->
  shr_fexp prec emax (2 ^ 53) t loc_Exact = (Build_shr_record (2 ^ 52) false false, t + 1).
Proof.
  intros Ht. unfold shr_fexp. rewrite fexp_eq.
  change (Zdigits2 (2 ^ 53)) with 54.
  replace (Z.max (54 + t - 53) (-1074) - t) with 1 by lia.
  reflexivity.
Qed.

(** The exponent [fexp] assigns to a magnitude puts it below [2^53] units
    of that exponent and, above the subnormal range, at [2^52] or more. *)
Lemma fexp_range (mz : positive) (ez : Z) :
  -2148 <= ez ->
  let t := fexp prec emax (Zpos (digits2_pos mz) + ez) in
  mag mz ez < 2 ^ 53 * 2 ^ (t + 2148) /\
  (-1074 < t -> 2 ^ 52 * 2 ^ (t + 2148) <= mag mz ez).
Proof.
  intros Hez. cbv zeta. rewrite fexp_eq. unfold mag.
  pose proof (digits2_pos_bounds mz) as [Hlo Hhi].
  set (d := Zpos (digits2_pos mz)) in *.
  assert (Hd : 1 <= d) by (unfold d; lia). clearbody d.
  assert (HE : 0 < 2 ^ (ez + 2148)) by (apply Z.pow_pos_nonneg; lia).
  split.
  - apply Z.lt_le_trans with (2 ^ d * 2 ^ (ez + 2148)).
    + apply Z.mul_lt_mono_pos_r; lia.
    + rewrite <- !Z.pow_add_r by lia. apply Z.pow_le_mono_r; lia.
  - intros Ht. replace (Z.max (d + ez - 53) (-1074)) with (d + ez - 53) by lia.
    rewrite <- Z.pow_add_r by lia.
    replace (52 + (d + ez - 53 + 2148)) with (d - 1 + (ez + 2148)) by lia.
    rewrite Z.pow_add_r by lia. apply Z.mul_le_mono_nonneg_r; lia.
Qed.

(** [binary_round_aux] on an exact mantissa [mz] at an exponent [ez] no
    higher than the one [fexp] assigns: the result is the mantissa
    rounded to nearest at that exponent, and nothing is rounded when the
    two exponents agree. *)
Lemma binary_round_aux_spec (s : bool) (mz : positive) (ez : Z) :
  -2148 <= ez ->
  ez <= fexp prec emax (Zpos (digits2_pos mz) + ez) ->
  let t := fexp prec emax (Zpos (digits2_pos mz) + ez) in
  exists m1 : Z,
    rounded (mag mz ez) t m1 /\
    (t <= ez -> m1 * 2 ^ (t + 2148) = mag mz ez) /\
    binary_round_aux prec emax s (Zpos mz) ez loc_Exact = packed s m1 t.
Proof.
  intros Hez Ht. cbv zeta.
  pose proof (fexp_range mz ez Hez) as [Hhi Hlo].
  rewrite fexp_eq in *.
  set (d := Zpos (digits2_pos mz)) in *.
  set (t := Z.max (d + ez - 53) (-1074)) in *.
  assert (HE : 0 < 2 ^ (ez + 2148)) by (apply Z.pow_pos_nonneg; lia).
  assert (Ht0 : -1074 <= t) by (unfold t; lia).
  assert (HT0 : 0 < 2 ^ (t + 2148)) by (apply Z.pow_pos_nonneg; lia).
  assert (HT : 2 ^ (t + 2148) = 2 ^ (t - ez) * 2 ^ (ez + 2148))
    by (rewrite <- Z.pow_add_r by lia; f_equal; lia).
  (* the first shift and the rounded mantissa *)
  assert (Hfirst : exists mrs,
             shr_fexp prec emax (Zpos mz) ez loc_Exact = (mrs, t) /\
             let m1 := round_nearest_even (shr_m mrs) (loc_of_shr_record mrs) in
             0 <= m1 <= 2 ^ 53 /\ (t = ez -> m1 = Zpos mz) /\
             - 2 ^ (t - ez) <= 2 * (m1 * 2 ^ (t - ez) - Zpos mz) <= 2 ^ (t - ez)).
  { unfold mag in Hhi. unfold shr_fexp. rewrite fexp_eq.
    cbn [Zdigits2 shr_record_of_loc]. fold d. fold t.
    destruct (t - ez) as [|k|k] eqn:Hk; [| |lia]; cbn [shr].
    - exists (Build_shr_record (Zpos mz) false false).
      change (2 ^ 0) with 1 in HT |- *. rewrite Z.mul_1_l in HT.
      assert (Hmz : Zpos mz < 2 ^ 53) by nia.
      replace t with ez by lia. split; [reflexivity|].
      cbn [shr_m loc_of_shr_record round_nearest_even].
      split; [lia|]. split; [reflexivity|]. lia.
    - pose proof (iter_pos_shifted k (Build_shr_record (Zpos mz) false false)) as Hsh.
      cbn [shr_m] in Hsh. specialize (Hsh ltac:(lia)).
      pose proof (round_nearest_even_shifted (Zpos k) (Zpos mz) _ ltac:(lia) ltac:(lia) Hsh)
        as [Hcases Hnear].
      cbv zeta in Hcases, Hnear.
      exists (iter_pos shr_1 k (Build_shr_record (Zpos mz) false false)).
      replace (ez + Zpos k) with t by lia. split; [reflexivity|]. cbv zeta.
      set (mrs := iter_pos shr_1 k (Build_shr_record (Zpos mz) false false)) in *.
      set (m1 := round_nearest_even (shr_m mrs) (loc_of_shr_record mrs)) in *.
      destruct Hsh as (Hm0 & Hq & _). cbn [shr_m] in Hq.
      assert (HK : 0 < 2 ^ Zpos k) by (apply Z.pow_pos_nonneg; lia).
      assert (Hlt : shr_m mrs < 2 ^ 53).
      { rewrite Hq. apply Z.div_lt_upper_bound; [lia|]. nia. }
      split; [lia|]. split; [lia|]. exact Hnear. }
  destruct Hfirst as (mrs & Hshr & Hm1 & Hexact & Hnear). cbv zeta in *.
  set (m1 := round_nearest_even (shr_m mrs) (loc_of_shr_record mrs)) in *.
  unfold binary_round_aux. rewrite Hshr. fold m1. clearbody m1.
  assert (HK : 0 < 2 ^ (t - ez)) by (apply Z.pow_pos_nonneg; lia).
  exists m1. split; [|split].
  - unfold rounded, nearest. unfold mag in *. rewrite HT in *.
    split; [assumption|]. split; [assumption|]. split; [nia|]. split; assumption.
  - intros Hle. rewrite Hexact by lia. unfold mag. f_equal. f_equal. lia.
  - unfold packed.
    destruct m1 as [|p|p]; [| |lia].
    + rewrite shr_fexp_exact_small by lia. reflexivity.
    + destruct (Z.ltb_spec (Zpos p) (2 ^ 53)) as [Hp|Hp].
      * rewrite shr_fexp_exact_small by lia. cbn [shr_m]. reflexivity.
      * assert (Hcarry : Zpos p = 2 ^ 53) by lia. rewrite Hcarry.
        rewrite shr_fexp_exact_carry by lia. cbn [shr_m]. reflexivity.
Qed.

Lemma digits2_pos_iter_xO (m k : positive) :
  Zpos (digits2_pos (Pos.iter xO m k)) = Zpos (digits2_pos m) + Zpos k.
Proof.
  induction k as [|k IH] using Pos.peano_ind.
  - simpl. lia.
  - rewrite Pos.iter_succ. cbn [digits2_pos]. rewrite Pos2Z.inj_succ, IH. lia.
Qed.

(** The same for [binary_round], which first aligns the mantissa. *)
Lemma binary_round_spec (s : bool) (mS : positive) (ez : Z) :
  -2148 <= ez ->
  let t := fexp prec emax (Zpos (digits2_pos mS) + ez) in
  exists m1 : Z,
    rounded (mag mS ez) t m1 /\
    (t <= ez -> m1 * 2 ^ (t + 2148) = mag mS ez) /\
    binary_round prec emax s mS ez = packed s m1 t.
Proof.
  intros Hez. cbv zeta. unfold binary_round, shl_align.
  set (t := fexp prec emax (Zpos (digits2_pos mS) + ez)).
  assert (Ht : t = Z.max (Zpos (digits2_pos mS) + ez - 53) (-1074)) by apply fexp_eq.
  destruct (t - ez) as [|k|k] eqn:Hk.
  - apply binary_round_aux_spec; [assumption|fold t; lia].
  - apply binary_round_aux_spec; [assumption|fold t; lia].
  - assert (Hd : Zpos (digits2_pos (Pos.iter xO mS k)) + t = Zpos (digits2_pos mS) + ez)
      by (rewrite digits2_pos_iter_xO; lia).
    assert (Hmag : mag (Pos.iter xO mS k) t = mag mS ez).
    { unfold mag. rewrite pos_iter_xO, <- Z.mul_assoc, <- Z.pow_add_r by lia.
      do 2 f_equal. lia. }
    destruct (binary_round_aux_spec s (Pos.iter xO mS k) t) as (m1 & Hr & Hexact & Hres).
    + lia.
    + rewrite Hd. fold t. lia.
    + rewrite Hmag, Hd in *. fold t in Hr, Hexact, Hres. exists m1.
      split; [assumption|]. split; [|assumption].
      intros _. apply Hexact. lia.
Qed.

(** *** Magnitudes and their order *)

Lemma bounded_inv (m : positive) (e : Z) :
  bounded prec emax m e = true ->
  -1074 <= e <= 971 /\ Zpos m < 2 ^ 53 /\ (-1074 < e -> 2 ^ 52 <= Zpos m).
Proof.
  unfold bounded, canonical_mantissa. rewrite fexp_eq.
  intros H. apply andb_true_iff in H. destruct H as [Hc He].
  apply Z.eqb_eq in Hc. apply Z.leb_le in He. change (emax - prec) with 971 in He.
  pose proof (digits2_pos_bounds m) as [Hlo Hhi].
  split; [lia|]. split.
  - assert (Zpos (digits2_pos m) <= 53) by lia.
    assert (2 ^ Zpos (digits2_pos m) <= 2 ^ 53) by (apply Z.pow_le_mono_r; lia). lia.
  - intros Hn. replace (Zpos (digits2_pos m)) with 53 in Hlo by lia. exact Hlo.
Qed.

(** A mantissa of exactly 53 bits is in canonical form at every exponent
    of the format. *)
Lemma bounded_normal (m : positive) (e : Z) :
  2 ^ 52 <= Zpos m < 2 ^ 53 -> -1074 <= e <= 971 -> bounded prec emax m e = true.
Proof.
  intros Hm He. unfold bounded, canonical_mantissa. rewrite fexp_eq.
  pose proof (digits2_pos_bounds m) as [Hlo Hhi].
  assert (Hd : Zpos (digits2_pos m) = 53).
  { destruct (Z_lt_le_dec (Zpos (digits2_pos m)) 53) as [Hlt|Hge].
    - assert (2 ^ Zpos (digits2_pos m) <= 2 ^ 52) by (apply Z.pow_le_mono_r; lia). lia.
    - destruct (Z_lt_le_dec 53 (Zpos (digits2_pos m))) as [Hgt|]; [|lia].
      assert (2 ^ 53 <= 2 ^ (Zpos (digits2_pos m) - 1)) by (apply Z.pow_le_mono_r; lia). lia. }
  rewrite Hd. apply andb_true_iff. split; [apply Z.eqb_eq; lia|apply Z.leb_le].
  change (emax - prec) with 971. lia.
Qed.

Lemma pow2_step (e : Z) : 0 <= e -> 2 ^ (e + 1) = 2 * 2 ^ e.
Proof. intros He. rewrite Z.pow_add_r by lia. lia. Qed.

(** Powers of two, as far as the exponents are ordered. *)
Lemma pow2_le (a b : Z) : 0 <= a <= b -> 0 < 2 ^ a <= 2 ^ b.
Proof.
  intros H. split; [apply Z.pow_pos_nonneg; lia|apply Z.pow_le_mono_r; lia].
Qed.

Lemma pow2_lt (a b : Z) : 0 <= a < b -> 2 * 2 ^ a <= 2 ^ b.
Proof.
  intros H. rewrite <- pow2_step by lia. apply Z.pow_le_mono_r; lia.
Qed.

(** A magnitude below the midpoint of the float [my * 2^ey] and its
    successor rounds to that float at most. *)
Lemma packed_le (s : bool) (V t m1 : Z) (my : positive) (ey : Z) :
  rounded V t m1 -> bounded prec emax my ey = true ->
  2 * V < 2 * mag my ey + 2 ^ (ey + 2148) ->
  mag_le (packed s m1 t) my ey.
Proof.
  intros (Ht & Hm1 & Hnear & Hhi & Hlo) Hy Hlt.
  destruct (bounded_inv _ _ Hy) as (Hey & Hmy & Hyn).
  unfold nearest in Hnear. unfold mag in Hlt.
  pose proof (pow2_le (t + 2148) (t + 2148) ltac:(lia)) as [HT _].
  pose proof (pow2_le (ey + 2148) (ey + 2148) ltac:(lia)) as [HTy _].
  assert (Htey : t <= ey).
  { destruct (Z_le_gt_dec t ey) as [|Hgt]; [assumption|exfalso].
    pose proof (pow2_lt (ey + 2148) (t + 2148) ltac:(lia)).
    specialize (Hlo ltac:(lia)). nia. }
  destruct (Z.eq_dec t ey) as [Heq|Hne].
  - subst ey. assert (Hle : m1 <= Zpos my) by nia.
    unfold packed, mag_le, lex_le. destruct m1 as [|p|p]; [exact I| |lia].
    destruct (Z.ltb_spec (Zpos p) (2 ^ 53)); [|lia].
    destruct (Z.leb_spec t 971); [|lia]. right. split; [reflexivity|assumption].
  - specialize (Hyn ltac:(lia)).
    unfold packed, mag_le, lex_le. destruct m1 as [|p|p]; [exact I| |lia].
    destruct (Z.ltb_spec (Zpos p) (2 ^ 53)).
    + destruct (Z.leb_spec t 971); [|lia]. left; lia.
    + destruct (Z.leb_spec (t + 1) 971); [|lia].
      destruct (Z.eq_dec (t + 1) ey) as [<-|]; [right|left; lia].
      split; [reflexivity|]. change (Zpos (2 ^ 52)) with (2 ^ 52). assumption.
Qed.

(** A magnitude of at least the float [my * 2^ey] rounds to that float at
    least. *)
Lemma packed_ge (s : bool) (V t m1 : Z) (my : positive) (ey : Z) :
  rounded V t m1 -> bounded prec emax my ey = true ->
  mag my ey <= V ->
  mag_ge (packed s m1 t) my ey.
Proof.
  intros (Ht & Hm1 & Hnear & Hhi & Hlo) Hy Hle.
  destruct (bounded_inv _ _ Hy) as (Hey & Hmy & Hyn).
  unfold nearest in Hnear. unfold mag in Hle.
  pose proof (pow2_le (t + 2148) (t + 2148) ltac:(lia)) as [HT _].
  pose proof (pow2_le (ey + 2148) (ey + 2148) ltac:(lia)) as [HTy _].
  assert (Htey : ey <= t).
  { destruct (Z_le_gt_dec ey t) as [|Hgt]; [assumption|exfalso].
    pose proof (pow2_lt (t + 2148) (ey + 2148) ltac:(lia)).
    specialize (Hyn ltac:(lia)). nia. }
  assert (Hge : (ey = t -> Zpos my <= m1) /\ (ey < t -> 2 ^ 52 <= m1)).
  { destruct (Z.eq_dec t ey) as [Heq|Hne].
    - subst ey. split; [intros _; nia|lia].
    - specialize (Hlo ltac:(lia)).
      assert (2 ^ 52 <= m1); [|lia].
      destruct (Z_lt_le_dec m1 (2 ^ 52)) as [Hlt|]; [exfalso|assumption].
      assert ((m1 + 1) * 2 ^ (t + 2148) <= 2 ^ 52 * 2 ^ (t + 2148))
        by (apply Z.mul_le_mono_nonneg_r; lia).
      lia. }
  destruct Hge as [Hge Hgt].
  unfold packed, mag_ge, lex_le. destruct m1 as [|p|p]; [lia| |lia].
  destruct (Z.ltb_spec (Zpos p) (2 ^ 53)).
  - destruct (Z.leb_spec t 971); [|exact I].
    destruct (Z.eq_dec ey t) as [Heq|]; [right|left; lia]. split; auto.
  - destruct (Z.leb_spec (t + 1) 971); [|exact I]. left; lia.
Qed.


(** Rounding is monotone: from below, *)
Lemma binary_round_ge (s : bool) (mS : positive) (ez : Z) (my : positive) (ey : Z) :
  -2148 <= ez -> bounded prec emax my ey = true ->
  mag my ey <= mag mS ez ->
  mag_ge (binary_round prec emax s mS ez) my ey.
Proof.
  intros Hez Hy Hle.
  destruct (binary_round_spec s mS ez Hez) as (m1 & Hr & _ & ->).
  eapply packed_ge; eassumption.
Qed.

(** and from above. *)
Lemma binary_round_le (s : bool) (mS : positive) (ez : Z) (my : positive) (ey : Z) :
  -2148 <= ez -> bounded prec emax my ey = true ->
  mag mS ez <= mag my ey ->
  mag_le (binary_round prec emax s mS ez) my ey.
Proof.
  intros Hez Hy Hle.
  destruct (bounded_inv _ _ Hy) as (Hey & _).
  destruct (binary_round_spec s mS ez Hez) as (m1 & Hr & _ & ->).
  eapply packed_le; [eassumption|assumption|].
  pose proof (pow2_le (ey + 2148) (ey + 2148) ltac:(lia)). lia.
Qed.

(** A magnitude of at least [2^-1074] does not round to zero. *)
Lemma binary_round_sign (s : bool) (mS : positive) (ez : Z) :
  -1074 <= ez ->
  (exists m e, binary_round prec emax s mS ez = S754_finite s m e) \/
  binary_round prec emax s mS ez = S754_infinity s.
Proof.
  intros Hez.
  assert (Hy : bounded prec emax 1 (-1074) = true) by reflexivity.
  pose proof (binary_round_ge s mS ez 1 (-1074) ltac:(lia) Hy) as Hge.
  assert (Hle : mag 1 (-1074) <= mag mS ez).
  { unfold mag. pose proof (pow2_le (-1074 + 2148) (ez + 2148) ltac:(lia)). nia. }
  specialize (Hge Hle).
  destruct (binary_round_spec s mS ez ltac:(lia)) as (m1 & _ & _ & Hres).
  rewrite Hres in *. unfold packed in *.
  destruct m1 as [|p|p]; try contradiction.
  destruct (_ <? _); destruct (_ <=? _); eauto.
Qed.

(** *** Comparison *)

Lemma SFleb_pos (m1 : positive) (e1 : Z) (m2 : positive) (e2 : Z) :
  lex_le m1 e1 m2 e2 ->
  SFleb (S754_finite false m1 e1) (S754_finite false m2 e2) = true.
Proof.
  unfold SFleb, SFcompare. intros [Hlt|[-> Hle]].
  - apply Z.compare_lt_iff in Hlt. rewrite Hlt. reflexivity.
  - rewrite Z.compare_refl. fold (Pos.compare m1 m2).
    destruct (Pos.compare_spec m1 m2); try reflexivity. lia.
Qed.

Lemma SFleb_neg (m1 : positive) (e1 : Z) (m2 : positive) (e2 : Z) :
  lex_le m2 e2 m1 e1 ->
  SFleb (S754_finite true m1 e1) (S754_finite true m2 e2) = true.
Proof.
  unfold SFleb, SFcompare. intros [Hlt|[-> Hle]].
  - apply Z.compare_gt_iff in Hlt. rewrite Hlt. reflexivity.
  - rewrite Z.compare_refl. fold (Pos.compare m1 m2).
    destruct (Pos.compare_spec m1 m2); try reflexivity. lia.
Qed.

Lemma SFleb_refl_finite (s : bool) (m : positive) (e : Z) :
  SFleb (S754_finite s m e) (S754_finite s m e) = true.
Proof.
  destruct s; [apply SFleb_neg|apply SFleb_pos]; right; split; lia.
Qed.

Lemma shl_align_mag (m : positive) (e ez : Z) :
  -2148 <= ez <= e -> mag (fst (shl_align m e ez)) ez = mag m e.
Proof.
  intros He. unfold shl_align, mag.
  destruct (ez - e) as [|k|k] eqn:Hk; cbn [fst]; try lia.
  - replace ez with e by lia. reflexivity.
  - rewrite pos_iter_xO, <- Z.mul_assoc, <- Z.pow_add_r by lia.
    do 2 f_equal. lia.
Qed.


(** Adding a non-negative number does not decrease a finite one. *)
Lemma SFadd_ge (x h : spec_float) :
  valid_binary x = true -> valid_binary h = true ->
  sf_finite x = true -> sf_nonneg h = true ->
  SFleb x (SFadd prec emax x h) = true.
Proof.
  intros Hx Hh Hfx Hnh.
  destruct x as [sx| | |sx mx ex]; try discriminate;
    destruct h as [sh|[|]| |[|] mh eh]; try discriminate;
    try (destruct sx; reflexivity); try (destruct sx, sh; reflexivity);
    try apply SFleb_refl_finite.
  cbn [valid_binary] in Hx, Hh.
  destruct (bounded_inv _ _ Hx) as (Hex & _).
  destruct (bounded_inv _ _ Hh) as (Heh & _).
  unfold SFadd.
  set (ez := Z.min ex eh).
  assert (Hez : -1074 <= ez) by (unfold ez; lia).
  assert (Hez' : -2148 <= ez) by lia.
  pose proof (shl_align_mag mx ex ez ltac:(unfold ez; lia)) as HMx.
  pose proof (shl_align_mag mh eh ez ltac:(unfold ez; lia)) as HMh.
  set (Mx := fst (shl_align mx ex ez)) in *.
  set (Mh := fst (shl_align mh eh ez)) in *.
  assert (HE : 0 < 2 ^ (ez + 2148)) by (apply Z.pow_pos_nonneg; lia).
  destruct sx; cbn [cond_Zopp].
  - destruct (- Zpos Mx + Zpos Mh) as [|p|p] eqn:HS; cbn [binary_normalize].
    + reflexivity.
    + destruct (binary_round_sign false p ez Hez) as [(m & e & Hr)|Hr];
        rewrite Hr; reflexivity.
    + (* a negative number moves towards zero *)
      pose proof (binary_round_le true p ez mx ex Hez' Hx) as Hle.
      assert (Hmag : mag p ez <= mag mx ex).
      { rewrite <- HMx. unfold mag. nia. }
      specialize (Hle Hmag).
      destruct (binary_round_sign true p ez Hez) as [(m & e & Hr)|Hr];
        rewrite Hr in *; [|contradiction].
      apply SFleb_neg. exact Hle.
  - change (Zpos Mx + Zpos Mh) with (Zpos (Mx + Mh)). cbn [binary_normalize].
    pose proof (binary_round_ge false (Mx + Mh) ez mx ex Hez' Hx) as Hge.
    assert (Hle : mag mx ex <= mag (Mx + Mh) ez).
    { rewrite <- HMx. unfold mag. rewrite Pos2Z.inj_add. nia. }
    specialize (Hge Hle).
    destruct (binary_round_sign false (Mx + Mh) ez Hez) as [(m & e & Hr)|Hr];
      rewrite Hr in *; [|reflexivity].
    apply SFleb_pos. exact Hge.
Qed.

(** *** Values and the order of floats *)

Lemma mag_pos (m : positive) (e : Z) : -2148 <= e -> 0 < mag m e.
Proof.
  intros He. unfold mag. pose proof (pow2_le (e + 2148) (e + 2148) ltac:(lia)). nia.
Qed.

(** On canonical forms the order by exponent and mantissa is the order of
    the magnitudes. *)
Lemma lex_lt_mag (m1 : positive) (e1 : Z) (m2 : positive) (e2 : Z) :
  bounded prec emax m1 e1 = true -> bounded prec emax m2 e2 = true ->
  e1 < e2 -> mag m1 e1 < mag m2 e2.
Proof.
  intros H1 H2 Hlt.
  destruct (bounded_inv _ _ H1) as (He1 & Hm1 & _).
  destruct (bounded_inv _ _ H2) as (He2 & _ & Hn2). specialize (Hn2 ltac:(lia)).
  unfold mag.
  pose proof (pow2_le (e1 + 2148) (e1 + 2148) ltac:(lia)) as [HT1 _].
  pose proof (pow2_lt (e1 + 2148) (e2 + 2148) ltac:(lia)) as HT2.
  nia.
Qed.

Lemma lex_le_mag (m1 : positive) (e1 : Z) (m2 : positive) (e2 : Z) :
  bounded prec emax m1 e1 = true -> bounded prec emax m2 e2 = true ->
  (lex_le m1 e1 m2 e2 <-> mag m1 e1 <= mag m2 e2).
Proof.
  intros H1 H2.
  destruct (bounded_inv _ _ H1) as (He1 & _).
  pose proof (pow2_le (e1 + 2148) (e1 + 2148) ltac:(lia)) as [HT1 _].
  split.
  - intros [Hlt|[<- Hle]].
    + pose proof (lex_lt_mag _ _ _ _ H1 H2 Hlt). lia.
    + unfold mag. nia.
  - intros Hle. unfold lex_le.
    destruct (Z.lt_trichotomy e1 e2) as [Hlt|[Heq|Hgt]]; [left; assumption| |].
    + right. split; [assumption|]. subst e2. unfold mag in Hle. nia.
    + pose proof (lex_lt_mag _ _ _ _ H2 H1 Hgt). lia.
Qed.

Lemma SFleb_pos_iff (m1 : positive) (e1 : Z) (m2 : positive) (e2 : Z) :
  SFleb (S754_finite false m1 e1) (S754_finite false m2 e2) = true <-> lex_le m1 e1 m2 e2.
Proof.
  split; [|apply SFleb_pos].
  unfold SFleb, SFcompare, lex_le. fold (Pos.compare m1 m2).
  destruct (Z.compare_spec e1 e2) as [He|He|He]; try discriminate; [|left; assumption].
  destruct (Pos.compare_spec m1 m2) as [Hm|Hm|Hm]; try discriminate; right; split; lia.
Qed.

Lemma SFleb_neg_iff (m1 : positive) (e1 : Z) (m2 : positive) (e2 : Z) :
  SFleb (S754_finite true m1 e1) (S754_finite true m2 e2) = true <-> lex_le m2 e2 m1 e1.
Proof.
  split; [|apply SFleb_neg].
  unfold SFleb, SFcompare, lex_le. fold (Pos.compare m1 m2).
  destruct (Z.compare_spec e1 e2) as [He|He|He]; try discriminate; [|left; assumption].
  destruct (Pos.compare_spec m1 m2) as [Hm|Hm|Hm]; try discriminate; right; split; lia.
Qed.

(** On zeros and finite numbers, [<=] is the order of the values. *)
Lemma SFleb_val (x y : spec_float) :
  valid_binary x = true -> valid_binary y = true ->
  sf_finite x = true -> sf_finite y = true ->
  (SFleb x y = true <-> val x <= val y).
Proof.
  intros Hx Hy Hfx Hfy.
  destruct x as [sx| | |sx mx ex]; try discriminate;
    destruct y as [sy| | |sy my ey]; try discriminate;
    cbn [valid_binary val] in *.
  - split; [lia|reflexivity].
  - destruct (bounded_inv _ _ Hy) as (Hey & _).
    pose proof (mag_pos my ey ltac:(lia)).
    destruct sy; cbn [cond_Zopp]; split; try discriminate; try reflexivity; lia.
  - destruct (bounded_inv _ _ Hx) as (Hex & _).
    pose proof (mag_pos mx ex ltac:(lia)).
    destruct sx; cbn [cond_Zopp]; split; try discriminate; try reflexivity; lia.
  - destruct (bounded_inv _ _ Hx) as (Hex & _).
    destruct (bounded_inv _ _ Hy) as (Hey & _).
    pose proof (mag_pos mx ex ltac:(lia)). pose proof (mag_pos my ey ltac:(lia)).
    destruct sx, sy; cbn [cond_Zopp].
    + rewrite SFleb_neg_iff, (lex_le_mag _ _ _ _ Hy Hx). lia.
    + split; [lia|reflexivity].
    + split; [discriminate|lia].
    + rewrite SFleb_pos_iff, (lex_le_mag _ _ _ _ Hx Hy). lia.
Qed.

(** The value of a rounded result that did not overflow. *)
Lemma val_packed (s : bool) (m t : Z) :
  0 <= m <= 2 ^ 53 -> -2148 <= t -> sf_finite (packed s m t) = true ->
  val (packed s m t) = cond_Zopp s (m * 2 ^ (t + 2148)).
Proof.
  intros Hm Ht. unfold packed.
  destruct m as [|p|p]; [destruct s; reflexivity| |lia].
  destruct (Z.ltb_spec (Zpos p) (2 ^ 53)) as [Hlt|Hge].
  - destruct (t <=? 971); [reflexivity|discriminate].
  - destruct (t + 1 <=? 971); [|discriminate]. intros _.
    cbn [val]. unfold mag.
    replace (t + 1 + 2148) with (t + 2148 + 1) by lia. rewrite pow2_step by lia.
    change (Zpos (2 ^ 52)) with (2 ^ 52).
    replace (Zpos p) with (2 ^ 53) by lia. f_equal. lia.
Qed.

(** *** Sums against a bound *)

Lemma binary_normalize_le (S ez : Z) (z : spec_float) :
  -1074 <= ez -> valid_binary z = true -> sf_finite z = true ->
  S * 2 ^ (ez + 2148) <= val z ->
  SFleb (binary_normalize prec emax S ez false) z = true.
Proof.
  intros Hez Hz Hfz Hle.
  pose proof (pow2_le (ez + 2148) (ez + 2148) ltac:(lia)) as [HE _].
  destruct S as [|p|p]; cbn [binary_normalize].
  - apply SFleb_val; auto.
  - fold (mag p ez) in Hle. pose proof (mag_pos p ez ltac:(lia)) as Hp.
    destruct z as [sz| | |[|] mz ezz]; try discriminate; cbn [val cond_Zopp] in Hle.
    + lia.
    + cbn [valid_binary] in Hz. destruct (bounded_inv _ _ Hz) as (Hezz & _).
      pose proof (mag_pos mz ezz ltac:(lia)). lia.
    + cbn [valid_binary] in Hz.
      pose proof (binary_round_le false p ez mz ezz ltac:(lia) Hz Hle) as Hr.
      destruct (binary_round_sign false p ez Hez) as [(m & e & Hres)|Hres];
        rewrite Hres in *; [|contradiction].
      apply SFleb_pos. exact Hr.
  - destruct (binary_round_sign true p ez Hez) as [(m & e & Hres)|Hres].
    + destruct z as [sz| | |[|] mz ezz]; try discriminate;
        try (rewrite Hres; reflexivity).
      cbn [valid_binary] in Hz. cbn [val cond_Zopp] in Hle.
      pose proof (binary_round_ge true p ez mz ezz ltac:(lia) Hz) as Hr.
      assert (Hmag : mag mz ezz <= mag p ez).
      { unfold mag at 2. change (Zneg p) with (- Zpos p) in Hle. lia. }
      specialize (Hr Hmag). rewrite Hres in *.
      apply SFleb_neg. exact Hr.
    + rewrite Hres. destruct z as [sz| | |[|] mz ezz]; try discriminate; reflexivity.
Qed.

(** The value of the integer that [+] and [-] hand to
    [binary_normalize]. *)
Lemma aligned_val (s : bool) (m : positive) (e ez : Z) :
  -2148 <= ez <= e ->
  cond_Zopp s (Zpos (fst (shl_align m e ez))) * 2 ^ (ez + 2148)
    = val (S754_finite s m e).
Proof.
  intros He. pose proof (shl_align_mag m e ez He) as H. unfold mag in H.
  cbn [val]. unfold mag. destruct s; cbn [cond_Zopp]; lia.
Qed.

(** A sum whose exact value is at most the value of [z] is at most [z]
    after rounding. *)
Lemma SFadd_le (x y z : spec_float) :
  valid_binary x = true -> valid_binary y = true -> valid_binary z = true ->
  sf_finite x = true -> sf_finite y = true -> sf_finite z = true ->
  val x + val y <= val z ->
  SFleb (SFadd prec emax x y) z = true.
Proof.
  intros Hx Hy Hz Hfx Hfy Hfz Hle.
  destruct x as [sx| | |sx mx ex]; try discriminate;
    destruct y as [sy| | |sy my ey]; try discriminate.
  - assert (Hzero : forall s, SFleb (S754_zero s) z = true)
      by (intros s; apply SFleb_val; auto).
    cbn [SFadd]. destruct sx, sy; apply Hzero.
  - cbn [SFadd]. apply SFleb_val; auto.
  - cbn [SFadd]. apply SFleb_val; auto. cbn [val] in *. lia.
  - cbn [valid_binary] in Hx, Hy.
    destruct (bounded_inv _ _ Hx) as (Hex & _).
    destruct (bounded_inv _ _ Hy) as (Hey & _).
    unfold SFadd. apply binary_normalize_le; [lia|assumption|assumption|].
    rewrite Z.mul_add_distr_r, !aligned_val by lia. exact Hle.
Qed.

(** *** Fractions of a difference *)

(** A positive float is its own bound. *)
Lemma shrinks_self (m : positive) (e : Z) (D : Z) :
  bounded prec emax m e = true -> mag m e <= D ->
  shrinks (S754_finite false m e) D.
Proof.
  intros Hb Hle. destruct (bounded_inv _ _ Hb) as (He & _).
  pose proof (mag_pos m e ltac:(lia)).
  pose proof (pow2_le (e + 2148) (e + 2148) ltac:(lia)) as [HT _].
  exists m, e. split; [assumption|]. split; [assumption|]. lia.
Qed.

Lemma packed_finite_inv (s : bool) (m t : Z) (s' : bool) (m' : positive) (e' : Z) :
  0 <= m <= 2 ^ 53 -> -2148 <= t ->
  packed s m t = S754_finite s' m' e' ->
  s' = s /\ mag m' e' = m * 2 ^ (t + 2148) /\ t <= 971.
Proof.
  intros Hm Ht Hp.
  pose proof (val_packed s m t Hm Ht) as Hv. rewrite Hp in Hv.
  specialize (Hv eq_refl). cbn [val] in Hv.
  unfold packed in Hp. destruct m as [|p|p]; [discriminate| |lia].
  destruct (Z.ltb_spec (Zpos p) (2 ^ 53));
    [destruct (Z.leb_spec t 971)|destruct (Z.leb_spec (t + 1) 971)];
    try discriminate; injection Hp as <- <- <-;
    (split; [reflexivity|]); (split; [|lia]);
    destruct s; cbn [cond_Zopp] in Hv; lia.
Qed.

(** The difference of two ordered floats, rounded, is zero or positive,
    and its proper fractions round to at most the exact difference. *)
Lemma SFsub_shrinks (b a : spec_float) :
  valid_binary a = true -> valid_binary b = true ->
  sf_finite a = true -> sf_finite b = true ->
  val a <= val b ->
  valid_binary (SFsub prec emax b a) = true ->
  sf_finite (SFsub prec emax b a) = true ->
  shrinks (SFsub prec emax b a) (val b - val a).
Proof.
  intros Ha Hb Hfa Hfb Hle Hd Hfd.
  destruct b as [sb| | |sb mb eb]; try discriminate;
    destruct a as [sa| | |sa ma ea]; try discriminate.
  - cbn [SFsub]. destruct sb, sa; exact I.
  - cbn [SFsub valid_binary val] in *.
    destruct (bounded_inv _ _ Ha) as (Hea & _).
    pose proof (mag_pos ma ea ltac:(lia)).
    destruct sa; cbn [cond_Zopp negb] in *; [|lia].
    apply shrinks_self; [assumption|lia].
  - cbn [SFsub valid_binary val] in *.
    destruct (bounded_inv _ _ Hb) as (Heb & _).
    pose proof (mag_pos mb eb ltac:(lia)).
    destruct sb; cbn [cond_Zopp] in *; [lia|].
    apply shrinks_self; [assumption|lia].
  - pose proof Ha as Ha'. pose proof Hb as Hb'. cbn [valid_binary] in Ha', Hb'.
    destruct (bounded_inv _ _ Ha') as (Hea & _).
    destruct (bounded_inv _ _ Hb') as (Heb & _).
    unfold SFsub in *.
    set (ez := Z.min eb ea) in *.
    assert (Hez : -1074 <= ez) by (unfold ez; lia).
    pose proof (aligned_val sb mb eb ez ltac:(unfold ez; lia)) as HMb.
    pose proof (aligned_val sa ma ea ez ltac:(unfold ez; lia)) as HMa.
    set (Mb := cond_Zopp sb (Zpos (fst (shl_align mb eb ez)))) in *.
    set (Ma := cond_Zopp sa (Zpos (fst (shl_align ma ea ez)))) in *.
    rewrite <- HMa, <- HMb in *. rewrite <- Z.mul_sub_distr_r.
    clearbody Mb Ma.
    pose proof (pow2_le (ez + 2148) (ez + 2148) ltac:(lia)) as [HE _].
    destruct (Mb - Ma) as [|p|p] eqn:HS; cbn [binary_normalize] in *; [exact I| |nia].
    fold (mag p ez).
    destruct (binary_round_spec false p ez ltac:(lia)) as (m1 & Hr & Hexact & Hres).
    set (t := fexp prec emax (Zpos (digits2_pos p) + ez)) in *. clearbody t.
    rewrite Hres in *.
    destruct Hr as (Ht & Hm1 & Hnear & Hhi & Hlo). unfold nearest in Hnear.
    pose proof (pow2_le (t + 2148) (t + 2148) ltac:(lia)) as [HT _].
    destruct (packed false m1 t) as [s0| | |s0 md ed] eqn:Hp; try discriminate; [exact I|].
    assert (Ht' : -2148 <= t) by lia.
    destruct (packed_finite_inv _ _ _ _ _ _ Hm1 Ht' Hp) as (-> & Hmag & Ht971).
    destruct (Z_le_gt_dec (m1 * 2 ^ (t + 2148)) (mag p ez)) as [Hdown|Hup].
    + apply shrinks_self; [assumption|lia].
    + assert (Htez : ez < t).
      { destruct (Z_lt_le_dec ez t) as [|Hge]; [assumption|]. specialize (Hexact Hge). lia. }
      specialize (Hlo ltac:(lia)).
      assert (Hm1' : 2 ^ 52 < m1).
      { destruct (Z_lt_le_dec (2 ^ 52) m1) as [|Hge]; [assumption|exfalso].
        assert (m1 * 2 ^ (t + 2148) <= 2 ^ 52 * 2 ^ (t + 2148))
          by (apply Z.mul_le_mono_nonneg_r; lia).
        lia. }
      exists (Z.to_pos (m1 - 1)), t.
      assert (Hpos : Zpos (Z.to_pos (m1 - 1)) = m1 - 1) by (apply Z2Pos.id; lia).
      assert (HY : mag (Z.to_pos (m1 - 1)) t = (m1 - 1) * 2 ^ (t + 2148))
        by (unfold mag; rewrite Hpos; reflexivity).
      split; [apply bounded_normal; lia|].
      rewrite HY, Hmag. split; [lia|].
      assert (2 ^ 53 * 2 ^ (t + 2148) < 2 * m1 * 2 ^ (t + 2148))
        by (apply Z.mul_lt_mono_pos_r; lia).
      lia.
Qed.

Lemma SFltb_pos (m1 : positive) (e1 : Z) (m2 : positive) (e2 : Z) :
  SFltb (S754_finite false m1 e1) (S754_finite false m2 e2) = true ->
  e1 < e2 \/ (e1 = e2 /\ Zpos m1 < Zpos m2).
Proof.
  unfold SFltb, SFcompare. fold (Pos.compare m1 m2).
  destruct (Z.compare_spec e1 e2) as [He|He|He]; try discriminate; [|left; assumption].
  destruct (Pos.compare_spec m1 m2) as [Hm|Hm|Hm]; try discriminate.
  right. split; [assumption|lia].
Qed.

(** A positive float below one has an exponent of at most [-53]. *)
Lemma below_one (mr : positive) (er : Z) :
  bounded prec emax mr er = true ->
  SFltb (S754_finite false mr er) (S754_finite false 4503599627370496 (-52)) = true ->
  er <= -53.
Proof.
  intros Hb Hlt. destruct (bounded_inv _ _ Hb) as (Her & Hmr & Hn).
  apply SFltb_pos in Hlt. destruct Hlt as [Hlt|[He Hm]]; [lia|].
  specialize (Hn ltac:(lia)). change (2 ^ 52) with (Zpos 4503599627370496) in Hn. lia.
Qed.

(** The product of two canonical mantissas sits at or below the exponent
    [fexp] assigns to it. *)
Lemma product_exponent (mx : positive) (ex : Z) (my : positive) (ey : Z) :
  bounded prec emax mx ex = true -> bounded prec emax my ey = true ->
  ex + ey <= fexp prec emax (Zpos (digits2_pos (mx * my)) + (ex + ey)).
Proof.
  intros Hx Hy. rewrite fexp_eq.
  destruct (bounded_inv _ _ Hx) as (Hex & Hmx & Hnx).
  destruct (bounded_inv _ _ Hy) as (Hey & Hmy & Hny).
  destruct (Z_le_gt_dec (ex + ey) (-1074)) as [|Hgt]; [lia|].
  assert (Hprod : 2 ^ 52 <= Zpos (mx * my)).
  { rewrite Pos2Z.inj_mul.
    destruct (Z_le_gt_dec ex (-1074)) as [Hsub|Hnorm].
    - specialize (Hny ltac:(lia)). nia.
    - specialize (Hnx ltac:(lia)). nia. }
  pose proof (digits2_pos_bounds (mx * my)) as [_ Hhi].
  assert (Hd : 53 <= Zpos (digits2_pos (mx * my))).
  { destruct (Z_le_gt_dec 53 (Zpos (digits2_pos (mx * my)))) as [|Hlt]; [assumption|exfalso].
    assert (2 ^ Zpos (digits2_pos (mx * my)) <= 2 ^ 52) by (apply Z.pow_le_mono_r; lia).
    lia. }
  lia.
Qed.

(** A proper fraction of [d] is finite, not negative, and at most the
    bound that [shrinks] names. *)
Lemma SFmul_shrinks (r d : spec_float) (D : Z) :
  valid_binary r = true -> valid_binary d = true ->
  SFleb (S754_zero false) r = true ->
  SFltb r (S754_finite false 4503599627370496 (-52)) = true ->
  shrinks d D -> 0 <= D ->
  valid_binary (SFmul prec emax r d) = true ->
  sf_finite (SFmul prec emax r d) = true /\
  sf_nonneg (SFmul prec emax r d) = true /\
  val (SFmul prec emax r d) <= D.
Proof.
  intros Hr Hd H0 H1 Hsh HD Hq.
  destruct r as [sr|[|]| |[|] mr er]; try discriminate;
    destruct d as [sd| | |[|] md ed]; try contradiction;
    try (cbn [SFmul val]; repeat split; assumption).
  destruct Hsh as (my & ey & Hy & HYD & Hhalf).
  pose proof Hr as Hr'. pose proof Hd as Hd'. cbn [valid_binary] in Hr', Hd'.
  destruct (bounded_inv _ _ Hr') as (Her & Hmr & _).
  destruct (bounded_inv _ _ Hd') as (Hed & _).
  destruct (bounded_inv _ _ Hy) as (Hey & _).
  pose proof (below_one mr er Hr' H1) as Hone.
  cbn [SFmul xorb] in *.
  assert (Hez : -2148 <= er + ed) by lia.
  destruct (binary_round_aux_spec false (mr * md) (er + ed) Hez
              (product_exponent _ _ _ _ Hr' Hd')) as (m1 & Hround & _ & Hres).
  set (t := fexp prec emax (Zpos (digits2_pos (mr * md)) + (er + ed))) in *. clearbody t.
  rewrite Hres in *.
  assert (Hlt : 2 * mag (mr * md) (er + ed) < 2 * mag my ey + 2 ^ (ey + 2148)).
  { assert (HV : mag (mr * md) (er + ed) * 2 ^ 53 <= (2 ^ 53 - 1) * mag md ed).
    { unfold mag. rewrite Pos2Z.inj_mul.
      pose proof (pow2_le (er + ed + 2148) (er + ed + 2148) ltac:(lia)) as [HE _].
      pose proof (pow2_le (er + ed + 2148 + 53) (ed + 2148) ltac:(lia)) as [_ HE'].
      rewrite (Z.pow_add_r 2 (er + ed + 2148) 53) in HE' by lia.
      set (E := 2 ^ (er + ed + 2148)) in *. set (Td := 2 ^ (ed + 2148)) in *.
      clearbody E Td.
      apply Z.le_trans with (Zpos mr * Zpos md * Td).
      - rewrite <- !Z.mul_assoc. apply Z.mul_le_mono_nonneg_l; [lia|].
        apply Z.mul_le_mono_nonneg_l; lia.
      - apply Z.le_trans with ((2 ^ 53 - 1) * Zpos md * Td); [|lia].
        apply Z.mul_le_mono_nonneg_r; [lia|]. apply Z.mul_le_mono_nonneg_r; lia. }
    lia. }
  pose proof (packed_le false _ _ _ _ _ Hround Hy Hlt) as Hle.
  destruct (packed false m1 t) as [s0| | |s0 mq eq] eqn:Hp; try contradiction.
  - cbn [val]. repeat split; lia.
  - destruct Hround as (Ht & Hm1 & _).
    assert (Ht' : -2148 <= t) by lia.
    destruct (packed_finite_inv _ _ _ _ _ _ Hm1 Ht' Hp) as (-> & _ & _).
    cbn [valid_binary mag_le val cond_Zopp] in *.
    apply (lex_le_mag _ _ _ _ Hq Hy) in Hle.
    repeat split; lia.
Qed.

(** [a + r * (b - a)] for [a <= b] and [0 <= r < 1], every operation
    rounded: the result is between [a] and [b]. *)
Lemma SF_affine_within (a b r : spec_float) :
  valid_binary a = true -> valid_binary b = true -> valid_binary r = true ->
  sf_finite a = true -> sf_finite b = true ->
  SFleb a b = true ->
  SFleb (S754_zero false) r = true -> SFltb r (S754_finite false 4503599627370496 (-52)) = true ->
  valid_binary (SFsub prec emax b a) = true ->
  sf_finite (SFsub prec emax b a) = true ->
  valid_binary (SFmul prec emax r (SFsub prec emax b a)) = true ->
  let x := SFadd prec emax a (SFmul prec emax r (SFsub prec emax b a)) in
  SFleb a x = true /\ SFleb x b = true.
Proof.
  intros Ha Hb Hr Hfa Hfb Hab H0 H1 Hd Hfd Hq. cbv zeta.
  apply (SFleb_val a b Ha Hb Hfa Hfb) in Hab.
  pose proof (SFsub_shrinks b a Ha Hb Hfa Hfb Hab Hd Hfd) as Hsh.
  destruct (SFmul_shrinks r _ _ Hr Hd H0 H1 Hsh ltac:(lia) Hq) as (Hfq & Hnq & Hvq).
  split.
  - apply SFadd_ge; assumption.
  - apply SFadd_le; try assumption. lia.
Qed.

(** *** The error of a rounded sum *)

(** Rounding to nearest moves a magnitude by at most [2^-53] of the
    result. *)
Lemma rounded_error (V t m1 ez : Z) :
  rounded V t m1 -> (t <= ez -> m1 * 2 ^ (t + 2148) = V) -> -1074 <= ez ->
  2 ^ 53 * Z.abs (m1 * 2 ^ (t + 2148) - V) <= m1 * 2 ^ (t + 2148).
Proof.
  intros (Ht & Hm1 & Hnear & _ & Hlo) Hexact Hez. unfold nearest in Hnear.
  pose proof (pow2_le (t + 2148) (t + 2148) ltac:(lia)) as [HT _].
  set (T := 2 ^ (t + 2148)) in *. clearbody T.
  destruct (Z_le_gt_dec t ez) as [Hle|Hgt].
  - rewrite (Hexact Hle), Z.sub_diag. cbn [Z.abs]. rewrite <- (Hexact Hle). nia.
  - specialize (Hlo ltac:(lia)).
    assert (Hm : 2 ^ 52 <= m1).
    { destruct (Z_lt_le_dec m1 (2 ^ 52)) as [Hlt|]; [exfalso|assumption].
      assert ((m1 + 1) * T <= 2 ^ 52 * T) by (apply Z.mul_le_mono_nonneg_r; lia).
      lia. }
    assert (2 ^ 52 * T <= m1 * T) by (apply Z.mul_le_mono_nonneg_r; lia).
    lia.
Qed.

(** The same for the result of [binary_normalize], with its sign. *)
Lemma binary_normalize_error (S ez : Z) :
  -1074 <= ez ->
  sf_finite (binary_normalize prec emax S ez false) = true ->
  2 ^ 53 * Z.abs (val (binary_normalize prec emax S ez false) - S * 2 ^ (ez + 2148))
    <= Z.abs (val (binary_normalize prec emax S ez false)).
Proof.
  intros Hez Hfin.
  destruct S as [|p|p]; cbn [binary_normalize] in *; [cbn [val]; lia| |].
  - destruct (binary_round_spec false p ez ltac:(lia)) as (m1 & Hr & Hexact & Hres).
    set (t := fexp prec emax _) in *. clearbody t. rewrite Hres in *.
    pose proof (rounded_error _ _ _ _ Hr Hexact Hez) as Herr.
    destruct Hr as (Ht & Hm1 & _). assert (Ht' : -2148 <= t) by lia.
    rewrite (val_packed _ _ _ Hm1 Ht' Hfin). cbn [cond_Zopp]. unfold mag in Herr.
    pose proof (pow2_le (t + 2148) (t + 2148) ltac:(lia)) as [HT _].
    assert (0 <= m1 * 2 ^ (t + 2148)) by (apply Z.mul_nonneg_nonneg; lia). lia.
  - destruct (binary_round_spec true p ez ltac:(lia)) as (m1 & Hr & Hexact & Hres).
    set (t := fexp prec emax _) in *. clearbody t. rewrite Hres in *.
    pose proof (rounded_error _ _ _ _ Hr Hexact Hez) as Herr.
    destruct Hr as (Ht & Hm1 & _). assert (Ht' : -2148 <= t) by lia.
    rewrite (val_packed _ _ _ Hm1 Ht' Hfin). cbn [cond_Zopp]. unfold mag in Herr.
    pose proof (pow2_le (t + 2148) (t + 2148) ltac:(lia)) as [HT _].
    assert (0 <= m1 * 2 ^ (t + 2148)) by (apply Z.mul_nonneg_nonneg; lia).
    change (Zneg p) with (- Zpos p). lia.
Qed.

(** A finite sum differs from the exact sum by at most [2^-53] of
    itself, *)
Lemma SFadd_error (x y : spec_float) :
  valid_binary x = true -> valid_binary y = true ->
  sf_finite x = true -> sf_finite y = true ->
  sf_finite (SFadd prec emax x y) = true ->
  2 ^ 53 * Z.abs (val (SFadd prec emax x y) - (val x + val y))
    <= Z.abs (val (SFadd prec emax x y)).
Proof.
  intros Hx Hy Hfx Hfy Hfin.
  destruct x as [sx| | |sx mx ex]; try discriminate;
    destruct y as [sy| | |sy my ey]; try discriminate.
  - cbn [SFadd]. destruct sx, sy; cbn [val]; lia.
  - cbn [SFadd]. cbn [val]. lia.
  - cbn [SFadd]. cbn [val]. lia.
  - cbn [valid_binary] in Hx, Hy.
    destruct (bounded_inv _ _ Hx) as (Hex & _).
    destruct (bounded_inv _ _ Hy) as (Hey & _).
    unfold SFadd in *.
    rewrite <- (aligned_val sx mx ex (Z.min ex ey)), <- (aligned_val sy my ey (Z.min ex ey)) by lia.
    rewrite <- Z.mul_add_distr_r.
    apply binary_normalize_error; [lia|assumption].
Qed.

(** and so does a finite difference. *)
Lemma SFsub_error (x y : spec_float) :
  valid_binary x = true -> valid_binary y = true ->
  sf_finite x = true -> sf_finite y = true ->
  sf_finite (SFsub prec emax x y) = true ->
  2 ^ 53 * Z.abs (val (SFsub prec emax x y) - (val x - val y))
    <= Z.abs (val (SFsub prec emax x y)).
Proof.
  intros Hx Hy Hfx Hfy Hfin.
  destruct x as [sx| | |sx mx ex]; try discriminate;
    destruct y as [sy| | |sy my ey]; try discriminate.
  - cbn [SFsub]. destruct sx, sy; cbn [val]; lia.
  - cbn [SFsub]. cbn [val]. destruct sy; cbn [negb cond_Zopp]; lia.
  - cbn [SFsub]. cbn [val]. lia.
  - cbn [valid_binary] in Hx, Hy.
    destruct (bounded_inv _ _ Hx) as (Hex & _).
    destruct (bounded_inv _ _ Hy) as (Hey & _).
    unfold SFsub in *.
    rewrite <- (aligned_val sx mx ex (Z.min ex ey)), <- (aligned_val sy my ey (Z.min ex ey)) by lia.
    rewrite <- Z.mul_sub_distr_r.
    apply binary_normalize_error; [lia|assumption].
Qed.

(** *** The sign of a rounded quotient *)

Lemma shr_nonneg (mrs : shr_record) (e n : Z) :
  0 <= shr_m mrs -> 0 <= shr_m (fst (shr mrs e n)).
Proof.
  intros Hm. destruct n as [|p|p]; cbn [shr fst]; try assumption.
  apply (iter_pos_shifted p mrs Hm).
Qed.

Lemma shr_record_of_loc_m (m : Z) (l : location) : shr_m (shr_record_of_loc m l) = m.
Proof. destruct l as [|[| |]]; reflexivity. Qed.

(** Rounding a non-negative mantissa gives a non-negative float. *)
Lemma binary_round_aux_sign (m e : Z) (l : location) :
  0 <= m ->
  sf_nonneg (binary_round_aux prec emax false m e l) = true.
Proof.
  intros Hm. unfold binary_round_aux, shr_fexp.
  pose proof (shr_nonneg (shr_record_of_loc m l) e
                (fexp prec emax (Zdigits2 m + e) - e)) as H1.
  rewrite shr_record_of_loc_m in H1. specialize (H1 Hm).
  destruct (shr (shr_record_of_loc m l) e _) as [mrs' e']. cbn [fst] in H1.
  set (m1 := round_nearest_even (shr_m mrs') (loc_of_shr_record mrs')).
  assert (Hm1 : 0 <= m1).
  { pose proof (round_nearest_even_cases mrs') as Hc. cbv zeta in Hc. fold m1 in Hc.
    destruct Hc as [->|[-> _]]; lia. }
  pose proof (shr_nonneg (shr_record_of_loc m1 loc_Exact) e'
                (fexp prec emax (Zdigits2 m1 + e') - e')) as H2.
  rewrite shr_record_of_loc_m in H2. specialize (H2 Hm1).
  destruct (shr (shr_record_of_loc m1 loc_Exact) e' _) as [mrs'' e'']. cbn [fst] in H2.
  destruct (shr_m mrs'') as [|p|p]; [reflexivity| |lia].
  destruct (e'' <=? emax - prec); reflexivity.
Qed.

Lemma SFdiv_core_binary_nonneg (m1 : positive) (e1 : Z) (m2 : positive) (e2 : Z) :
  0 <= fst (fst (SFdiv_core_binary prec emax (Zpos m1) e1 (Zpos m2) e2)).
Proof.
  unfold SFdiv_core_binary.
  set (sh := _ - _ - Z.min _ _).
  set (m' := match sh with Zpos _ => Z.shiftl (Zpos m1) sh | Z0 => Zpos m1 | Zneg _ => 0 end).
  assert (Hm' : 0 <= m').
  { unfold m'. destruct sh; try lia. apply Z.shiftl_nonneg. lia. }
  pose proof (Z_div_mod m' (Zpos m2) ltac:(lia)) as Hdm.
  destruct (Z.div_eucl m' (Zpos m2)) as [q r]. cbn [fst]. nia.
Qed.


(** *** Primitive floats *)




(** [a + r * (b - a)] for finite [a <= b] and a draw [0 <= r < 1] is
    between [a] and [b], every operation rounded. *)
Lemma affine_within (a b r : float) :
  sf_finite (Prim2SF a) = true -> sf_finite (Prim2SF b) = true ->
  (a <=? b)%float = true ->
  sf_finite (Prim2SF (b - a)%float) = true ->
  (0 <=? r)%float = true -> (r <? 1)%float = true ->
  (a <=? a + r * (b - a))%float = true /\ (a + r * (b - a) <=? b)%float = true.
Proof.
  intros Hfa Hfb Hab Hfd H0 H1.
  rewrite !leb_spec, ltb_spec in *.
  pose proof (Prim2SF_valid (r * (b - a))%float) as Hq.
  pose proof (Prim2SF_valid (b - a)%float) as Hd.
  rewrite add_spec, mul_spec, sub_spec in *.
  apply SF_affine_within; auto using Prim2SF_valid.
Qed.

(** *** The replayed generator *)

(** [float(n)] for [0 <= n < 2^53] is the number [n]. *)
Lemma of_Z_exact (n : Z) :
  0 <= n < 2 ^ 53 ->
  Prim2SF (Float.of_Z n) = S754_zero false \/
  exists m e, Prim2SF (Float.of_Z n) = S754_finite false m e /\
              mag m e = n * 2 ^ (0 + 2148).
Proof.
  intros Hn. destruct n as [|p|p]; [left; reflexivity| |lia]. right.
  unfold Float.of_Z. rewrite of_uint63_spec, Uint63.of_Z_spec.
  rewrite Z.mod_small by (change Uint63Axioms.wB with (2 ^ 63); lia).
  cbn [binary_normalize].
  destruct (binary_round_spec false p 0 ltac:(lia)) as (m1 & Hr & Hexact & ->).
  set (t := fexp prec emax (Zpos (digits2_pos p) + 0)) in *. clearbody t.
  destruct Hr as (Ht & Hm1 & _ & _ & Hlo).
  unfold mag at 1 in Hlo. unfold mag at 1 in Hexact.
  pose proof (pow2_le (0 + 2148) (0 + 2148) ltac:(lia)) as [HU _].
  assert (Hstep : 0 < t -> 2 * 2 ^ (0 + 2148) <= 2 ^ (t + 2148))
    by (intros Hgt; apply pow2_lt; lia).
  remember (2 ^ (0 + 2148)) as U eqn:HeqU. clear HeqU.
  assert (Ht0 : t <= 0).
  { destruct (Z_le_gt_dec t 0) as [|Hgt]; [assumption|exfalso].
    specialize (Hlo ltac:(lia)). specialize (Hstep ltac:(lia)). nia. }
  specialize (Hexact Ht0).
  pose proof (pow2_le (t + 2148) (t + 2148) ltac:(lia)) as [HT _].
  assert (Ht' : -2148 <= t) by lia.
  destruct (packed false m1 t) as [s0|s0| |s0 m e] eqn:Hp.
  - unfold packed in Hp. destruct m1 as [|q|q]; [|destruct (_ <? _); destruct (_ <=? _)|];
      try discriminate.
    exfalso. nia.
  - unfold packed in Hp. destruct m1 as [|q|q]; try discriminate.
    destruct (Z.ltb_spec (Zpos q) (2 ^ 53));
      [destruct (Z.leb_spec t 971)|destruct (Z.leb_spec (t + 1) 971)];
      try discriminate; lia.
  - unfold packed in Hp. destruct m1 as [|q|q]; [discriminate| |lia].
    destruct (_ <? _); destruct (_ <=? _); discriminate.
  - destruct (packed_finite_inv _ _ _ _ _ _ Hm1 Ht' Hp) as (-> & Hmag & _).
    exists m, e. split; [reflexivity|]. rewrite Hmag. exact Hexact.
Qed.

Lemma SFleb_zero_nonneg (r : spec_float) :
  sf_nonneg r = true -> SFleb (S754_zero false) r = true.
Proof. destruct r as [s|[|]| |[|] m e]; try discriminate; reflexivity. Qed.

(** Scaling the next 53 bits by [2^-53] gives a number in [0, 1). *)
Lemma tape_random_unit (s : Tape.rng) :
  (0 <=? fst (Tape.random s))%float = true /\
  (fst (Tape.random s) <? 1)%float = true.
Proof.
  destruct s as [|k s]; [split; reflexivity|]. cbn [Tape.random fst].
  pose proof (Z.mod_pos_bound k (2 ^ 53) ltac:(lia)) as Hn.
  set (n := k mod 2 ^ 53) in *. clearbody n.
  rewrite leb_spec, ltb_spec, mul_spec.
  pose proof (Prim2SF_valid (Float.of_Z n)) as Hvalid.
  change (Prim2SF 0) with (S754_zero false).
  change (Prim2SF 1) with (S754_finite false 4503599627370496 (-52)).
  change (Prim2SF 0x1p-53) with (S754_finite false 4503599627370496 (-105)).
  destruct (of_Z_exact n Hn) as [->|(m & e & Hx & Hmag)]; [split; reflexivity|].
  rewrite Hx in *. cbn [valid_binary] in Hvalid. unfold SF64mul. cbn [SFmul xorb].
  destruct (bounded_inv _ _ Hvalid) as (He & _).
  split.
  - apply SFleb_zero_nonneg, binary_round_aux_sign. lia.
  - assert (Hc : bounded prec emax 4503599627370496 (-105) = true) by reflexivity.
    assert (Hy : bounded prec emax 9007199254740991 (-53) = true) by reflexivity.
    assert (Hez : -2148 <= e + -105) by lia.
    destruct (binary_round_aux_spec false (m * 4503599627370496) (e + -105) Hez
                (product_exponent _ _ _ _ Hvalid Hc)) as (m1 & Hround & _ & ->).
    set (t := fexp prec emax _) in *. clearbody t.
    assert (Hlt : 2 * mag (m * 4503599627370496) (e + -105)
                  < 2 * mag 9007199254740991 (-53) + 2 ^ (-53 + 2148)).
    { unfold mag in *. rewrite Pos2Z.inj_mul.
      change (Zpos 4503599627370496) with (2 ^ 52).
      change (Zpos 9007199254740991) with (2 ^ 53 - 1).
      assert (HU : 2 ^ (0 + 2148) = 2 ^ 53 * 2 ^ (-53 + 2148))
        by (rewrite <- Z.pow_add_r by lia; f_equal).
      assert (HE : 2 ^ (e + 2148) = 2 ^ 105 * 2 ^ (e + -105 + 2148))
        by (rewrite <- Z.pow_add_r by lia; f_equal; lia).
      pose proof (pow2_le (-53 + 2148) (-53 + 2148) ltac:(lia)) as [HA _].
      pose proof (pow2_le (e + -105 + 2148) (e + -105 + 2148) ltac:(lia)) as [HE0 _].
      rewrite HU, HE in Hmag.
      set (A := 2 ^ (-53 + 2148)) in *. set (E := 2 ^ (e + -105 + 2148)) in *.
      clearbody A E. clear HU HE.
      change (2 ^ 105) with (2 ^ 53 * 2 ^ 52) in Hmag.
      assert (HV : Zpos m * 2 ^ 52 * E = n * A) by nia.
      rewrite HV. nia. }
    pose proof (packed_le false _ _ _ _ _ Hround Hy Hlt) as Hle.
    destruct Hround as (Ht & Hm1 & _). assert (Ht' : -2148 <= t) by lia.
    destruct (packed false m1 t) as [s0|s0| |s0 mq eq] eqn:Hp; try contradiction;
      [reflexivity|].
    destruct (packed_finite_inv _ _ _ _ _ _ Hm1 Ht' Hp) as (-> & _ & _).
    cbn [mag_le] in Hle. unfold SFltb, SFcompare.
    destruct (Z.compare_spec eq (-52)) as [Heq|Heq|Heq]; [|reflexivity|];
      destruct Hle as [Hlt'|[Heq' _]]; lia.
Qed.

(** *** Equality and order of floats *)

Lemma SFeqb_same (x y : spec_float) : SFeqb x y = true <-> sf_same x y.
Proof.
  unfold SFeqb.
  destruct x as [s1|s1| |s1 m1 e1], y as [s2|s2| |s2 m2 e2]; simpl;
    try (split; [discriminate|contradiction]); try tauto;
    try (destruct s1; split; try discriminate; contradiction);
    try (destruct s2; split; try discriminate; contradiction).
  - destruct s1, s2; split; intros H; try reflexivity; discriminate.
  - change (PosDef.Pos.compare_cont Eq m1 m2) with (Pos.compare m1 m2).
    destruct s1, s2; try (split; [discriminate|intros (H & _); discriminate]);
      destruct (Z.compare_spec e1 e2) as [He|He|He];
      try (split; [discriminate|intros (_ & _ & H); lia]);
      destruct (Pos.compare_spec m1 m2) as [Hm|Hm|Hm]; simpl;
      try (split; [discriminate|intros (_ & H & _); lia]);
      subst; tauto.
Qed.


Lemma sf_same_sym (a b : spec_float) : sf_same a b -> sf_same b a.
Proof.
  destruct a, b; simpl; try tauto; try congruence.
  intros (-> & -> & ->). auto.
Qed.



End Rounding.

(** ** Sequences *)

Section Sequences.

Context {E A B : Type}.

Lemma mapM_inr_Forall2 (f : A -> E + B) (l : list A) (l' : list B) :
  Err.mapM f l = inr l' <-> Forall2 (fun a b => f a = inr b) l l'.
Proof.
  revert l'; induction l as [|a l IH]; intros l'; simpl.
  - split.
    + intros H; injection H as <-; constructor.
    + intros H; inversion H; reflexivity.
  - destruct (f a) as [e|b] eqn:Hfa.
    + split; [discriminate|].
      intros H; inversion H; subst; congruence.
    + destruct (Err.mapM f l) as [e|bs] eqn:Hl.
      * split; [discriminate|].
        intros H; inversion H as [|x y xs ys Hxy Hrest]; subst.
        apply IH in Hrest; discriminate.
      * split.
        -- intros H; injection H as <-. constructor; [assumption|].
           apply IH; reflexivity.
        -- intros H; inversion H as [|x y xs ys Hxy Hrest]; subst.
           apply IH in Hrest. congruence.
Qed.

Lemma mapM_cons (f : A -> E + B) (a : A) (l : list A) (b : B) (bs : list B) :
  f a = inr b -> Err.mapM f l = inr bs -> Err.mapM f (a :: l) = inr (b :: bs).
Proof. intros Ha Hl; simpl; rewrite Ha, Hl; reflexivity. Qed.

Lemma mapM_inl (f : A -> E + B) (l : list A) (e : E) :
  Err.mapM f l = inl e -> exists a, In a l /\ f a = inl e.
Proof.
  induction l as [|a l IH]; simpl; [discriminate|].
  destruct (f a) as [e'|b] eqn:Hfa.
  - intros H; injection H as <-. exists a; auto.
  - destruct (Err.mapM f l) as [e'|bs]; [|discriminate].
    intros H; injection H as <-.
    destruct (IH eq_refl) as (a' & Hin & Ha'). exists a'; auto.
Qed.

Lemma mapM_In (f : A -> E + B) (l : list A) (l' : list B) (b : B) :
  Err.mapM f l = inr l' -> In b l' -> exists a, In a l /\ f a = inr b.
Proof.
  intros H; apply mapM_inr_Forall2 in H.
  induction H as [|x y xs ys Hxy _ IH]; simpl; [tauto|].
  intros [<-|Hin]; [eauto|].
  destruct (IH Hin) as (a & Ha & Hfa). eauto.
Qed.

Lemma mapM_total (f : A -> E + B) (l : list A) :
  Forall (fun a => exists b, f a = inr b) l -> exists l', Err.mapM f l = inr l'.
Proof.
  induction 1 as [|a l (b & Hb) _ (bs & Hbs)]; simpl.
  - eexists; reflexivity.
  - rewrite Hb, Hbs. eexists; reflexivity.
Qed.

Lemma mapM_length (f : A -> E + B) (l : list A) (l' : list B) :
  Err.mapM f l = inr l' -> List.length l' = List.length l.
Proof.
  intros H; apply mapM_inr_Forall2 in H.
  symmetry; eapply Forall2_length; eassumption.
Qed.

Lemma mapM_nth_error (f : A -> E + B) (l : list A) (l' : list B) i a :
  Err.mapM f l = inr l' -> nth_error l i = Some a ->
  exists b, nth_error l' i = Some b /\ f a = inr b.
Proof.
  intros H; apply mapM_inr_Forall2 in H.
  revert i; induction H as [|x y xs ys Hxy _ IH]; intros [|i]; simpl; try discriminate.
  - intros Ha; injection Ha as <-. eauto.
  - apply IH.
Qed.

Lemma mapi_from_length (f : nat -> A -> B) (l : list A) k :
  List.length (mapi_from k f l) = List.length l.
Proof. revert k; induction l; intros k; simpl; auto. Qed.

Lemma mapi_from_nth_error (f : nat -> A -> B) (l : list A) k i :
  nth_error (mapi_from k f l) i = option_map (f (k + i)%nat) (nth_error l i).
Proof.
  revert k i; induction l as [|a l IH]; intros k [|i]; simpl; try reflexivity.
  - now rewrite Nat.add_0_r.
  - rewrite IH. now rewrite Nat.add_succ_r.
Qed.

End Sequences.

(** ** Column assignment *)

Lemma add_columns_length (df : list Sample.row) (rings : list Shapely.polygon) :
  List.length (add_columns df rings) = List.length rings.
Proof.
  unfold add_columns, set_column.
  now rewrite !mapi_from_length, length_map.
Qed.

Lemma add_columns_nth_error (df : list Sample.row) (rings : list Shapely.polygon) i ring :
  nth_error rings i = Some ring ->
  nth_error (add_columns df rings) i =
    Some (Grid.mk ring
            (option_map Sample.n_seagrass_plants (nth_error df i))
            (option_map Sample.cell (nth_error df i))
            (option_map Sample.method (nth_error df i))).
Proof.
  intros Hring. unfold add_columns, set_column.
  rewrite !mapi_from_nth_error, !nth_error_map, Hring. simpl.
  reflexivity.
Qed.

(** ** Results that are not NaN *)

Section NotNaN.

Import Float.

Lemma binary_round_aux_opp (s : bool) (m e : Z) (l : location) :
  binary_round_aux prec emax (negb s) m e l = SFopp (binary_round_aux prec emax s m e l).
Proof.
  unfold binary_round_aux.
  destruct (shr_fexp prec emax m e l) as [mrs' e'].
  destruct (shr_fexp prec emax _ e' loc_Exact) as [mrs'' e''].
  destruct (shr_m mrs'') as [|p|p]; try reflexivity.
  destruct (e'' <=? emax - prec); reflexivity.
Qed.

Lemma binary_round_aux_not_nan (s : bool) (m e : Z) (l : location) :
  0 <= m -> binary_round_aux prec emax s m e l <> S754_nan.
Proof.
  intros Hm. pose proof (binary_round_aux_sign m e l Hm) as Hs.
  destruct s.
  - change true with (negb false). rewrite binary_round_aux_opp.
    destruct (binary_round_aux prec emax false m e l); discriminate.
  - destruct (binary_round_aux prec emax false m e l); discriminate.
Qed.

Lemma binary_round_not_nan (s : bool) (m : positive) (e : Z) :
  binary_round prec emax s m e <> S754_nan.
Proof.
  unfold binary_round. destruct (shl_align m e _) as [mz ez].
  apply binary_round_aux_not_nan. lia.
Qed.

Lemma binary_normalize_not_nan (z e : Z) :
  binary_normalize prec emax z e false <> S754_nan.
Proof.
  destruct z; cbn [binary_normalize]; [discriminate| |]; apply binary_round_not_nan.
Qed.

(** A finite number plus or minus anything but a NaN is not a NaN. *)
Lemma SFadd_not_nan (x h : spec_float) :
  sf_finite x = true -> h <> S754_nan -> SFadd prec emax x h <> S754_nan.
Proof.
  destruct x as [sx| | |sx mx ex]; try discriminate;
    destruct h as [sh|sh| |sh mh eh]; intros _ Hh; try contradiction; cbn [SFadd];
    try discriminate.
  - destruct sx, sh; discriminate.
  - apply binary_normalize_not_nan.
Qed.

Lemma SFsub_not_nan (x h : spec_float) :
  sf_finite x = true -> h <> S754_nan -> SFsub prec emax x h <> S754_nan.
Proof.
  destruct x as [sx| | |sx mx ex]; try discriminate;
    destruct h as [sh|sh| |sh mh eh]; intros _ Hh; try contradiction; cbn [SFsub];
    try discriminate.
  - destruct sx, sh; discriminate.
  - apply binary_normalize_not_nan.
Qed.

Lemma SFdiv_two_not_nan (g : spec_float) :
  g <> S754_nan ->
  SFdiv prec emax g (S754_finite false 4503599627370496 (-51)) <> S754_nan.
Proof.
  destruct g as [s|s| |s m e]; intros Hg; try contradiction; try discriminate.
  unfold SFdiv.
  pose proof (SFdiv_core_binary_nonneg m e 4503599627370496 (-51)) as Hq.
  destruct (SFdiv_core_binary _ _ _ _ _ _) as [[mz ez] lz]. cbn [fst] in Hq.
  apply binary_round_aux_not_nan. assumption.
Qed.

(** [x == x] fails for a NaN and for nothing else. *)
Lemma eqb_refl_nan (x : float) : (x =? x)%float = true <-> Prim2SF x <> S754_nan.
Proof.
  rewrite eqb_spec. split.
  - intros H Hn. rewrite Hn in H. discriminate.
  - intros Hn. apply SFeqb_same. destruct (Prim2SF x); simpl; auto.
Qed.

Lemma eqb_nan (x : float) : (x =? x)%float = false <-> Prim2SF x = S754_nan.
Proof.
  pose proof (eqb_refl_nan x) as H.
  destruct (x =? x)%float; split; try discriminate; try reflexivity.
  - intros Hn. exfalso. apply (proj1 H eq_refl Hn).
  - intros _. destruct (Prim2SF x); try reflexivity; exfalso;
      assert (false = true) by (apply H; discriminate); discriminate.
Qed.

Lemma eqb_sym (a b : float) : (a =? b)%float = (b =? a)%float.
Proof.
  rewrite !eqb_spec.
  destruct (SFeqb (Prim2SF a) (Prim2SF b)) eqn:Hab, (SFeqb (Prim2SF b) (Prim2SF a)) eqn:Hba;
    try reflexivity.
  - apply SFeqb_same, sf_same_sym, SFeqb_same in Hab. congruence.
  - apply SFeqb_same, sf_same_sym, SFeqb_same in Hba. congruence.
Qed.

(** A NaN equals nothing. *)
Lemma eqb_nan_l (a b : float) : (a =? a)%float = false -> (a =? b)%float = false.
Proof.
  intros Ha. apply eqb_nan in Ha. rewrite eqb_spec, Ha. reflexivity.
Qed.

Lemma eqb_true_not_nan (a b : float) :
  (a =? b)%float = true -> (a =? a)%float = true /\ (b =? b)%float = true.
Proof.
  intros Hab. split.
  - destruct (a =? a)%float eqn:Ha; [reflexivity|].
    rewrite (eqb_nan_l _ b Ha) in Hab. discriminate.
  - destruct (b =? b)%float eqn:Hb; [reflexivity|].
    rewrite eqb_sym, (eqb_nan_l _ a Hb) in Hab. discriminate.
Qed.

Lemma finite_not_nan (x : float) : is_finite x = true -> (x =? x)%float = true.
Proof.
  unfold is_finite. intros Hx. apply eqb_refl_nan. intros Hn. rewrite Hn in Hx. discriminate.
Qed.

Lemma leb_not_nan (a b : float) :
  (a <=? b)%float = true -> (a =? a)%float = true /\ (b =? b)%float = true.
Proof.
  rewrite leb_spec. intros H.
  split; apply eqb_refl_nan; intros Hn; rewrite Hn in H;
    [|destruct (Prim2SF a)]; discriminate.
Qed.

Lemma half_not_nan (g : float) : (g =? g)%float = true -> (g / 2 =? g / 2)%float = true.
Proof.
  rewrite !eqb_refl_nan, div_spec.
  change (Prim2SF 2) with (S754_finite false 4503599627370496 (-51)).
  apply SFdiv_two_not_nan.
Qed.

Lemma add_not_nan (x h : float) :
  is_finite x = true -> (h =? h)%float = true -> (x + h =? x + h)%float = true.
Proof.
  unfold is_finite. rewrite !eqb_refl_nan, add_spec. apply SFadd_not_nan.
Qed.

Lemma sub_not_nan (x h : float) :
  is_finite x = true -> (h =? h)%float = true -> (x - h =? x - h)%float = true.
Proof.
  unfold is_finite. rewrite !eqb_refl_nan, sub_spec. apply SFsub_not_nan.
Qed.

End NotNaN.

(** ** Boxes *)

Section Boxes.

Import Shapely.

(** The three ways a call of [box] can end. *)
Lemma box_cases (minx miny maxx maxy : float) :
  (same_point (maxx, miny) (minx, miny) = true /\
   box minx miny maxx maxy
     = inr [ (maxx, miny); (maxx, maxy); (minx, maxy); (minx, miny) ]) \/
  (same_point (maxx, miny) (minx, miny) = false /\
   same_point (maxx, miny) (maxx, miny) = true /\
   box minx miny maxx maxy
     = inr [ (maxx, miny); (maxx, maxy); (minx, maxy); (minx, miny); (maxx, miny) ]) \/
  (same_point (maxx, miny) (minx, miny) = false /\
   same_point (maxx, miny) (maxx, miny) = false /\
   box minx miny maxx maxy = inl GEOSException).
Proof.
  unfold box.
  destruct (same_point (maxx, miny) (minx, miny)); [left; auto|].
  destruct (same_point (maxx, miny) (maxx, miny)); [right; left; auto|right; right; auto].
Qed.

(** [box] raises exactly when its first corner holds a NaN. *)
Lemma box_raises (minx miny maxx maxy : float) (e : error) :
  box minx miny maxx maxy = inl e <->
  (maxx =? maxx)%float = false \/ (miny =? miny)%float = false.
Proof.
  destruct (box_cases minx miny maxx maxy) as [(H1 & ->)|[(H1 & H2 & ->)|(H1 & H2 & ->)]];
    unfold same_point in *; cbn [fst snd] in *.
  - split; [discriminate|]. apply andb_true_iff in H1. destruct H1 as [Hx Hy].
    apply eqb_true_not_nan in Hx, Hy. intros [H|H]; [destruct Hx|destruct Hy]; congruence.
  - split; [discriminate|]. apply andb_true_iff in H2. intros [H|H]; destruct H2; congruence.
  - split; [|destruct e; reflexivity]. intros _.
    apply andb_false_iff in H2. exact H2.
Qed.

(** A box that is wider than nothing has a ring of five coordinates. *)
Lemma box_wide (minx miny maxx maxy : float) :
  (maxx =? minx)%float = false ->
  (maxx =? maxx)%float = true -> (miny =? miny)%float = true ->
  box minx miny maxx maxy
    = inr [ (maxx, miny); (maxx, maxy); (minx, maxy); (minx, miny); (maxx, miny) ].
Proof.
  intros H1 H2 H3. unfold box, same_point. cbn [fst snd]. rewrite H1, H2, H3. reflexivity.
Qed.

(** A box without width has a ring of four coordinates. *)
Lemma box_collapsed (minx miny maxx maxy : float) :
  (maxx =? minx)%float = true -> (miny =? miny)%float = true ->
  box minx miny maxx maxy
    = inr [ (maxx, miny); (maxx, maxy); (minx, maxy); (minx, miny) ].
Proof.
  intros H1 H2. unfold box, same_point. cbn [fst snd]. rewrite H1, H2. reflexivity.
Qed.

(** The ring of a box: its four corners, and the first one again unless
    the box has no width. *)
Lemma box_ring (minx miny maxx maxy : float) (ring : polygon) :
  box minx miny maxx maxy = inr ring ->
  (miny =? miny)%float = true /\ (maxx =? maxx)%float = true /\
  (((maxx =? minx)%float = true /\
    ring = [ (maxx, miny); (maxx, maxy); (minx, maxy); (minx, miny) ]) \/
   ((maxx =? minx)%float = false /\
    ring = [ (maxx, miny); (maxx, maxy); (minx, maxy); (minx, miny); (maxx, miny) ])).
Proof.
  destruct (box_cases minx miny maxx maxy) as [(H1 & ->)|[(H1 & H2 & ->)|(H1 & H2 & ->)]];
    unfold same_point in *; cbn [fst snd] in *; intros H; [| |discriminate];
    injection H as <-.
  - apply andb_true_iff in H1. destruct H1 as [Hx Hy].
    split; [assumption|]. split; [apply (eqb_true_not_nan _ _ Hx)|]. left. auto.
  - apply andb_true_iff in H2. destruct H2 as [Hx Hy].
    rewrite Hy, andb_true_r in H1. auto.
Qed.

End Boxes.

(** ** The grid builder, step by step *)

Section GridBuilderFacts.

Import Shapely.

Variable exn : Type.
Variable transformer : Z -> Z -> exn + (coord -> exn + coord).

Lemma create_grid_df_steps (df : list Sample.row) (utm : Z) (grid_size : float) :
  create_grid_df transformer df utm grid_size =
    match transformer 4326 utm with
    | inl e => inl (Projection e)
    | inr fwd =>
        match Err.mapM (project_row fwd) (combine df (points df)) with
        | inl e => inl (Projection e)
        | inr rs =>
            match Err.mapM (fun rp => grid_box grid_size (snd rp)) rs with
            | inl e => inl (Geometry e)
            | inr boxes =>
                match transformer utm 4326 with
                | inl e => inl (Projection e)
                | inr bwd =>
                    match Err.mapM (Err.mapM bwd) boxes with
                    | inl e => inl (Projection e)
                    | inr rings => inr (mkGDF utm rs, mkGDF 4326 (add_columns df rings))
                    end
                end
            end
        end
    end.
Proof.
  unfold create_grid_df, to_crs_points, to_crs_polygons, seagrass, grid_geometries,
    Err.bind, Err.ret, Err.lift; cbn [crs rows].
  destruct (transformer 4326 utm) as [e|fwd]; [reflexivity|].
  destruct (Err.mapM (project_row fwd) (combine df (points df))) as [e|rs]; [reflexivity|].
  cbn [crs rows].
  destruct (Err.mapM (fun rp => grid_box grid_size (snd rp)) rs) as [e|boxes]; [reflexivity|].
  cbn [crs rows].
  destruct (transformer utm 4326) as [e|bwd]; [reflexivity|].
  unfold polygon in *. change (fun ring : list coord => Err.mapM bwd ring) with (Err.mapM bwd).
  destruct (Err.mapM (Err.mapM bwd) boxes) as [e|rings]; reflexivity.
Qed.

Lemma seagrass_nth_error (df : list Sample.row) i :
  nth_error (combine df (points df)) i =
    option_map (fun row => (row, Point (Sample.longitude row) (Sample.latitude row)))
      (nth_error df i).
Proof.
  unfold points. revert i; induction df as [|row df IH]; intros [|i]; simpl; auto.
Qed.

Lemma seagrass_In (df : list Sample.row) (rp : Sample.row * coord) :
  In rp (combine df (points df)) ->
  In (fst rp) df /\
  snd rp = Point (Sample.longitude (fst rp)) (Sample.latitude (fst rp)).
Proof.
  intros Hin. destruct (In_nth_error _ _ Hin) as (i & Hi).
  rewrite seagrass_nth_error in Hi.
  destruct (nth_error df i) as [row|] eqn:Hrow; [|discriminate].
  injection Hi as <-. split; [|reflexivity].
  eapply nth_error_In; eassumption.
Qed.

Lemma accepts_ring (bwd : coord -> exn + coord) (ring : list coord) :
  Forall (accepts bwd) ring <-> exists ring', Err.mapM bwd ring = inr ring'.
Proof.
  split.
  - apply mapM_total.
  - intros (ring' & H). apply mapM_inr_Forall2 in H.
    induction H; constructor; auto. eexists; eassumption.
Qed.

(** When the three passes go through, row [i] of each intermediate frame
    comes from record [i]. *)
Lemma passes_nth_error (fwd bwd : coord -> exn + coord) grid_size df rs
    (boxes rings : list (list coord)) i record :
  Err.mapM (project_row fwd) (combine df (points df)) = inr rs ->
  Err.mapM (fun rp => grid_box grid_size (snd rp)) rs = inr boxes ->
  Err.mapM (Err.mapM bwd) boxes = inr rings ->
  nth_error df i = Some record ->
  exists p planar ring,
    nth_error rs i = Some (record, p) /\
    fwd (Point (Sample.longitude record) (Sample.latitude record)) = inr p /\
    nth_error boxes i = Some planar /\
    grid_box grid_size p = inr planar /\
    nth_error rings i = Some ring /\
    Err.mapM bwd planar = inr ring.
Proof.
  intros Hrs Hboxes Hrings Hi.
  assert (Hs : nth_error (combine df (points df)) i
               = Some (record, Point (Sample.longitude record) (Sample.latitude record)))
    by (rewrite seagrass_nth_error, Hi; reflexivity).
  destruct (mapM_nth_error _ _ _ _ _ Hrs Hs) as ([r p] & Hrp & Hproj).
  unfold project_row, Err.bind, Err.ret in Hproj; simpl in Hproj.
  destruct (fwd _) as [e|q] eqn:Hfwd; [discriminate|].
  injection Hproj as <- <-.
  destruct (mapM_nth_error _ _ _ _ _ Hboxes Hrp) as (planar & Hplanar & Hbox).
  destruct (mapM_nth_error _ _ _ _ _ Hrings Hplanar) as (ring & Hring & Hbwd).
  exists q, planar, ring; auto 10.
Qed.

Lemma passes_length (fwd bwd : coord -> exn + coord) grid_size df rs
    (boxes rings : list (list coord)) :
  Err.mapM (project_row fwd) (combine df (points df)) = inr rs ->
  Err.mapM (fun rp => grid_box grid_size (snd rp)) rs = inr boxes ->
  Err.mapM (Err.mapM bwd) boxes = inr rings ->
  List.length rs = List.length df /\ List.length (add_columns df rings) = List.length df.
Proof.
  intros Hrs Hboxes Hrings.
  pose proof (mapM_length _ _ _ Hrings) as H1.
  pose proof (mapM_length _ _ _ Hboxes) as H0.
  pose proof (mapM_length _ _ _ Hrs) as H2.
  rewrite length_combine in H2. unfold points in H2.
  rewrite length_map, Nat.min_id in H2.
  pose proof (add_columns_length df rings) as H3.
  unfold polygon in *. split; congruence.
Qed.

(** The three passes go through exactly when every record is accepted. *)
Lemma passes_total (fwd bwd : coord -> exn + coord) grid_size df :
  Forall (fun record =>
            exists p ring,
              fwd (Point (Sample.longitude record) (Sample.latitude record)) = inr p /\
              grid_box grid_size p = inr ring /\
              Forall (accepts bwd) ring) df ->
  exists rs boxes rings,
    Err.mapM (project_row fwd) (combine df (points df)) = inr rs /\
    Err.mapM (fun rp => grid_box grid_size (snd rp)) rs = inr boxes /\
    Err.mapM (Err.mapM bwd) boxes = inr rings.
Proof.
  unfold points.
  induction 1 as [|record df (p & planar & Hp & Hbox & Hring) _
                   (rs & boxes & rings & Hrs & Hboxes & Hrings)]; simpl.
  - exists [], [], []; auto.
  - apply accepts_ring in Hring. destruct Hring as (ring & Hring).
    exists ((record, p) :: rs), (planar :: boxes), (ring :: rings). split; [|split].
    + unfold project_row at 1, Err.bind, Err.ret. cbn [fst snd].
      rewrite Hp, Hrs. reflexivity.
    + apply mapM_cons; assumption.
    + apply mapM_cons; assumption.
Qed.

Lemma passes_accepted (fwd bwd : coord -> exn + coord) grid_size df rs
    (boxes rings : list (list coord)) :
  Err.mapM (project_row fwd) (combine df (points df)) = inr rs ->
  Err.mapM (fun rp => grid_box grid_size (snd rp)) rs = inr boxes ->
  Err.mapM (Err.mapM bwd) boxes = inr rings ->
  Forall (fun record =>
            exists p ring,
              fwd (Point (Sample.longitude record) (Sample.latitude record)) = inr p /\
              grid_box grid_size p = inr ring /\
              Forall (accepts bwd) ring) df.
Proof.
  intros Hrs Hboxes Hrings. apply Forall_forall. intros record Hin.
  destruct (In_nth_error _ _ Hin) as (i & Hi).
  destruct (passes_nth_error _ _ _ _ _ _ _ _ _ Hrs Hboxes Hrings Hi)
    as (p & planar & ring & _ & Hp & _ & Hbox & _ & Hring).
  exists p, planar. split; [assumption|]. split; [assumption|].
  apply accepts_ring. eauto.
Qed.

(** The builder returns when every step of the build goes through. *)
Lemma create_grid_df_returns df utm grid_size :
  reprojectable transformer df utm grid_size ->
  exists gdf grid_df,
    create_grid_df transformer df utm grid_size = inr (gdf, grid_df).
Proof.
  intros (fwd & bwd & Hfwd & Hbwd & Hall).
  destruct (passes_total _ _ _ _ Hall) as (rs & boxes & rings & Hrs & Hboxes & Hrings).
  exists (mkGDF utm rs), (mkGDF 4326 (add_columns df rings)).
  rewrite create_grid_df_steps, Hfwd, Hrs, Hboxes, Hbwd, Hrings. reflexivity.
Qed.

(** And only then. *)
Lemma create_grid_df_returned df utm grid_size out :
  create_grid_df transformer df utm grid_size = inr out ->
  reprojectable transformer df utm grid_size.
Proof.
  rewrite create_grid_df_steps.
  destruct (transformer 4326 utm) as [e|fwd] eqn:Hfwd; [discriminate|].
  destruct (Err.mapM (project_row fwd) _) as [e|rs] eqn:Hrs; [discriminate|].
  destruct (Err.mapM (fun rp => grid_box grid_size (snd rp)) rs) as [e|boxes] eqn:Hboxes;
    [discriminate|].
  destruct (transformer utm 4326) as [e|bwd] eqn:Hbwd; [discriminate|].
  destruct (Err.mapM (Err.mapM bwd) _) as [e|rings] eqn:Hrings; [discriminate|].
  intros _. exists fwd, bwd. repeat split; try assumption.
  eapply passes_accepted; eassumption.
Qed.

(** What the builder returns: two frames with one row per record, row
    [i] of either made from record [i]. *)
Lemma create_grid_df_cells df utm grid_size gdf grid_df :
  create_grid_df transformer df utm grid_size = inr (gdf, grid_df) ->
  crs gdf = utm /\ crs grid_df = 4326 /\
  List.length (rows gdf) = List.length df /\
  List.length (rows grid_df) = List.length df /\
  forall i record,
    nth_error df i = Some record ->
    exists p planar c,
      nth_error (rows gdf) i = Some (record, p) /\
      grid_box grid_size p = inr planar /\
      nth_error (rows grid_df) i = Some c /\
      Grid.n_plants c = Some (Sample.n_seagrass_plants record) /\
      Grid.cell c = Some (Sample.cell record) /\
      Grid.method c = Some (Sample.method record) /\
      built_from transformer utm grid_size record p c.
Proof.
  rewrite create_grid_df_steps.
  destruct (transformer 4326 utm) as [e|fwd] eqn:Hfwd; [discriminate|].
  destruct (Err.mapM (project_row fwd) _) as [e|rs] eqn:Hrs; [discriminate|].
  destruct (Err.mapM (fun rp => grid_box grid_size (snd rp)) rs) as [e|boxes] eqn:Hboxes;
    [discriminate|].
  destruct (transformer utm 4326) as [e|bwd] eqn:Hbwd; [discriminate|].
  destruct (Err.mapM (Err.mapM bwd) _) as [e|rings] eqn:Hrings; [discriminate|].
  intros H; injection H as <- <-. cbn [crs rows].
  destruct (passes_length _ _ _ _ _ _ _ Hrs Hboxes Hrings) as [L1 L2].
  repeat (split; [reflexivity || assumption|]).
  intros i record Hi.
  destruct (passes_nth_error _ _ _ _ _ _ _ _ _ Hrs Hboxes Hrings Hi)
    as (p & planar & ring & Hrp & Hp & _ & Hbox & Hring & Hback).
  exists p, planar. eexists. split; [assumption|]. split; [assumption|].
  split; [apply add_columns_nth_error; eassumption|].
  rewrite Hi. cbn [option_map Grid.n_plants Grid.cell Grid.method Grid.geometry].
  repeat (split; [reflexivity|]).
  exists fwd, bwd, planar. auto 10.
Qed.

(** An exception of the projection library that the builder raises was
    raised by the library. *)
Lemma create_grid_df_raised df utm grid_size e :
  create_grid_df transformer df utm grid_size = inl (Projection e) ->
  raised_by_library transformer df utm grid_size e.
Proof.
  rewrite create_grid_df_steps. unfold raised_by_library.
  destruct (transformer 4326 utm) as [e1|fwd] eqn:Hfwd.
  { intros H; injection H as <-. auto. }
  destruct (Err.mapM (project_row fwd) _) as [e1|rs] eqn:Hrs.
  { intros H; injection H as <-. right; left.
    destruct (mapM_inl _ _ _ Hrs) as ([record pt] & Hin & Hraise).
    apply seagrass_In in Hin. destruct Hin as (Hin & Hpt). simpl in Hin, Hpt.
    unfold project_row, Err.bind in Hraise. simpl in Hraise. rewrite Hpt in Hraise.
    destruct (fwd _) as [e2|q] eqn:Hq; [|discriminate].
    injection Hraise as <-. exists fwd, record. auto. }
  destruct (Err.mapM (fun rp => grid_box grid_size (snd rp)) rs) as [e1|boxes] eqn:Hboxes;
    [discriminate|].
  destruct (transformer utm 4326) as [e1|bwd] eqn:Hbwd.
  { intros H; injection H as <-. auto. }
  destruct (Err.mapM (Err.mapM bwd) _) as [e1|rings] eqn:Hrings; [|discriminate].
  intros H; injection H as <-. right; right; right.
  destruct (mapM_inl _ _ _ Hrings) as (planar & Hplanar & Hraise).
  destruct (mapM_In _ _ _ _ Hboxes Hplanar) as ([record p] & Hrp & Hbox).
  destruct (mapM_In _ _ _ _ Hrs Hrp) as ([record' pt] & Hin & Hproj).
  apply seagrass_In in Hin. destruct Hin as (Hin & Hpt). simpl in Hin, Hpt.
  unfold project_row, Err.bind, Err.ret in Hproj. simpl in Hproj. rewrite Hpt in Hproj.
  destruct (fwd _) as [e2|q] eqn:Hq; [discriminate|].
  injection Hproj as -> ->.
  destruct (mapM_inl _ _ _ Hraise) as (v & Hv & Hbv).
  exists fwd, bwd, record, p, planar, v. simpl in Hbox. auto 10.
Qed.

(** Shapely's exception is raised exactly when the points went through
    and the first corner of some record's square holds a NaN. *)
Lemma create_grid_df_refused df utm grid_size e :
  create_grid_df transformer df utm grid_size = inl (Geometry e) <->
  raised_by_shapely transformer df utm grid_size.
Proof.
  rewrite create_grid_df_steps. unfold raised_by_shapely. split.
  - destruct (transformer 4326 utm) as [e1|fwd] eqn:Hfwd; [discriminate|].
    destruct (Err.mapM (project_row fwd) _) as [e1|rs] eqn:Hrs; [discriminate|].
    destruct (Err.mapM (fun rp => grid_box grid_size (snd rp)) rs) as [e1|boxes] eqn:Hboxes.
    + intros _. exists fwd. split; [reflexivity|]. split.
      * apply Forall_forall. intros record Hin.
        destruct (In_nth_error _ _ Hin) as (i & Hi).
        assert (Hs : nth_error (combine df (points df)) i
                     = Some (record, Point (Sample.longitude record) (Sample.latitude record)))
          by (rewrite seagrass_nth_error, Hi; reflexivity).
        destruct (mapM_nth_error _ _ _ _ _ Hrs Hs) as ([r p] & _ & Hproj).
        unfold project_row, Err.bind, Err.ret in Hproj; simpl in Hproj.
        destruct (fwd _) as [e2|q] eqn:Hq; [discriminate|]. exists q. exact Hq.
      * destruct (mapM_inl _ _ _ Hboxes) as ([record [x y]] & Hrp & Hraise).
        destruct (mapM_In _ _ _ _ Hrs Hrp) as ([record' pt] & Hin & Hproj).
        apply seagrass_In in Hin. destruct Hin as (Hin & Hpt). simpl in Hin, Hpt.
        unfold project_row, Err.bind, Err.ret in Hproj. simpl in Hproj.
        rewrite Hpt in Hproj.
        destruct (fwd _) as [e2|q] eqn:Hq; [discriminate|].
        injection Hproj as -> ->.
        exists record, x, y. split; [assumption|]. split; [assumption|].
        unfold grid_box in Hraise. cbn [fst snd] in Hraise.
        apply box_raises in Hraise. exact Hraise.
    + destruct (transformer utm 4326) as [e2|bwd]; [discriminate|].
      destruct (Err.mapM (Err.mapM bwd) boxes); discriminate.
  - intros (fwd & Hfwd & Hall & record & x & y & Hin & Hp & Hnan). rewrite Hfwd.
    assert (Hrs : exists rs, Err.mapM (project_row fwd) (combine df (points df)) = inr rs).
    { clear - Hall. unfold points.
      induction Hall as [|r df (q & Hq) _ (rs & Hrs)]; simpl; [eexists; reflexivity|].
      unfold project_row at 1, Err.bind, Err.ret. cbn [fst snd]. rewrite Hq, Hrs.
      eexists; reflexivity. }
    destruct Hrs as (rs & Hrs). rewrite Hrs.
    destruct (Err.mapM (fun rp => grid_box grid_size (snd rp)) rs) as [e1|boxes] eqn:Hboxes;
      [destruct e, e1; reflexivity|exfalso].
    destruct (In_nth_error _ _ Hin) as (i & Hi).
    assert (Hs : nth_error (combine df (points df)) i
                 = Some (record, Point (Sample.longitude record) (Sample.latitude record)))
      by (rewrite seagrass_nth_error, Hi; reflexivity).
    destruct (mapM_nth_error _ _ _ _ _ Hrs Hs) as ([r p] & Hrp & Hproj).
    unfold project_row, Err.bind, Err.ret in Hproj; simpl in Hproj.
    rewrite Hp in Hproj. injection Hproj as <- <-.
    destruct (mapM_nth_error _ _ _ _ _ Hboxes Hrp) as (planar & _ & Hbox).
    unfold grid_box in Hbox. cbn [fst snd] in Hbox.
    assert (Hraise : box (x - grid_size / 2) (y - grid_size / 2)
                       (x + grid_size / 2) (y + grid_size / 2) = inl GEOSException)
      by (apply box_raises; exact Hnan).
    congruence.
Qed.

End GridBuilderFacts.

(** ** Squares *)

Section Squares.

Import Shapely.

(** When the corner computations are exact, the side of the square
    around a point measures the edge length, and the point is in its
    middle. *)
Lemma grid_box_exact_side (g x : float) :
  Float.exact_half g ->
  Float.exact_sub x (g / 2)%float -> Float.exact_add x (g / 2)%float ->
  Float.measures g (x - g / 2)%float (x + g / 2)%float x.
Proof.
  unfold Float.exact_half, Float.exact_sub, Float.exact_add, Float.measures.
  intros Hhalf Hsub Hadd.
  destruct (Float.to_Q g) as [qg|]; [|contradiction].
  destruct (Float.to_Q (g / 2)%float) as [qh|]; [|contradiction].
  destruct (Float.to_Q x) as [qx|]; [|contradiction].
  destruct (Float.to_Q (x - g / 2)%float) as [qlo|]; [|contradiction].
  destruct (Float.to_Q (x + g / 2)%float) as [qhi|]; [|contradiction].
  exists qg, qlo, qhi, qx. repeat split; try reflexivity.
  - rewrite Hadd, Hsub, <- Hhalf. ring.
  - rewrite Hadd, Hsub. ring.
Qed.




(** The backward image of a ring of five coordinates, and of one of
    four. *)
Lemma mapM_ring5 {exn : Type} (bwd : coord -> exn + coord)
    (c0 c1 c2 c3 : coord) (ring : list coord) :
  Err.mapM bwd [c0; c1; c2; c3; c0] = inr ring ->
  exists v0 v1 v2 v3,
    ring = [v0; v1; v2; v3; v0] /\
    bwd c0 = inr v0 /\ bwd c1 = inr v1 /\ bwd c2 = inr v2 /\ bwd c3 = inr v3.
Proof.
  cbn [Err.mapM].
  destruct (bwd c0) as [e|v0]; [discriminate|].
  destruct (bwd c1) as [e|v1]; [discriminate|].
  destruct (bwd c2) as [e|v2]; [discriminate|].
  destruct (bwd c3) as [e|v3]; [discriminate|].
  intros H; injection H as <-. exists v0, v1, v2, v3. auto.
Qed.

Lemma mapM_ring4 {exn : Type} (bwd : coord -> exn + coord)
    (c0 c1 c2 c3 : coord) (ring : list coord) :
  Err.mapM bwd [c0; c1; c2; c3] = inr ring ->
  exists v0 v1 v2 v3,
    ring = [v0; v1; v2; v3] /\
    bwd c0 = inr v0 /\ bwd c1 = inr v1 /\ bwd c2 = inr v2 /\ bwd c3 = inr v3.
Proof.
  cbn [Err.mapM].
  destruct (bwd c0) as [e|v0]; [discriminate|].
  destruct (bwd c1) as [e|v1]; [discriminate|].
  destruct (bwd c2) as [e|v2]; [discriminate|].
  destruct (bwd c3) as [e|v3]; [discriminate|].
  intros H; injection H as <-. exists v0, v1, v2, v3. auto.
Qed.

End Squares.
(** ** The survey behind the plate transformation *)

(** The build goes through for the two survey records with the script's
    edge length of 20 metres. *)
Lemma survey_reprojectable : reprojectable Plate.transformer survey 32631 20.
Proof.
  exists Plate.forward, Plate.inverse.
  split; [reflexivity|]. split; [reflexivity|].
  repeat constructor; eexists; eexists; (split; [reflexivity|]);
    (split; [vm_compute; reflexivity|]); repeat constructor; eexists; reflexivity.
Qed.

(** ** The grid builder: cardinality, order and attributes *)

(** C1. On N records for which every step of the build goes through,
    [create_grid_df] returns a grid of exactly N cells; cell [i] is built
    from record [i] (its ring is the backward image of the ring of the
    square around that record's planar point) and carries that record's
    [cell], its [n_seagrass_plants] (as [n_plants]) and its [method]. No
    record is merged, split or dropped. *)
Theorem create_grid_df_one_cell_per_record {exn : Type}
    (transformer : Z -> Z -> exn + (Shapely.coord -> exn + Shapely.coord))
    (df : list Sample.row) (utm : Z) (grid_size : float) :
  reprojectable transformer df utm grid_size ->
  exists gdf grid_df,
    create_grid_df transformer df utm grid_size = inr (gdf, grid_df) /\
    List.length (rows grid_df) = List.length df /\
    forall i record,
      nth_error df i = Some record ->
      exists c,
        nth_error (rows grid_df) i = Some c /\
        Grid.cell c = Some (Sample.cell record) /\
        Grid.n_plants c = Some (Sample.n_seagrass_plants record) /\
        Grid.method c = Some (Sample.method record) /\
        cell_of transformer utm grid_size record c.
Proof.
  intros Hok.
  destruct (create_grid_df_returns _ _ _ _ _ Hok) as (gdf & grid_df & Hrun).
  exists gdf, grid_df. split; [assumption|].
  destruct (create_grid_df_cells _ _ _ _ _ _ _ Hrun) as (_ & _ & _ & Hlen & Hcells).
  split; [assumption|]. intros i record Hi.
  destruct (Hcells i record Hi) as (p & planar & c & _ & _ & Hc & Hn & Hk & Hm & Hbuilt).
  exists c. repeat (split; [assumption|]). exists p. assumption.
Qed.

Lemma create_grid_df_one_cell_per_record_witness :
  reprojectable Plate.transformer survey 32631 20 /\
  exists gdf grid_df,
    create_grid_df Plate.transformer survey 32631 20 = inr (gdf, grid_df) /\
    List.length (rows grid_df) = List.length survey /\
    forall i record,
      nth_error survey i = Some record ->
      exists c,
        nth_error (rows grid_df) i = Some c /\
        Grid.cell c = Some (Sample.cell record) /\
        Grid.n_plants c = Some (Sample.n_seagrass_plants record) /\
        Grid.method c = Some (Sample.method record) /\
        cell_of Plate.transformer 32631 20 record c.
Proof.
  split; [apply survey_reprojectable|].
  apply (create_grid_df_one_cell_per_record Plate.transformer survey 32631 20).
  apply survey_reprojectable.
Defined.

(** ** The grid builder: the edge length is not checked *)

(** C2, as stated, fails: with the edge lengths 0 and -20 the builder
    raises nothing and returns one cell per record. *)
Lemma create_grid_df_non_positive_edge_returns :
  (exists gdf grid_df,
     create_grid_df Plate.transformer survey 32631 0 = inr (gdf, grid_df) /\
     List.length (rows grid_df) = 2%nat) /\
  (exists gdf grid_df,
     create_grid_df Plate.transformer survey 32631 (-20) = inr (gdf, grid_df) /\
     List.length (rows grid_df) = 2%nat).
Proof.
  split; eexists; eexists; (split; [vm_compute; reflexivity | reflexivity]).
Qed.

(** For an edge length that is a number, shapely refuses a square only
    around a point that is not finite. *)
Lemma grid_box_refused_not_finite (g x y : float) :
  (g =? g)%float = true ->
  (x + g / 2 =? x + g / 2)%float = false \/ (y - g / 2 =? y - g / 2)%float = false ->
  Float.is_finite x = false \/ Float.is_finite y = false.
Proof.
  intros Hg Hnan. pose proof (half_not_nan g Hg) as Hh.
  destruct (Float.is_finite x) eqn:Hx; [|left; reflexivity].
  destruct (Float.is_finite y) eqn:Hy; [|right; reflexivity].
  pose proof (add_not_nan x _ Hx Hh). pose proof (sub_not_nan y _ Hy Hh).
  destruct Hnan; congruence.
Qed.

(** C2, amended. [create_grid_df] does not look at the sign of
    [grid_size] and has no exception of its own for it. For a zero or
    negative edge length too it returns one cell per record whenever every
    step of the build goes through, cell [i] being the image of the
    (collapsed or inverted) square around record [i]. What it raises
    instead is an exception of the projection library, raised by the
    library, or shapely's [GEOSException], and the latter only for a
    record whose planar point is not finite. *)
Theorem create_grid_df_no_edge_check {exn : Type}
    (transformer : Z -> Z -> exn + (Shapely.coord -> exn + Shapely.coord))
    (df : list Sample.row) (utm : Z) (grid_size : float) :
  (grid_size <=? 0)%float = true ->
  (reprojectable transformer df utm grid_size ->
   exists gdf grid_df,
     create_grid_df transformer df utm grid_size = inr (gdf, grid_df) /\
     List.length (rows grid_df) = List.length df /\
     forall i record,
       nth_error df i = Some record ->
       exists c,
         nth_error (rows grid_df) i = Some c /\
         cell_of transformer utm grid_size record c) /\
  (forall e, create_grid_df transformer df utm grid_size = inl (Projection e) ->
             raised_by_library transformer df utm grid_size e) /\
  (forall e, create_grid_df transformer df utm grid_size = inl (Geometry e) ->
     e = Shapely.GEOSException /\
     exists fwd record x y,
       transformer 4326 utm = inr fwd /\ In record df /\
       fwd (Shapely.Point (Sample.longitude record) (Sample.latitude record)) = inr (x, y) /\
       (Float.is_finite x = false \/ Float.is_finite y = false)).
Proof.
  intros Hg. apply leb_not_nan in Hg. destruct Hg as [Hg _].
  split; [|split].
  - intros Hok.
    destruct (create_grid_df_returns _ _ _ _ _ Hok) as (gdf & grid_df & Hrun).
    exists gdf, grid_df. split; [assumption|].
    destruct (create_grid_df_cells _ _ _ _ _ _ _ Hrun) as (_ & _ & _ & Hlen & Hcells).
    split; [assumption|]. intros i record Hi.
    destruct (Hcells i record Hi) as (p & planar & c & _ & _ & Hc & _ & _ & _ & Hbuilt).
    exists c. split; [assumption|]. exists p. assumption.
  - apply create_grid_df_raised.
  - intros e He. split; [destruct e; reflexivity|].
    apply create_grid_df_refused in He.
    destruct He as (fwd & Hfwd & _ & record & x & y & Hin & Hp & Hnan).
    exists fwd, record, x, y. repeat (split; [assumption|]).
    apply (grid_box_refused_not_finite grid_size); assumption.
Qed.

Lemma create_grid_df_no_edge_check_witness :
  ((-20) <=? 0)%float = true /\
  (reprojectable Plate.transformer survey 32631 (-20) ->
   exists gdf grid_df,
     create_grid_df Plate.transformer survey 32631 (-20) = inr (gdf, grid_df) /\
     List.length (rows grid_df) = List.length survey /\
     forall i record,
       nth_error survey i = Some record ->
       exists c,
         nth_error (rows grid_df) i = Some c /\
         cell_of Plate.transformer 32631 (-20) record c) /\
  (forall e, create_grid_df Plate.transformer survey 32631 (-20) = inl (Projection e) ->
             raised_by_library Plate.transformer survey 32631 (-20) e) /\
  (forall e, create_grid_df Plate.transformer survey 32631 (-20) = inl (Geometry e) ->
     e = Shapely.GEOSException /\
     exists fwd record x y,
       Plate.transformer 4326 32631 = inr fwd /\ In record survey /\
       fwd (Shapely.Point (Sample.longitude record) (Sample.latitude record)) = inr (x, y) /\
       (Float.is_finite x = false \/ Float.is_finite y = false)).
Proof.
  split; [reflexivity|].
  apply (create_grid_df_no_edge_check Plate.transformer survey 32631 (-20)).
  reflexivity.
Defined.

(** The build goes through for the two survey records with the edge
    length -20. *)
Example survey_reprojectable_inverted :
  reprojectable Plate.transformer survey 32631 (-20).
Proof.
  exists Plate.forward, Plate.inverse.
  split; [reflexivity|]. split; [reflexivity|].
  repeat constructor; eexists; eexists; (split; [reflexivity|]);
    (split; [vm_compute; reflexivity|]); repeat constructor; eexists; reflexivity.
Qed.

(** ** The grid builder: coordinates are not checked *)

(** C5, as stated, fails: behind a transformation that accepts every
    coordinate pair, the record with latitude 200 raises nothing and gets
    its cell. *)
Lemma create_grid_df_latitude_200_returns :
  exists gdf grid_df,
    create_grid_df Plate.transformer stray 32631 20 = inr (gdf, grid_df) /\
    List.length (rows grid_df) = 1%nat /\
    exists c, nth_error (rows grid_df) 0 = Some c /\ Grid.cell c = Some 1.
Proof.
  eexists; eexists. split; [vm_compute; reflexivity|].
  split; [reflexivity|]. eexists. split; reflexivity.
Qed.

(** Behind a transformation that checks the range, the same record aborts
    the build with the library's exception. *)
Example create_grid_df_latitude_200_strict :
  create_grid_df Plate.strict_transformer stray 32631 20
    = inl (Projection Plate.ProjError).
Proof. vm_compute. reflexivity. Qed.

(** An EPSG code the library does not know aborts the build, whatever
    the records. *)
Example create_grid_df_unknown_zone :
  create_grid_df Plate.transformer survey 1234 20 = inl (Projection Plate.CRSError).
Proof. vm_compute. reflexivity. Qed.

(** A latitude that is a NaN passes the transformation as a NaN, and
    shapely refuses the square around it. *)
Example create_grid_df_latitude_nan :
  create_grid_df Plate.transformer [ Sample.mk 1 nan 4.1901 42 (VInt 2) ] 32631 20
    = inl (Geometry Shapely.GEOSException).
Proof. vm_compute. reflexivity. Qed.

(** And so it does with every square when the edge length is a NaN. *)
Example create_grid_df_edge_nan :
  create_grid_df Plate.transformer survey 32631 nan = inl (Geometry Shapely.GEOSException).
Proof. vm_compute. reflexivity. Qed.

(** C5, amended. [create_grid_df] checks no coordinate itself and has no
    exception of its own. It returns a grid exactly when every step of
    the build goes through. Otherwise it raises one of two things: an
    exception of the projection library, which the library raised (on
    building a transformation, on a record's point or on a coordinate of
    its square), or shapely's [GEOSException], which is raised exactly
    when the library accepted every point and the first corner
    [(x + grid_size/2, y - grid_size/2)] of some record's square holds a
    NaN. *)
Theorem create_grid_df_raises_from_libraries {exn : Type}
    (transformer : Z -> Z -> exn + (Shapely.coord -> exn + Shapely.coord))
    (df : list Sample.row) (utm : Z) (grid_size : float) :
  ((exists out, create_grid_df transformer df utm grid_size = inr out)
     <-> reprojectable transformer df utm grid_size) /\
  ((exists e, create_grid_df transformer df utm grid_size = inl e)
     <-> ~ reprojectable transformer df utm grid_size) /\
  (forall e, create_grid_df transformer df utm grid_size = inl (Projection e) ->
             raised_by_library transformer df utm grid_size e) /\
  (create_grid_df transformer df utm grid_size = inl (Geometry Shapely.GEOSException)
     <-> raised_by_shapely transformer df utm grid_size).
Proof.
  split; [|split; [|split]].
  - split.
    + intros (out & Hout). eapply create_grid_df_returned; eassumption.
    + intros Hok.
      destruct (create_grid_df_returns _ _ _ _ _ Hok) as (gdf & grid_df & Hrun).
      eexists; eassumption.
  - split.
    + intros (e & He) Hok.
      destruct (create_grid_df_returns _ _ _ _ _ Hok) as (gdf & grid_df & Hrun).
      congruence.
    + intros Hno.
      destruct (create_grid_df transformer df utm grid_size) as [e|out] eqn:Hrun.
      * eexists; reflexivity.
      * exfalso. apply Hno. eapply create_grid_df_returned; eassumption.
  - apply create_grid_df_raised.
  - apply create_grid_df_refused.
Qed.

(** ** Styling *)


Lemma style_function_unfold (feature m : value) :
  feature_method feature = inr m ->
  style_function feature =
    inr (if Py.eq_int m 1
         then VDict (DItem "color" (VStr "orange") (DItem "weight" (VInt 4) DEmpty))
         else if Py.eq_int m 2
         then VDict (DItem "color" (VStr "red") (DItem "weight" (VInt 4) DEmpty))
         else if Py.eq_int m 3
         then VDict (DItem "color" (VStr "blue") (DItem "weight" (VInt 4) DEmpty))
         else if Py.eq_int m 4
         then VDict (DItem "color" (VStr "Yellow") (DItem "weight" (VInt 4) DEmpty))
         else VNone).
Proof.
  intros Hm. unfold style_function. rewrite Hm. unfold Err.bind, Err.ret.
  repeat (destruct (Py.eq_int m _); [reflexivity|]). reflexivity.
Qed.



(** A float that denotes one of the four integers is styled like the
    integer, since Python's [==] compares numbers by value. *)
Example style_function_float :
  style_function (feature_of 1 42 (VFloat 1))
    = inr (VDict (DItem "color" (VStr "orange") (DItem "weight" (VInt 4) DEmpty))).
Proof. vm_compute. reflexivity. Qed.

(** A feature without a [method] property raises [KeyError]. *)
Example style_function_no_method :
  style_function (VDict (DItem "properties" (VDict DEmpty) DEmpty))
    = inl (KeyError "method").
Proof. reflexivity. Qed.

(** ** Lines *)

Lemma string_app_assoc (s t u : string) : ((s ++ t) ++ u = s ++ (t ++ u))%string.
Proof. induction s as [|c s IH]; simpl; [reflexivity|]. now rewrite IH. Qed.

Lemma newlines_app (s t : string) : Format.newlines (s ++ t) = (Format.newlines s + Format.newlines t)%nat.
Proof. induction s as [|c s IH]; simpl; [reflexivity|]. rewrite IH. lia. Qed.

Lemma newlines_uint (d : Decimal.uint) : Format.newlines (NilEmpty.string_of_uint d) = 0%nat.
Proof. induction d; simpl; auto. Qed.

Lemma newlines_d (n : Z) : Format.newlines (Format.d n) = 0%nat.
Proof.
  unfold Format.d, NilZero.string_of_int, NilZero.string_of_uint.
  destruct (Z.to_int n) as [d|d]; destruct d; simpl; auto using newlines_uint.
Qed.

Lemma newlines_digit (k : Z) : Ascii.eqb (Format.digit k) (ascii_of_nat 10) = false.
Proof.
  unfold Format.digit.
  pose proof (Z.mod_pos_bound k 10 ltac:(lia)) as Hk.
  assert (Hn : (Z.to_nat (k mod 10) < 10)%nat) by lia.
  remember (Z.to_nat (k mod 10)) as j eqn:Hj. clear Hj Hk.
  do 10 (destruct j as [|j]; [reflexivity|]). lia.
Qed.

Lemma newlines_six_digits (n : Z) : Format.newlines (Format.six_digits n) = 0%nat.
Proof. unfold Format.six_digits. cbn [Format.newlines]. rewrite !newlines_digit. reflexivity. Qed.

Lemma newlines_f6 (x : float) : Format.newlines (Format.f6 x) = 0%nat.
Proof.
  unfold Format.f6.
  destruct (Prim2SF x) as [[|]|[|]| |[|] m e]; try reflexivity;
    rewrite !newlines_app, newlines_d, newlines_six_digits; reflexivity.
Qed.

Lemma newlines_method_label (i : Z) : Format.newlines (method_label i) = 0%nat.
Proof.
  unfold method_label.
  destruct (i <? 25); [reflexivity|]. destruct (i <? 50); [reflexivity|].
  destruct (i <? 75); reflexivity.
Qed.

Lemma format_row_one_line (r : Draw.row) :
  Format.newlines (Draw.method r) = 0%nat -> Format.one_line (format_row r).
Proof.
  intros Hm. unfold format_row.
  exists (Format.d (Draw.cell r) ++ Format.tab ++ Format.f6 (Draw.lat r) ++ Format.tab
      ++ Format.f6 (Draw.lon r) ++ Format.tab ++ Format.d (Draw.n_plants r) ++ Format.tab
      ++ Draw.method r)%string.
  split.
  - rewrite !string_app_assoc. reflexivity.
  - rewrite !newlines_app, !newlines_d, !newlines_f6, Hm. reflexivity.
Qed.

Lemma header_one_line : Format.one_line header.
Proof.
  unfold header.
  exists ("cell" ++ Format.tab ++ "latitude" ++ Format.tab ++ "longitude" ++ Format.tab
      ++ "n_seagrass_plants" ++ Format.tab ++ "method")%string.
  split; reflexivity.
Qed.

(** ** Six decimals *)

Lemma round_half_even_near (num den : Z) :
  0 < den ->
  - den <= 2 * (Format.round_half_even num den * den - num) <= den.
Proof.
  intros Hden. unfold Format.round_half_even.
  pose proof (Z.div_mod num den ltac:(lia)) as Hdm.
  pose proof (Z.mod_pos_bound num den Hden) as Hr.
  set (fl := num / den) in *. set (r := num mod den) in *.
  destruct (Z.ltb_spec (2 * r) den); [cbv zeta; nia|].
  destruct (Z.ltb_spec den (2 * r)); [cbv zeta; nia|].
  destruct (Z.even fl); cbv zeta; nia.
Qed.

Lemma Qpower_2_neg (k : positive) : (Qpower 2 (Zneg k) == 1 # (2 ^ k)%positive)%Q.
Proof.
  change (Qpower 2 (Zneg k)) with (/ Qpower 2 (Zpos k))%Q.
  rewrite <- (Zpower_Qpower 2 (Zpos k)) by lia.
  rewrite <- Pos2Z.inj_pow. reflexivity.
Qed.

Lemma Qpower_2_nonneg (e : Z) : 0 <= e -> (Qpower 2 e == inject_Z (2 ^ e))%Q.
Proof. intros He. rewrite (Zpower_Qpower 2 e) by lia. reflexivity. Qed.

Lemma millionths_exact (n M a : Z) :
  n = M * a * 1000000 -> ((n # 1000000) - inject_Z M * inject_Z a == 0)%Q.
Proof.
  intros ->. unfold Qeq, Qminus, Qplus, Qopp, Qmult, inject_Z. cbn [Qnum Qden]. lia.
Qed.

Lemma millionths_near (n M : Z) (K : positive) :
  - Zpos K <= 2 * (n * Zpos K - M * 1000000) <= Zpos K ->
  (Qabs ((n # 1000000) - inject_Z M * (1 # K)) <= 1 # 2000000)%Q.
Proof.
  intros H. apply Qabs_Qle_condition.
  unfold Qle, Qminus, Qplus, Qopp, Qmult, inject_Z. cbn [Qnum Qden].
  rewrite !Pos2Z.inj_mul. split; lia.
Qed.

(** The number printed by [%.6f] is within half a millionth of the
    float's value. *)
Lemma f6_value_near (x : float) (v : Q) :
  Float.to_Q x = Some v ->
  exists p, Format.f6_value x = Some p /\ (Qabs (p - v) <= 1 # 2000000)%Q.
Proof.
  unfold Float.to_Q, Format.f6_value, Float.SF2Q.
  destruct (Prim2SF x) as [s|s| |s m e]; try discriminate.
  - intros H; injection H as <-. exists 0%Q. split; [reflexivity|]. discriminate.
  - intros H; injection H as <-. eexists. split; [reflexivity|].
    unfold Format.millionths. destruct (Z.leb_spec 0 e) as [He|He].
    + rewrite Qpower_2_nonneg by assumption.
      rewrite millionths_exact; [discriminate|].
      destruct s; cbn [cond_Zopp]; lia.
    + destruct e as [|e|k]; try lia.
      rewrite Qpower_2_neg. change (- Zneg k) with (Zpos k).
      apply millionths_near.
      pose proof (round_half_even_near (Zpos m * 1000000) (2 ^ Zpos k)
                    ltac:(apply Z.pow_pos_nonneg; lia)) as Hn.
      rewrite <- Pos2Z.inj_pow in *.
      destruct s; cbn [cond_Zopp]; lia.
Qed.

(** ** Values as rationals *)

Section Values.

Import Float.

Lemma Qpower_2_shift (c e u : Z) :
  0 <= e + u ->
  (inject_Z c * Qpower 2 e == inject_Z (c * 2 ^ (e + u)) * Qpower 2 (- u))%Q.
Proof.
  intros He. replace e with ((e + u) + - u) at 1 by lia.
  rewrite Qpower_plus by discriminate.
  rewrite (Qpower_2_nonneg (e + u)) by assumption.
  rewrite inject_Z_mult. ring.
Qed.

Lemma SF2Q_val (x : spec_float) (v : Q) :
  valid_binary x = true -> SF2Q x = Some v ->
  (v == inject_Z (val x) * Qpower 2 (- 2148))%Q.
Proof.
  destruct x as [s|s| |s m e]; try discriminate; intros Hx H; injection H as <-.
  - cbn [val]. ring.
  - cbn [valid_binary] in Hx. destruct (bounded_inv _ _ Hx) as (He & _).
    rewrite (Qpower_2_shift _ e 2148) by lia.
    cbn [val]. unfold mag. destruct s; cbn [cond_Zopp]; try reflexivity.
    rewrite Z.mul_opp_l. reflexivity.
Qed.

(** The order of floats is the order of their values. *)
Lemma leb_to_Q (a b : float) (va vb : Q) :
  (a <=? b)%float = true -> to_Q a = Some va -> to_Q b = Some vb -> (va <= vb)%Q.
Proof.
  unfold to_Q. rewrite leb_spec. intros Hle Ha Hb.
  pose proof (Prim2SF_valid a) as Hva. pose proof (Prim2SF_valid b) as Hvb.
  rewrite (SF2Q_val _ _ Hva Ha), (SF2Q_val _ _ Hvb Hb).
  assert (Hfa : sf_finite (Prim2SF a) = true)
    by (destruct (Prim2SF a); try discriminate; reflexivity).
  assert (Hfb : sf_finite (Prim2SF b) = true)
    by (destruct (Prim2SF b); try discriminate; reflexivity).
  apply (SFleb_val _ _ Hva Hvb Hfa Hfb) in Hle.
  apply Qmult_le_compat_r.
  - rewrite <- Zle_Qle. exact Hle.
  - apply Qpower_pos. discriminate.
Qed.

(** A float between two finite floats is finite. *)
Lemma between_finite (a x b : float) :
  is_finite a = true -> is_finite b = true ->
  (a <=? x)%float = true -> (x <=? b)%float = true -> is_finite x = true.
Proof.
  unfold is_finite. rewrite !leb_spec.
  destruct (Prim2SF a) as [sa|sa| |sa ma ea]; try discriminate;
    destruct (Prim2SF b) as [sb|sb| |sb mb eb]; try discriminate;
    destruct (Prim2SF x) as [sx|[|]| |sx mx ex]; try discriminate; try reflexivity;
    try (destruct sa; discriminate); try (destruct sb; discriminate).
Qed.

Lemma finite_to_Q (x : float) : is_finite x = true -> exists v, to_Q x = Some v.
Proof.
  unfold is_finite, to_Q. destruct (Prim2SF x); try discriminate; eexists; reflexivity.
Qed.

Lemma to_Q_finite (x : float) (v : Q) : to_Q x = Some v -> is_finite x = true.
Proof.
  unfold is_finite, to_Q. destruct (Prim2SF x); try discriminate; reflexivity.
Qed.

(** A float between [lo] and [hi] is printed by [%.6f] as a number
    between them, up to half a millionth. *)
Lemma f6_value_within (lo hi x : float) (vlo vhi : Q) :
  to_Q lo = Some vlo -> to_Q hi = Some vhi ->
  (lo <=? x)%float = true -> (x <=? hi)%float = true ->
  exists p, Format.f6_value x = Some p /\
            (vlo - (1 # 2000000) <= p <= vhi + (1 # 2000000))%Q.
Proof.
  intros Hlo Hhi H1 H2.
  destruct (finite_to_Q x) as (v & Hv).
  { apply (between_finite lo x hi); eauto using to_Q_finite. }
  destruct (f6_value_near x v Hv) as (p & Hp & Hnear).
  pose proof (leb_to_Q _ _ _ _ H1 Hlo Hv) as Hge.
  pose proof (leb_to_Q _ _ _ _ H2 Hv Hhi) as Hle.
  apply Qabs_Qle_condition in Hnear.
  exists p. split; [assumption|]. split; lra.
Qed.

(** An error bound on values, as a bound on rationals. *)
Lemma error_to_Q (R E : Z) (vr ve : Q) :
  2 ^ 53 * Z.abs (R - E) <= Z.abs R ->
  (vr == inject_Z R * Qpower 2 (- 2148))%Q ->
  (ve == inject_Z E * Qpower 2 (- 2148))%Q ->
  (Qabs (vr - ve) <= Qabs vr * unit_roundoff)%Q.
Proof.
  intros Herr Hr He.
  assert (HK : (0 <= Qpower 2 (- 2148))%Q) by (apply Qpower_pos; discriminate).
  set (K := Qpower 2 (- 2148)) in *. clearbody K.
  assert (Hd : (vr - ve == inject_Z (R - E) * K)%Q).
  { rewrite Hr, He. unfold Z.sub. rewrite inject_Z_plus, inject_Z_opp. ring. }
  rewrite Hd, Hr, !Qabs_Qmult, (Qabs_pos K HK).
  setoid_replace (Qabs (inject_Z R) * K * unit_roundoff)%Q with (Qabs (inject_Z R) * unit_roundoff * K)%Q by ring.
  apply Qmult_le_compat_r; [|assumption].
  change (Qabs (inject_Z (R - E))) with (inject_Z (Z.abs (R - E))).
  change (Qabs (inject_Z R)) with (inject_Z (Z.abs R)).
  unfold Qle, Qmult, inject_Z, unit_roundoff. cbn [Qnum Qden].
  change (Zpos (1 * 9007199254740992)) with (2 ^ 53). lia.
Qed.

Lemma add_error (a b : float) (va vb vr : Q) :
  to_Q a = Some va -> to_Q b = Some vb -> to_Q (a + b)%float = Some vr ->
  (Qabs (vr - (va + vb)) <= Qabs vr * unit_roundoff)%Q.
Proof.
  intros Ha Hb Hr.
  pose proof (to_Q_finite _ _ Ha) as Hfa. pose proof (to_Q_finite _ _ Hb) as Hfb.
  pose proof (to_Q_finite _ _ Hr) as Hfr.
  unfold to_Q, is_finite in *. rewrite add_spec in *.
  pose proof (Prim2SF_valid a) as Hva. pose proof (Prim2SF_valid b) as Hvb.
  pose proof (Prim2SF_valid (a + b)%float) as Hvr. rewrite add_spec in Hvr.
  apply (error_to_Q (val (SF64add (Prim2SF a) (Prim2SF b))) (val (Prim2SF a) + val (Prim2SF b))).
  - apply SFadd_error; assumption.
  - apply SF2Q_val; assumption.
  - rewrite inject_Z_plus, Qmult_plus_distr_l.
    rewrite <- (SF2Q_val _ _ Hva Ha), <- (SF2Q_val _ _ Hvb Hb). reflexivity.
Qed.

Lemma sub_error (a b : float) (va vb vr : Q) :
  to_Q a = Some va -> to_Q b = Some vb -> to_Q (a - b)%float = Some vr ->
  (Qabs (vr - (va - vb)) <= Qabs vr * unit_roundoff)%Q.
Proof.
  intros Ha Hb Hr.
  pose proof (to_Q_finite _ _ Ha) as Hfa. pose proof (to_Q_finite _ _ Hb) as Hfb.
  pose proof (to_Q_finite _ _ Hr) as Hfr.
  unfold to_Q, is_finite in *. rewrite sub_spec in *.
  pose proof (Prim2SF_valid a) as Hva. pose proof (Prim2SF_valid b) as Hvb.
  pose proof (Prim2SF_valid (a - b)%float) as Hvr. rewrite sub_spec in Hvr.
  apply (error_to_Q (val (SF64sub (Prim2SF a) (Prim2SF b))) (val (Prim2SF a) - val (Prim2SF b))).
  - apply SFsub_error; assumption.
  - apply SF2Q_val; assumption.
  - unfold Z.sub at 1. rewrite inject_Z_plus, inject_Z_opp, Qmult_plus_distr_l.
    rewrite <- (SF2Q_val _ _ Hva Ha).
    setoid_replace (- inject_Z (val (Prim2SF b)) * Qpower 2 (- 2148))%Q
      with (- (inject_Z (val (Prim2SF b)) * Qpower 2 (- 2148)))%Q by ring.
    rewrite <- (SF2Q_val _ _ Hvb Hb). reflexivity.
Qed.



(** [lo + r * (hi - lo)] for a draw [r] lies within the bounds, and so
    does what is printed for it, up to half a millionth. *)
Lemma within_affine (lo hi r : float) :
  is_finite lo = true -> is_finite hi = true ->
  (lo <=? hi)%float = true -> is_finite (hi - lo)%float = true ->
  (0 <=? r)%float = true -> (r <? 1)%float = true ->
  Format.within lo hi (lo + r * (hi - lo))%float.
Proof.
  intros Hlo Hhi Hle Hd H0 H1.
  destruct (affine_within lo hi r Hlo Hhi Hle Hd H0 H1) as [Hge Hbelow].
  destruct (finite_to_Q lo Hlo) as (vlo & Hvlo).
  destruct (finite_to_Q hi Hhi) as (vhi & Hvhi).
  destruct (f6_value_within lo hi _ vlo vhi Hvlo Hvhi Hge Hbelow) as (p & Hp & Hbounds).
  split; [assumption|]. split; [assumption|].
  exists vlo, vhi, p. auto.
Qed.

End Values.

(** ** Random sample data *)

Section RandomDataFacts.

Variable rng : Type.
Variable randint : Z -> Z -> rng -> Z * rng.
Variable random : rng -> float * rng.
Variables min_lat max_lat min_lon max_lon : float.

(** What [random.randint(a, b)] promises. *)
Hypothesis randint_range :
  forall a b s, a <= b -> a <= fst (randint a b s) <= b.

Lemma draw_row_spec (i : Z) (s : rng) :
  row_of_index random min_lat max_lat min_lon max_lon i
    (fst (draw_row randint random min_lat max_lat min_lon max_lon i s)).
Proof.
  unfold draw_row, row_of_index.
  pose proof (randint_range 0 100 s ltac:(lia)) as Hn.
  destruct (randint 0 100 s) as [n s0].
  destruct (random s0) as [r1 s1] eqn:H1.
  destruct (random s1) as [r2 s2] eqn:H2.
  simpl in *. repeat split; try lia.
  exists s0, s1. rewrite H1, H2. split; reflexivity.
Qed.

Lemma drawn_rows_length i n s :
  List.length (drawn_rows randint random min_lat max_lat min_lon max_lon i n s) = n.
Proof.
  revert i s; induction n as [|n IH]; intros i s; simpl; [reflexivity|].
  destruct (draw_row _ _ _ _ _ _ i s) as [r s']. simpl. now rewrite IH.
Qed.

Lemma drawn_rows_nth_error i n s k :
  (k < n)%nat ->
  exists r,
    nth_error (drawn_rows randint random min_lat max_lat min_lon max_lon i n s) k = Some r /\
    row_of_index random min_lat max_lat min_lon max_lon (i + Z.of_nat k) r.
Proof.
  revert i s k; induction n as [|n IH]; intros i s k Hk; [lia|].
  simpl. pose proof (draw_row_spec i s) as Hrow.
  destruct (draw_row _ _ _ _ _ _ i s) as [r s']. simpl in Hrow.
  destruct k as [|k]; simpl.
  - exists r. rewrite Z.add_0_r. auto.
  - destruct (IH (i + 1) s' k ltac:(lia)) as (r' & Hr' & Hspec).
    exists r'. split; [assumption|].
    replace (i + Z.pos (Pos.of_succ_nat k)) with (i + 1 + Z.of_nat k) by lia.
    assumption.
Qed.

Lemma drawn_rows_one_line i n s :
  Forall Format.one_line
    (map format_row (drawn_rows randint random min_lat max_lat min_lon max_lon i n s)).
Proof.
  revert i s; induction n as [|n IH]; intros i s; simpl; [constructor|].
  pose proof (draw_row_spec i s) as (_ & _ & Hlabel & _).
  destruct (draw_row _ _ _ _ _ _ i s) as [r s']. simpl in Hlabel. simpl.
  constructor; [|apply IH].
  apply format_row_one_line. rewrite Hlabel. apply newlines_method_label.
Qed.

(** The loop appends one formatted line per drawn row. *)
Lemma write_rows_drawn i n s output :
  write_rows randint random min_lat max_lat min_lon max_lon i n s output
    = (output ++ map format_row
         (drawn_rows randint random min_lat max_lat min_lon max_lon i n s))%list.
Proof.
  revert i s output; induction n as [|n IH]; intros i s output; simpl.
  - now rewrite app_nil_r.
  - destruct (draw_row _ _ _ _ _ _ i s) as [r s'].
    rewrite IH, <- app_assoc. reflexivity.
Qed.

End RandomDataFacts.

Lemma tape_randint_range (a b : Z) (s : Tape.rng) :
  a <= b -> a <= fst (Tape.randint a b s) <= b.
Proof.
  intros Hab. destruct s as [|k s]; simpl; [lia|].
  pose proof (Z.mod_pos_bound k (b - a + 1) ltac:(lia)). lia.
Qed.

(** C10, as stated, fails on the coordinates: with the lower bound
    51.44590004 and a draw of 0.0, the row reads 51.445900, which is below
    the bound. *)
Lemma generate_random_data_latitude_below_bound :
  exists r,
    drawn_rows Tape.randint Tape.random 51.44590004 51.4521 4.1828 4.2032 0 1 [42; 0; 0]
      = [r] /\
    generate_random_data Tape.randint Tape.random 51.44590004 51.4521 4.1828 4.2032
        1 [42; 0; 0]
      = [header; format_row r] /\
    format_row r
      = ("1" ++ Format.tab ++ "51.445900" ++ Format.tab ++ "4.182800" ++ Format.tab
           ++ "42" ++ Format.tab ++ "1" ++ Format.newline)%string /\
    exists printed bound,
      Format.f6_value (Draw.lat r) = Some printed /\
      Float.to_Q 51.44590004 = Some bound /\
      (printed < bound)%Q.
Proof.
  eexists. split; [vm_compute; reflexivity|].
  split; [vm_compute; reflexivity|].
  split; [vm_compute; reflexivity|].
  eexists; eexists. split; [vm_compute; reflexivity|].
  split; [vm_compute; reflexivity|].
  vm_compute. reflexivity.
Qed.

(** C10, amended. For a non-negative [num_rows], [generate_random_data]
    writes the header line and then [num_rows] data rows, every one a
    single line. Row [i] (from 0) holds the identifier [i + 1], a plant
    count between 0 and 100, the label "1" for the first 25 rows, "2" for
    rows 26-50, "3" for rows 51-75 and "4" for all later rows, and the
    coordinates [min + r * (max - min)] for two draws [r] of
    [random.random()], each printed with six decimals, that is, within
    half a millionth of the computed value. For finite bounds
    [min <= max] whose difference is finite, the computed coordinate lies
    within the bounds and the printed one within the bounds widened by
    half a millionth on either side. *)
Theorem generate_random_data_rows {rng : Type}
    (randint : Z -> Z -> rng -> Z * rng) (random : rng -> float * rng)
    (min_lat max_lat min_lon max_lon : float) (num_rows : Z) (s : rng) :
  (forall a b s, a <= b -> a <= fst (randint a b s) <= b) ->
  (forall s, (0 <=? fst (random s))%float = true /\ (fst (random s) <? 1)%float = true) ->
  0 <= num_rows ->
  let output :=
    generate_random_data randint random min_lat max_lat min_lon max_lon num_rows s in
  Z.of_nat (List.length output) = 1 + num_rows /\
  Forall Format.one_line output /\
  nth_error output 0 = Some header /\
  forall i,
    0 <= i < num_rows ->
    exists r,
      nth_error output (S (Z.to_nat i)) = Some (format_row r) /\
      row_of_index random min_lat max_lat min_lon max_lon i r /\
      (forall v, Float.to_Q (Draw.lat r) = Some v ->
         exists p, Format.f6_value (Draw.lat r) = Some p /\
                   (Qabs (p - v) <= 1 # 2000000)%Q) /\
      (forall v, Float.to_Q (Draw.lon r) = Some v ->
         exists p, Format.f6_value (Draw.lon r) = Some p /\
                   (Qabs (p - v) <= 1 # 2000000)%Q) /\
      (Float.is_finite min_lat = true -> Float.is_finite max_lat = true ->
       (min_lat <=? max_lat)%float = true ->
       Float.is_finite (max_lat - min_lat)%float = true ->
       Format.within min_lat max_lat (Draw.lat r)) /\
      (Float.is_finite min_lon = true -> Float.is_finite max_lon = true ->
       (min_lon <=? max_lon)%float = true ->
       Float.is_finite (max_lon - min_lon)%float = true ->
       Format.within min_lon max_lon (Draw.lon r)) /\
      (i < 25 -> Draw.method r = "1"%string) /\
      (25 <= i < 50 -> Draw.method r = "2"%string) /\
      (50 <= i < 75 -> Draw.method r = "3"%string) /\
      (75 <= i -> Draw.method r = "4"%string).
Proof.
  intros Hrandint Hrandom Hn output. subst output.
  unfold generate_random_data. rewrite write_rows_drawn.
  split; [|split; [|split]].
  - rewrite length_app, length_map, drawn_rows_length.
    change (List.length [header]) with 1%nat. lia.
  - apply Forall_app. split.
    + constructor; [apply header_one_line|constructor].
    + apply drawn_rows_one_line. assumption.
  - reflexivity.
  - intros i Hi.
    assert (Hlt : (Z.to_nat i < Z.to_nat num_rows)%nat) by lia.
    destruct (drawn_rows_nth_error rng randint random min_lat max_lat min_lon max_lon
                Hrandint 0 (Z.to_nat num_rows) s (Z.to_nat i) Hlt)
      as (r & Hr & Hspec).
    replace (0 + Z.of_nat (Z.to_nat i)) with i in Hspec by lia.
    exists r. split.
    + change ([header] ++ ?l)%list with (header :: l). simpl.
      rewrite nth_error_map, Hr. reflexivity.
    + split; [assumption|].
      split; [apply f6_value_near|]. split; [apply f6_value_near|].
      destruct Hspec as (_ & _ & Hlabel & s1 & s2 & Hlat & Hlon).
      split; [|split].
      * intros Hlo Hhi Hle Hd. rewrite Hlat.
        apply within_affine; try assumption; apply Hrandom.
      * intros Hlo Hhi Hle Hd. rewrite Hlon.
        apply within_affine; try assumption; apply Hrandom.
      * rewrite Hlabel. unfold method_label.
        repeat split; intros Hrange.
        -- destruct (Z.ltb_spec i 25); [reflexivity|lia].
        -- destruct (Z.ltb_spec i 25); [lia|].
           destruct (Z.ltb_spec i 50); [reflexivity|lia].
        -- destruct (Z.ltb_spec i 25); [lia|].
           destruct (Z.ltb_spec i 50); [lia|].
           destruct (Z.ltb_spec i 75); [reflexivity|lia].
        -- destruct (Z.ltb_spec i 25); [lia|].
           destruct (Z.ltb_spec i 50); [lia|].
           destruct (Z.ltb_spec i 75); [lia|reflexivity].
Qed.

Lemma generate_random_data_rows_witness :
  (forall a b s, a <= b -> a <= fst (Tape.randint a b s) <= b) /\
  (forall s, (0 <=? fst (Tape.random s))%float = true /\
             (fst (Tape.random s) <? 1)%float = true) /\
  0 <= 100 /\
  let output :=
    generate_random_data Tape.randint Tape.random 51.4459 51.4521 4.1828 4.2032
      100 [142; 2 ^ 52; 5] in
  Z.of_nat (List.length output) = 1 + 100 /\
  Forall Format.one_line output /\
  nth_error output 0 = Some header /\
  forall i,
    0 <= i < 100 ->
    exists r,
      nth_error output (S (Z.to_nat i)) = Some (format_row r) /\
      row_of_index Tape.random 51.4459 51.4521 4.1828 4.2032 i r /\
      (forall v, Float.to_Q (Draw.lat r) = Some v ->
         exists p, Format.f6_value (Draw.lat r) = Some p /\
                   (Qabs (p - v) <= 1 # 2000000)%Q) /\
      (forall v, Float.to_Q (Draw.lon r) = Some v ->
         exists p, Format.f6_value (Draw.lon r) = Some p /\
                   (Qabs (p - v) <= 1 # 2000000)%Q) /\
      (Float.is_finite 51.4459 = true -> Float.is_finite 51.4521 = true ->
       (51.4459 <=? 51.4521)%float = true ->
       Float.is_finite (51.4521 - 51.4459)%float = true ->
       Format.within 51.4459 51.4521 (Draw.lat r)) /\
      (Float.is_finite 4.1828 = true -> Float.is_finite 4.2032 = true ->
       (4.1828 <=? 4.2032)%float = true ->
       Float.is_finite (4.2032 - 4.1828)%float = true ->
       Format.within 4.1828 4.2032 (Draw.lon r)) /\
      (i < 25 -> Draw.method r = "1"%string) /\
      (25 <= i < 50 -> Draw.method r = "2"%string) /\
      (50 <= i < 75 -> Draw.method r = "3"%string) /\
      (75 <= i -> Draw.method r = "4"%string).
Proof.
  split; [exact tape_randint_range|]. split; [exact tape_random_unit|]. split; [lia|].
  apply (generate_random_data_rows Tape.randint Tape.random
           51.4459 51.4521 4.1828 4.2032 100 [142; 2 ^ 52; 5]).
  - exact tape_randint_range.
  - exact tape_random_unit.
  - lia.
Defined.

(** The bounds of the script's survey area are finite and ordered, so
    every coordinate drawn for it lies within them. *)
Example survey_bounds_ordered :
  Float.is_finite 51.4459 = true /\ Float.is_finite 51.4521 = true /\
  (51.4459 <=? 51.4521)%float = true /\
  Float.is_finite (51.4521 - 51.4459)%float = true /\
  Float.is_finite 4.1828 = true /\ Float.is_finite 4.2032 = true /\
  (4.1828 <=? 4.2032)%float = true /\
  Float.is_finite (4.2032 - 4.1828)%float = true.
Proof. repeat split; reflexivity. Qed.

(** ** The grid builder: the planar square *)

(** Whenever the edge length is halved exactly, the side of the square
    around a point measures the edge length up to the rounding of its two
    ends, and the point is in its middle up to the same rounding. *)
Lemma grid_box_side (g x : float) :
  Float.exact_half g -> Float.is_finite x = true ->
  Float.is_finite (x - g / 2)%float = true -> Float.is_finite (x + g / 2)%float = true ->
  Float.measures_nearly g (x - g / 2)%float (x + g / 2)%float x.
Proof.
  unfold Float.exact_half, Float.measures_nearly. intros Hhalf Hx Hlo Hhi.
  destruct (Float.to_Q g) as [edge|] eqn:Hg; [|contradiction].
  destruct (Float.to_Q (g / 2)%float) as [qh|] eqn:Hh; [|contradiction].
  destruct (finite_to_Q _ Hx) as (qx & Hqx).
  destruct (finite_to_Q _ Hlo) as (qlo & Hqlo).
  destruct (finite_to_Q _ Hhi) as (qhi & Hqhi).
  pose proof (sub_error _ _ _ _ _ Hqx Hh Hqlo) as Elo.
  pose proof (add_error _ _ _ _ _ Hqx Hh Hqhi) as Ehi.
  exists edge, qlo, qhi, qx. repeat (split; [reflexivity || assumption|]).
  apply Qabs_Qle_condition in Elo, Ehi.
  set (alo := Qabs qlo) in *. set (ahi := Qabs qhi) in *. clearbody alo ahi.
  unfold Float.unit_roundoff in *.
  split; apply Qabs_Qle_condition; split; lra.
Qed.

(** C3, as stated, fails on the exact side length: around the first
    survey point, with the edge length 0.3, the corners are rounded and
    the planar square is wider than 0.3. *)
Lemma create_grid_df_side_rounded :
  exists gdf grid_df minx miny maxx maxy rest width edge,
    create_grid_df Plate.transformer survey 32631 0.3 = inr (gdf, grid_df) /\
    grid_geometries 0.3 gdf
      = inr ([ (maxx, miny); (maxx, maxy); (minx, maxy); (minx, miny); (maxx, miny) ]
               :: rest) /\
    Float.exact_diff maxx minx = Some width /\
    Float.to_Q 0.3 = Some edge /\
    (edge < width)%Q.
Proof.
  do 9 eexists. split; [vm_compute; reflexivity|].
  split; [vm_compute; reflexivity|].
  split; [vm_compute; reflexivity|].
  split; [vm_compute; reflexivity|].
  vm_compute. reflexivity.
Qed.

(** C3, amended. For every record of a grid that [create_grid_df]
    returns, the planar geometry of its cell is the axis-parallel box
    with the corners [(x - grid_size/2, y - grid_size/2)] and
    [(x + grid_size/2, y + grid_size/2)] around the record's planar point
    [(x, y)], each coordinate computed in double precision: its ring runs
    through [(x + grid_size/2, y - grid_size/2)],
    [(x + grid_size/2, y + grid_size/2)],
    [(x - grid_size/2, y + grid_size/2)] and
    [(x - grid_size/2, y - grid_size/2)], and repeats the first of them
    unless the box has no width. Whenever [grid_size] is halved exactly
    and the coordinates are finite, each side of the box measures
    [grid_size] up to the rounding of its two ends, that is, up to
    [2^-53 * (|lo| + |hi|)] for a side from [lo] to [hi], and the point is
    the centre of the box up to the same rounding. Whenever the corners
    are computed without rounding, both sides measure exactly [grid_size]
    and the point is exactly the centre. *)
Theorem create_grid_df_square_around_point {exn : Type}
    (transformer : Z -> Z -> exn + (Shapely.coord -> exn + Shapely.coord))
    (df : list Sample.row) (utm : Z) (grid_size : float)
    (gdf : GeoDataFrame (Sample.row * Shapely.coord)) (grid_df : GeoDataFrame Grid.row) :
  create_grid_df transformer df utm grid_size = inr (gdf, grid_df) ->
  forall i record,
    nth_error df i = Some record ->
    exists x y c planar,
      nth_error (rows gdf) i = Some (record, (x, y)) /\
      nth_error (rows grid_df) i = Some c /\
      built_from transformer utm grid_size record (x, y) c /\
      grid_box grid_size (x, y) = inr planar /\
      (planar = [ ((x + grid_size / 2)%float, (y - grid_size / 2)%float);
                  ((x + grid_size / 2)%float, (y + grid_size / 2)%float);
                  ((x - grid_size / 2)%float, (y + grid_size / 2)%float);
                  ((x - grid_size / 2)%float, (y - grid_size / 2)%float) ] \/
       planar = [ ((x + grid_size / 2)%float, (y - grid_size / 2)%float);
                  ((x + grid_size / 2)%float, (y + grid_size / 2)%float);
                  ((x - grid_size / 2)%float, (y + grid_size / 2)%float);
                  ((x - grid_size / 2)%float, (y - grid_size / 2)%float);
                  ((x + grid_size / 2)%float, (y - grid_size / 2)%float) ]) /\
      (Float.exact_half grid_size -> Float.is_finite x = true ->
       Float.is_finite (x - grid_size / 2)%float = true ->
       Float.is_finite (x + grid_size / 2)%float = true ->
       Float.measures_nearly grid_size (x - grid_size / 2)%float (x + grid_size / 2)%float x) /\
      (Float.exact_half grid_size -> Float.is_finite y = true ->
       Float.is_finite (y - grid_size / 2)%float = true ->
       Float.is_finite (y + grid_size / 2)%float = true ->
       Float.measures_nearly grid_size (y - grid_size / 2)%float (y + grid_size / 2)%float y) /\
      (Float.exact_half grid_size ->
       Float.exact_sub x (grid_size / 2)%float ->
       Float.exact_add x (grid_size / 2)%float ->
       Float.exact_sub y (grid_size / 2)%float ->
       Float.exact_add y (grid_size / 2)%float ->
       Float.measures grid_size (x - grid_size / 2)%float (x + grid_size / 2)%float x /\
       Float.measures grid_size (y - grid_size / 2)%float (y + grid_size / 2)%float y).
Proof.
  intros Hrun i record Hi.
  destruct (create_grid_df_cells _ _ _ _ _ _ _ Hrun) as (_ & _ & _ & _ & Hcells).
  destruct (Hcells i record Hi) as ([x y] & planar & c & Hp & Hbox & Hc & _ & _ & _ & Hbuilt).
  exists x, y, c, planar. repeat (split; [assumption|]).
  split.
  - unfold grid_box in Hbox. cbn [fst snd] in Hbox.
    destruct (box_ring _ _ _ _ _ Hbox) as (_ & _ & [(_ & ->)|(_ & ->)]); auto.
  - split; [apply grid_box_side|]. split; [apply grid_box_side|].
    intros Hhalf Hsx Hax Hsy Hay.
    split; apply grid_box_exact_side; assumption.
Qed.

Lemma create_grid_df_square_around_point_witness :
  exists gdf grid_df,
    create_grid_df Plate.transformer survey 32631 20 = inr (gdf, grid_df) /\
    forall i record,
      nth_error survey i = Some record ->
      exists x y c planar,
        nth_error (rows gdf) i = Some (record, (x, y)) /\
        nth_error (rows grid_df) i = Some c /\
        built_from Plate.transformer 32631 20 record (x, y) c /\
        grid_box 20 (x, y) = inr planar /\
        (planar = [ ((x + 20 / 2)%float, (y - 20 / 2)%float);
                    ((x + 20 / 2)%float, (y + 20 / 2)%float);
                    ((x - 20 / 2)%float, (y + 20 / 2)%float);
                    ((x - 20 / 2)%float, (y - 20 / 2)%float) ] \/
         planar = [ ((x + 20 / 2)%float, (y - 20 / 2)%float);
                    ((x + 20 / 2)%float, (y + 20 / 2)%float);
                    ((x - 20 / 2)%float, (y + 20 / 2)%float);
                    ((x - 20 / 2)%float, (y - 20 / 2)%float);
                    ((x + 20 / 2)%float, (y - 20 / 2)%float) ]) /\
        (Float.exact_half 20 -> Float.is_finite x = true ->
         Float.is_finite (x - 20 / 2)%float = true ->
         Float.is_finite (x + 20 / 2)%float = true ->
         Float.measures_nearly 20 (x - 20 / 2)%float (x + 20 / 2)%float x) /\
        (Float.exact_half 20 -> Float.is_finite y = true ->
         Float.is_finite (y - 20 / 2)%float = true ->
         Float.is_finite (y + 20 / 2)%float = true ->
         Float.measures_nearly 20 (y - 20 / 2)%float (y + 20 / 2)%float y) /\
        (Float.exact_half 20 ->
         Float.exact_sub x (20 / 2)%float ->
         Float.exact_add x (20 / 2)%float ->
         Float.exact_sub y (20 / 2)%float ->
         Float.exact_add y (20 / 2)%float ->
         Float.measures 20 (x - 20 / 2)%float (x + 20 / 2)%float x /\
         Float.measures 20 (y - 20 / 2)%float (y + 20 / 2)%float y).
Proof.
  eexists; eexists. split; [vm_compute; reflexivity|].
  apply (create_grid_df_square_around_point Plate.transformer survey 32631 20).
  vm_compute. reflexivity.
Defined.

(** With the edge length 0.3 the corners around the first survey point
    are rounded; the edge length is halved exactly and all coordinates are
    finite, so the sides measure 0.3 up to that rounding. *)
Example survey_square_nearly :
  Float.exact_half 0.3 /\
  Float.is_finite 577994.39360000007 = true /\
  Float.is_finite (577994.39360000007 - 0.3 / 2)%float = true /\
  Float.is_finite (577994.39360000007 + 0.3 / 2)%float = true /\
  Float.is_finite 6743667.5071999999 = true /\
  Float.is_finite (6743667.5071999999 - 0.3 / 2)%float = true /\
  Float.is_finite (6743667.5071999999 + 0.3 / 2)%float = true.
Proof.
  split; [vm_compute; reflexivity|].
  repeat (split; [reflexivity|]). reflexivity.
Qed.

(** With the script's edge length of 20 metres the corners of the survey
    squares are computed without rounding, so their sides measure exactly
    20. *)
Example survey_square_exact :
  Float.exact_half 20 /\
  Float.exact_sub 577994.39360000007 (20 / 2)%float /\
  Float.exact_add 577994.39360000007 (20 / 2)%float /\
  Float.exact_sub 6743667.5071999999 (20 / 2)%float /\
  Float.exact_add 6743667.5071999999 (20 / 2)%float.
Proof. repeat split; vm_compute; reflexivity. Qed.

(** ** The grid builder: containment *)






(** ** The grid builder: the boundary ring *)




(** With the script's edge length of 20 metres the survey squares are not
    degenerate: half the edge length exceeds the rounding of the planar
    coordinates by far. *)
Example survey_square_proper :
  ((577994.39360000007 - 20 / 2) <? (577994.39360000007 + 20 / 2))%float = true /\
  ((6743667.5071999999 - 20 / 2) <? (6743667.5071999999 + 20 / 2))%float = true /\
  Float.exceeds_rounding (20 / 2)%float 577994.39360000007 /\
  Float.exceeds_rounding (20 / 2)%float 6743667.5071999999.
Proof.
  split; [reflexivity|]. split; [reflexivity|].
  split; do 2 eexists; (split; [reflexivity|]); (split; [reflexivity|]);
    vm_compute; reflexivity.
Qed.

(** ** Styling: what makes it raise *)

(** X1. [style_function] raises exactly on a feature without a readable
    method: [TypeError] when the feature or its properties are not a
    dict, [KeyError] when the key [properties] or the key [method] is
    missing. A feature with [properties] and [method] never raises. *)
Theorem style_function_raises (feature : value) :
  ((forall d, feature <> VDict d) -> style_function feature = inl TypeError) /\
  (forall d,
     feature = VDict d ->
     (Py.lookup "properties" d = None ->
      style_function feature = inl (KeyError "properties")) /\
     (forall p,
        Py.lookup "properties" d = Some p ->
        ((forall pd, p <> VDict pd) -> style_function feature = inl TypeError) /\
        (forall pd,
           p = VDict pd ->
           (Py.lookup "method" pd = None ->
            style_function feature = inl (KeyError "method")) /\
           (forall m,
              Py.lookup "method" pd = Some m ->
              exists v, style_function feature = inr v)))).
Proof.
  split.
  - intros Hnd. destruct feature; try reflexivity. exfalso. eapply Hnd; reflexivity.
  - intros d ->. split.
    + intros Hp. unfold style_function, feature_method, Py.getitem. rewrite Hp. reflexivity.
    + intros p Hp. split.
      * intros Hnd. unfold style_function, feature_method, Py.getitem. rewrite Hp.
        destruct p; try reflexivity. exfalso. eapply Hnd; reflexivity.
      * intros pd ->. split.
        -- intros Hm. unfold style_function, feature_method, Py.getitem.
           rewrite Hp. cbn [Err.bind]. rewrite Hm. reflexivity.
        -- intros m Hm.
           assert (Hfm : feature_method (VDict d) = inr m).
           { unfold feature_method, Py.getitem. rewrite Hp. cbn [Err.bind]. rewrite Hm.
             reflexivity. }
           rewrite (style_function_unfold _ _ Hfm). eexists; reflexivity.
Qed.

(** ** The features of the grid *)

Section Features.

Variable exn : Type.
Variable transformer : Z -> Z -> exn + (Shapely.coord -> exn + Shapely.coord).

(** The frames that [create_grid_df] returns: [gdf] holds the records as
    they were read, in order, and every row of [grid_df] has the
    properties of its record. *)
Lemma create_grid_df_properties df utm grid_size gdf grid_df :
  create_grid_df transformer df utm grid_size = inr (gdf, grid_df) ->
  map fst (rows gdf) = df /\
  List.length (rows grid_df) = List.length df /\
  forall i record,
    nth_error df i = Some record ->
    exists c,
      nth_error (rows grid_df) i = Some c /\
      GeoJSON.properties c
        = Some (DItem "n_plants" (VInt (Sample.n_seagrass_plants record))
                 (DItem "cell" (VInt (Sample.cell record))
                    (DItem "method" (Sample.method record) DEmpty))).
Proof.
  intros Hrun.
  destruct (create_grid_df_cells _ _ _ _ _ _ _ Hrun) as (_ & _ & Hlen & Hlen' & Hcells).
  split; [|split; [assumption|]].
  - apply nth_error_ext. intros i. rewrite nth_error_map.
    destruct (nth_error df i) as [record|] eqn:Hi.
    + destruct (Hcells i record Hi) as (p & planar & c & Hp & _). rewrite Hp. reflexivity.
    + apply nth_error_None in Hi.
      assert (Hnone : nth_error (rows gdf) i = None) by (apply nth_error_None; lia).
      rewrite Hnone. reflexivity.
  - intros i record Hi.
    destruct (Hcells i record Hi) as (p & planar & c & _ & _ & Hc & Hn & Hk & Hm & _).
    exists c. split; [assumption|]. unfold GeoJSON.properties. rewrite Hn, Hk, Hm.
    reflexivity.
Qed.

End Features.

(** ** The layers of the map *)

(** A feature of a row reads its method like the row. *)
Lemma feature_for_method (c : Grid.row) (feature : value) (n k : Z) (m : value) :
  GeoJSON.properties c
    = Some (DItem "n_plants" (VInt n) (DItem "cell" (VInt k) (DItem "method" m DEmpty))) ->
  GeoJSON.feature_for c feature ->
  feature_method feature = inr m /\
  Choropleth.key_on feature = inr (VInt k) /\
  Hover.tooltip feature
    = inr [("Plot number: "%string, VInt k); ("Method: "%string, m);
           ("Number of plants: "%string, VInt n)].
Proof.
  intros Hc (props & Hprops & Hget). rewrite Hc in Hprops. injection Hprops as <-.
  unfold feature_method, Choropleth.key_on, Hover.tooltip. rewrite Hget.
  repeat split.
Qed.

(** The method that the feature of row [i] carries is the method of
    record [i]. *)
Lemma features_methods {exn : Type}
    (transformer : Z -> Z -> exn + (Shapely.coord -> exn + Shapely.coord))
    (df : list Sample.row) (utm : Z) (grid_size : float)
    (gdf : GeoDataFrame (Sample.row * Shapely.coord)) (grid_df : GeoDataFrame Grid.row)
    (features : list value) (i : nat) (record : Sample.row) (feature : value) :
  create_grid_df transformer df utm grid_size = inr (gdf, grid_df) ->
  Forall2 GeoJSON.feature_for (rows grid_df) features ->
  nth_error df i = Some record ->
  nth_error features i = Some feature ->
  feature_method feature = inr (Sample.method record).
Proof.
  intros Hrun Hfeatures Hi Hf.
  destruct (create_grid_df_properties _ _ _ _ _ _ _ Hrun) as (_ & _ & Hrows).
  destruct (Hrows i record Hi) as (c & Hc & Hprops).
  assert (Hfor : GeoJSON.feature_for c feature).
  { clear - Hfeatures Hc Hf. revert i Hc Hf.
    induction Hfeatures as [|c0 f0 cs fs H0 _ IH]; intros [|i] Hc Hf;
      cbn [nth_error] in *; try discriminate.
    - injection Hc as <-. injection Hf as <-. assumption.
    - eapply IH; eassumption. }
  apply (feature_for_method _ _ _ _ _ Hprops Hfor).
Qed.

(** X2. [create_methods_map] hands the features of [grid_df] and
    [style_function] to [folium.GeoJson], which tries the function on the
    first feature. For a grid that [create_grid_df] returned: when the
    method of the first record equals one of the integers 1 to 4 the
    layer is made, and when it equals none of them the constructor raises
    [ValueError]; without any record the layer is made empty. The feature
    of the cell of a record carries the record's own method, so
    [style_function] gives it the colour of that method, orange, red, blue
    or Yellow for 1 to 4, with weight 4, and [None] for a method equal to
    none of them. *)
Theorem create_methods_map_styles {exn : Type}
    (transformer : Z -> Z -> exn + (Shapely.coord -> exn + Shapely.coord))
    (df : list Sample.row) (utm : Z) (grid_size : float)
    (gdf : GeoDataFrame (Sample.row * Shapely.coord)) (grid_df : GeoDataFrame Grid.row)
    (features : list value) :
  create_grid_df transformer df utm grid_size = inr (gdf, grid_df) ->
  Forall2 GeoJSON.feature_for (rows grid_df) features ->
  (df = [] -> create_methods_map features = inr []) /\
  (forall first records,
     df = first :: records ->
     ((exists k, 1 <= k <= 4 /\ Py.eq_int (Sample.method first) k = true) ->
      create_methods_map features = inr features) /\
     ((forall k, 1 <= k <= 4 -> Py.eq_int (Sample.method first) k = false) ->
      create_methods_map features = inl Folium.ValueError)) /\
  (forall i record feature,
     nth_error df i = Some record ->
     nth_error features i = Some feature ->
     feature_method feature = inr (Sample.method record) /\
     (Sample.method record = VInt 1 ->
      style_function feature
        = inr (VDict (DItem "color" (VStr "orange") (DItem "weight" (VInt 4) DEmpty)))) /\
     (Sample.method record = VInt 2 ->
      style_function feature
        = inr (VDict (DItem "color" (VStr "red") (DItem "weight" (VInt 4) DEmpty)))) /\
     (Sample.method record = VInt 3 ->
      style_function feature
        = inr (VDict (DItem "color" (VStr "blue") (DItem "weight" (VInt 4) DEmpty)))) /\
     (Sample.method record = VInt 4 ->
      style_function feature
        = inr (VDict (DItem "color" (VStr "Yellow") (DItem "weight" (VInt 4) DEmpty)))) /\
     ((forall k, 1 <= k <= 4 -> Py.eq_int (Sample.method record) k = false) ->
      style_function feature = inr VNone)).
Proof.
  intros Hrun Hfeatures.
  destruct (create_grid_df_properties _ _ _ _ _ _ _ Hrun) as (_ & Hlen & _).
  pose proof (Forall2_length Hfeatures) as Hlen'.
  split; [|split].
  - intros ->. destruct features; [reflexivity|]. cbn in *. lia.
  - intros first records ->.
    destruct features as [|feature features']; [cbn in *; lia|].
    pose proof (features_methods transformer _ _ _ _ _ _ 0%nat first feature
                  Hrun Hfeatures eq_refl eq_refl) as Hm.
    unfold create_methods_map, Folium.GeoJson.
    rewrite (style_function_unfold _ _ Hm). split.
    + intros (k & Hk & Heq).
      assert (Hcases : k = 1 \/ k = 2 \/ k = 3 \/ k = 4) by lia.
      destruct (Py.eq_int (Sample.method first) 1) eqn:H1; [reflexivity|].
      destruct (Py.eq_int (Sample.method first) 2) eqn:H2; [reflexivity|].
      destruct (Py.eq_int (Sample.method first) 3) eqn:H3; [reflexivity|].
      destruct (Py.eq_int (Sample.method first) 4) eqn:H4; [reflexivity|].
      destruct Hcases as [-> | [-> | [-> | ->]]]; congruence.
    + intros Hnone. rewrite !Hnone by lia. reflexivity.
  - intros i record feature Hi Hf.
    pose proof (features_methods transformer _ _ _ _ _ _ i record feature
                  Hrun Hfeatures Hi Hf) as Hm.
    split; [assumption|].
    rewrite (style_function_unfold _ _ Hm).
    repeat split; try (intros ->; reflexivity).
    intros Hnone. rewrite !Hnone by lia. reflexivity.
Qed.

Lemma create_methods_map_styles_witness :
  exists gdf grid_df features,
    create_grid_df Plate.transformer survey 32631 20 = inr (gdf, grid_df) /\
    Forall2 GeoJSON.feature_for (rows grid_df) features /\
    (survey = [] -> create_methods_map features = inr []) /\
    (forall first records,
       survey = first :: records ->
       ((exists k, 1 <= k <= 4 /\ Py.eq_int (Sample.method first) k = true) ->
        create_methods_map features = inr features) /\
       ((forall k, 1 <= k <= 4 -> Py.eq_int (Sample.method first) k = false) ->
        create_methods_map features = inl Folium.ValueError)) /\
    (forall i record feature,
       nth_error survey i = Some record ->
       nth_error features i = Some feature ->
       feature_method feature = inr (Sample.method record) /\
       (Sample.method record = VInt 1 ->
        style_function feature
        = inr (VDict (DItem "color" (VStr "orange") (DItem "weight" (VInt 4) DEmpty)))) /\
       (Sample.method record = VInt 2 ->
        style_function feature
        = inr (VDict (DItem "color" (VStr "red") (DItem "weight" (VInt 4) DEmpty)))) /\
       (Sample.method record = VInt 3 ->
        style_function feature
        = inr (VDict (DItem "color" (VStr "blue") (DItem "weight" (VInt 4) DEmpty)))) /\
       (Sample.method record = VInt 4 ->
        style_function feature
        = inr (VDict (DItem "color" (VStr "Yellow") (DItem "weight" (VInt 4) DEmpty)))) /\
       ((forall k, 1 <= k <= 4 -> Py.eq_int (Sample.method record) k = false) ->
        style_function feature = inr VNone)).
Proof.
  eexists; eexists. exists [feature_of 1 42 (VInt 2); feature_of 2 7 (VInt 3)].
  split; [vm_compute; reflexivity|].
  split; [repeat constructor; eexists; split; reflexivity|].
  eapply (create_methods_map_styles Plate.transformer survey 32631 20).
  - vm_compute. reflexivity.
  - repeat constructor; eexists; split; reflexivity.
Defined.

(** X3. The tooltip of [create_hover_data]: for every record of a grid
    that [create_grid_df] returned, the three fields the tooltip asks for
    are properties of the feature of the record's cell, and the tooltip
    shows the record's identifier as plot number, its method as method
    and its plant count as number of plants. *)
Theorem create_hover_data_tooltip {exn : Type}
    (transformer : Z -> Z -> exn + (Shapely.coord -> exn + Shapely.coord))
    (df : list Sample.row) (utm : Z) (grid_size : float)
    (gdf : GeoDataFrame (Sample.row * Shapely.coord)) (grid_df : GeoDataFrame Grid.row) :
  create_grid_df transformer df utm grid_size = inr (gdf, grid_df) ->
  forall i record,
    nth_error df i = Some record ->
    exists c,
      nth_error (rows grid_df) i = Some c /\
      forall feature,
        GeoJSON.feature_for c feature ->
        Hover.tooltip feature
          = inr [("Plot number: "%string, VInt (Sample.cell record));
                 ("Method: "%string, Sample.method record);
                 ("Number of plants: "%string, VInt (Sample.n_seagrass_plants record))].
Proof.
  intros Hrun i record Hi.
  destruct (create_grid_df_properties _ _ _ _ _ _ _ Hrun) as (_ & _ & Hrows).
  destruct (Hrows i record Hi) as (c & Hc & Hprops).
  exists c. split; [assumption|]. intros feature Hf.
  apply (feature_for_method _ _ _ _ _ Hprops Hf).
Qed.

Lemma create_hover_data_tooltip_witness :
  exists gdf grid_df,
    create_grid_df Plate.transformer survey 32631 20 = inr (gdf, grid_df) /\
    forall i record,
      nth_error survey i = Some record ->
      exists c,
        nth_error (rows grid_df) i = Some c /\
        forall feature,
          GeoJSON.feature_for c feature ->
          Hover.tooltip feature
            = inr [("Plot number: "%string, VInt (Sample.cell record));
                   ("Method: "%string, Sample.method record);
                   ("Number of plants: "%string, VInt (Sample.n_seagrass_plants record))].
Proof.
  eexists; eexists. split; [vm_compute; reflexivity|].
  eapply (create_hover_data_tooltip Plate.transformer survey 32631 20).
  vm_compute. reflexivity.
Defined.

(** X4. The colours of [create_seagrass_map]: for a grid that
    [create_grid_df] returned and records of which no two share an
    identifier, the key of the feature of a record's cell is the record's
    identifier, and the only value that the data frame [gdf] holds under
    that key is the record's own plant count. *)
Theorem create_seagrass_map_binds {exn : Type}
    (transformer : Z -> Z -> exn + (Shapely.coord -> exn + Shapely.coord))
    (df : list Sample.row) (utm : Z) (grid_size : float)
    (gdf : GeoDataFrame (Sample.row * Shapely.coord)) (grid_df : GeoDataFrame Grid.row) :
  create_grid_df transformer df utm grid_size = inr (gdf, grid_df) ->
  NoDup (map Sample.cell df) ->
  forall i record,
    nth_error df i = Some record ->
    exists c,
      nth_error (rows grid_df) i = Some c /\
      forall feature,
        GeoJSON.feature_for c feature ->
        Choropleth.key_on feature = inr (VInt (Sample.cell record)) /\
        forall v,
          Choropleth.binds (Choropleth.columns gdf) (VInt (Sample.cell record)) v
          <-> v = Sample.n_seagrass_plants record.
Proof.
  intros Hrun Hnodup i record Hi.
  destruct (create_grid_df_properties _ _ _ _ _ _ _ Hrun) as (Hrecords & _ & Hrows).
  destruct (Hrows i record Hi) as (c & Hc & Hprops).
  exists c. split; [assumption|]. intros feature Hf.
  destruct (feature_for_method _ _ _ _ _ Hprops Hf) as (_ & Hkey & _).
  split; [assumption|]. intros v.
  assert (Hcols : Choropleth.columns gdf
                  = map (fun r => (Sample.cell r, Sample.n_seagrass_plants r)) df).
  { unfold Choropleth.columns. rewrite <- Hrecords, map_map. reflexivity. }
  rewrite Hcols. unfold Choropleth.binds. split.
  - intros (k & Hk & Hin). injection Hk as <-.
    apply in_map_iff in Hin. destruct Hin as (r & Hr & Hin). injection Hr as Hcell <-.
    apply In_nth_error in Hin. destruct Hin as (j & Hj).
    assert (Hij : j = i).
    { apply (proj1 (NoDup_nth_error (map Sample.cell df)) Hnodup).
      - rewrite length_map. apply nth_error_Some. congruence.
      - rewrite !nth_error_map, Hi, Hj. cbn. congruence. }
    subst j. congruence.
  - intros ->. exists (Sample.cell record). split; [reflexivity|].
    apply in_map_iff. exists record. split; [reflexivity|].
    eapply nth_error_In; eassumption.
Qed.

Lemma create_seagrass_map_binds_witness :
  exists gdf grid_df,
    create_grid_df Plate.transformer survey 32631 20 = inr (gdf, grid_df) /\
    NoDup (map Sample.cell survey) /\
    forall i record,
      nth_error survey i = Some record ->
      exists c,
        nth_error (rows grid_df) i = Some c /\
        forall feature,
          GeoJSON.feature_for c feature ->
          Choropleth.key_on feature = inr (VInt (Sample.cell record)) /\
          forall v,
            Choropleth.binds (Choropleth.columns gdf) (VInt (Sample.cell record)) v
            <-> v = Sample.n_seagrass_plants record.
Proof.
  assert (Hnodup : NoDup (map Sample.cell survey)).
  { cbn. repeat constructor; cbn; intuition discriminate. }
  eexists; eexists. split; [vm_compute; reflexivity|]. split; [exact Hnodup|].
  apply (create_seagrass_map_binds Plate.transformer survey 32631 20).
  - vm_compute. reflexivity.
  - exact Hnodup.
Defined.

(** ** The grid builder on joined tables *)

Section Tables.

Import Shapely.

Variable exn : Type.
Variable transformer : Z -> Z -> exn + (coord -> exn + coord).

Lemma mapM_app {E A B : Type} (f : A -> E + B) (l1 l2 : list A) :
  Err.mapM f (l1 ++ l2) =
    match Err.mapM f l1 with
    | inl e => inl e
    | inr r1 =>
        match Err.mapM f l2 with
        | inl e => inl e
        | inr r2 => inr (r1 ++ r2)
        end
    end.
Proof.
  induction l1 as [|a l1 IH]; cbn [Err.mapM app].
  - destruct (Err.mapM f l2); reflexivity.
  - destruct (f a) as [e|b]; [reflexivity|]. rewrite IH.
    destruct (Err.mapM f l1) as [e|r1]; [reflexivity|].
    destruct (Err.mapM f l2); reflexivity.
Qed.

Lemma seagrass_app (df1 df2 : list Sample.row) :
  combine (df1 ++ df2) (points (df1 ++ df2))
    = combine df1 (points df1) ++ combine df2 (points df2).
Proof.
  unfold points. induction df1 as [|r df1 IH]; cbn; [reflexivity|]. now rewrite IH.
Qed.

(** The columns of a joined table are laid beside the joined rings when
    the first part has one ring per record. *)
Lemma add_columns_app (df1 df2 : list Sample.row) (rings1 rings2 : list (list coord)) :
  List.length rings1 = List.length df1 ->
  add_columns (df1 ++ df2) (rings1 ++ rings2)
    = add_columns df1 rings1 ++ add_columns df2 rings2.
Proof.
  intros Hlen. apply nth_error_ext. intros i.
  pose proof (add_columns_length df1 rings1) as L1.
  pose proof (add_columns_length df2 rings2) as L2.
  pose proof (add_columns_length (df1 ++ df2) (rings1 ++ rings2)) as L12.
  unfold polygon in *. rewrite length_app in L12.
  destruct (Nat.lt_ge_cases i (List.length rings1)) as [Hlt|Hge].
  - destruct (nth_error rings1 i) as [ring|] eqn:Hring;
      [|apply nth_error_None in Hring; lia].
    rewrite (add_columns_nth_error (df1 ++ df2) (rings1 ++ rings2) i ring)
      by (rewrite nth_error_app1 by assumption; assumption).
    rewrite (nth_error_app1 (add_columns df1 rings1)) by lia.
    rewrite (add_columns_nth_error df1 rings1 i ring Hring).
    rewrite (nth_error_app1 df1) by lia. reflexivity.
  - rewrite (nth_error_app2 (add_columns df1 rings1)) by lia.
    rewrite L1.
    destruct (nth_error rings2 (i - List.length rings1)) as [ring|] eqn:Hring.
    + rewrite (add_columns_nth_error (df1 ++ df2) (rings1 ++ rings2) i ring)
        by (rewrite nth_error_app2 by assumption; assumption).
      rewrite (add_columns_nth_error df2 rings2 _ ring Hring).
      rewrite (nth_error_app2 df1) by lia. rewrite Hlen. reflexivity.
    + apply nth_error_None in Hring.
      assert (H1 : nth_error (add_columns (df1 ++ df2) (rings1 ++ rings2)) i = None)
        by (apply nth_error_None; lia).
      assert (H2 : nth_error (add_columns df2 rings2) (i - List.length rings1) = None)
        by (apply nth_error_None; lia).
      congruence.
Qed.

End Tables.

(** X5. [create_grid_df] on a table joined from two parts: it returns
    exactly when it returns on both parts, and then both frames are the
    frames of the parts, one after the other. A cell does not depend on
    the records around it. *)
Theorem create_grid_df_app {exn : Type}
    (transformer : Z -> Z -> exn + (Shapely.coord -> exn + Shapely.coord))
    (df1 df2 : list Sample.row) (utm : Z) (grid_size : float)
    (out : GeoDataFrame (Sample.row * Shapely.coord) * GeoDataFrame Grid.row) :
  create_grid_df transformer (df1 ++ df2) utm grid_size = inr out <->
  exists gdf1 grid1 gdf2 grid2,
    create_grid_df transformer df1 utm grid_size = inr (gdf1, grid1) /\
    create_grid_df transformer df2 utm grid_size = inr (gdf2, grid2) /\
    out = (mkGDF utm (rows gdf1 ++ rows gdf2), mkGDF 4326 (rows grid1 ++ rows grid2)).
Proof.
  rewrite !create_grid_df_steps.
  destruct (transformer 4326 utm) as [e|fwd].
  { split; [discriminate|]. intros (? & ? & ? & ? & H & _). discriminate. }
  rewrite seagrass_app, mapM_app.
  destruct (Err.mapM (project_row fwd) (combine df1 (points df1))) as [e|rs1] eqn:Hrs1.
  { split; [discriminate|]. intros (? & ? & ? & ? & H & _). discriminate. }
  destruct (Err.mapM (project_row fwd) (combine df2 (points df2))) as [e|rs2] eqn:Hrs2.
  { split; [discriminate|]. intros (? & ? & ? & ? & _ & H & _). discriminate. }
  rewrite mapM_app.
  destruct (Err.mapM (fun rp => grid_box grid_size (snd rp)) rs1) as [e|boxes1] eqn:Hboxes1.
  { split; [discriminate|]. intros (? & ? & ? & ? & H & _). discriminate. }
  destruct (Err.mapM (fun rp => grid_box grid_size (snd rp)) rs2) as [e|boxes2] eqn:Hboxes2.
  { split; [discriminate|]. intros (? & ? & ? & ? & _ & H & _). discriminate. }
  destruct (transformer utm 4326) as [e|bwd].
  { split; [discriminate|]. intros (? & ? & ? & ? & H & _). discriminate. }
  rewrite mapM_app.
  destruct (Err.mapM (Err.mapM bwd) boxes1) as [e|rings1] eqn:Hrings1.
  { split; [discriminate|]. intros (? & ? & ? & ? & H & _). discriminate. }
  destruct (Err.mapM (Err.mapM bwd) boxes2) as [e|rings2] eqn:Hrings2.
  { split; [discriminate|]. intros (? & ? & ? & ? & _ & H & _). discriminate. }
  assert (Hlen : List.length rings1 = List.length df1).
  { etransitivity; [symmetry; apply (add_columns_length df1 rings1)|].
    eapply passes_length; eassumption. }
  rewrite (add_columns_app df1 df2 rings1 rings2 Hlen).
  split.
  - intros H. injection H as <-. do 4 eexists. repeat split.
  - intros (gdf1 & grid1 & gdf2 & grid2 & H1 & H2 & ->).
    injection H1 as <- <-. injection H2 as <- <-. reflexivity.
Qed.

(** ** Signs and zeros of the edge length *)

(** Half of the opposite is the opposite of the half. *)
Lemma opp_half (g : float) : (- g / 2 = - (g / 2))%float.
Proof.
  apply Prim2SF_inj. rewrite opp_spec, !div_spec, opp_spec.
  change (Prim2SF 2) with (S754_finite false 4503599627370496 (-51)).
  destruct (Prim2SF g) as [s|s| |s m e]; try reflexivity; cbn [SFopp SF64div SFdiv].
  - destruct s; reflexivity.
  - destruct s; reflexivity.
  - destruct (SFdiv_core_binary _ _ _ _ _ _) as [[mz ez] lz].
    rewrite !xorb_false_r. apply binary_round_aux_opp.
Qed.

Lemma SFsub_opp (x y : spec_float) :
  SFsub prec emax x (SFopp y) = SFadd prec emax x y.
Proof.
  destruct x as [sx|sx| |sx mx ex], y as [sy|sy| |sy my ey]; try reflexivity;
    cbn [SFopp SFsub SFadd]; rewrite ?negb_involutive; try reflexivity;
    destruct sx, sy; reflexivity.
Qed.

Lemma SFadd_opp (x y : spec_float) :
  SFadd prec emax x (SFopp y) = SFsub prec emax x y.
Proof.
  destruct x as [sx|sx| |sx mx ex], y as [sy|sy| |sy my ey]; try reflexivity;
    cbn [SFopp SFsub SFadd]; try reflexivity;
    destruct sx, sy; reflexivity.
Qed.

Lemma sub_opp (x h : float) : (x - - h = x + h)%float.
Proof. apply Prim2SF_inj. rewrite sub_spec, opp_spec, add_spec. apply SFsub_opp. Qed.

Lemma add_opp (x h : float) : (x + - h = x - h)%float.
Proof. apply Prim2SF_inj. rewrite add_spec, opp_spec, sub_spec. apply SFadd_opp. Qed.

Lemma sub_zero (x : float) : (x - 0 = x)%float.
Proof.
  apply Prim2SF_inj. rewrite sub_spec.
  change (Prim2SF 0) with (S754_zero false).
  destruct (Prim2SF x) as [[|]|s| |s m e]; reflexivity.
Qed.

(** Adding zero changes nothing but the sign of a negative zero. *)
Lemma add_zero (x : float) : Prim2SF x <> S754_zero true -> (x + 0 = x)%float.
Proof.
  intros Hx. apply Prim2SF_inj. rewrite add_spec.
  change (Prim2SF 0) with (S754_zero false).
  destruct (Prim2SF x) as [[|]|s| |s m e]; try reflexivity. congruence.
Qed.

(** A NaN added to anything is a NaN. *)
Lemma add_nan_r (x h : float) :
  (h =? h)%float = false -> (x + h =? x + h)%float = false.
Proof.
  rewrite !eqb_nan, add_spec. intros ->. destruct (Prim2SF x); reflexivity.
Qed.

Section Edges.

Import Shapely.

Variable exn : Type.

(** The square of the opposite edge length around a finite point has the
    same corners, and its ring starts at the opposite one. *)
Lemma grid_box_opp (g : float) (p : coord) (planar : list coord) :
  Float.is_finite (fst p) = true -> Float.is_finite (snd p) = true ->
  grid_box g p = inr planar ->
  grid_box (- g) p = inr (opposite_start planar) /\
  exists c0 c1 c2 c3, planar = [c0; c1; c2; c3] \/ planar = [c0; c1; c2; c3; c0].
Proof.
  intros Hx Hy. unfold grid_box.
  rewrite opp_half, !sub_opp, !add_opp.
  set (h := (g / 2)%float). intros Hbox.
  destruct (box_ring _ _ _ _ _ Hbox) as (Hminy & Hmaxx & Hcases).
  assert (Hh : (h =? h)%float = true).
  { destruct (h =? h)%float eqn:E; [reflexivity|].
    rewrite (add_nan_r (fst p) h E) in Hmaxx. discriminate. }
  pose proof (sub_not_nan _ _ Hx Hh) as Hminx.
  pose proof (add_not_nan _ _ Hy Hh) as Hmaxy.
  destruct Hcases as [(Hflat & ->)|(Hwide & ->)].
  - split; [|do 4 eexists; left; reflexivity].
    cbn [opposite_start]. apply box_collapsed; [|assumption].
    rewrite eqb_sym. assumption.
  - split; [|do 4 eexists; right; reflexivity].
    cbn [opposite_start]. apply box_wide; try assumption.
    rewrite eqb_sym. assumption.
Qed.

Lemma mapM_grid_box_opp (g : float) (rs : list (Sample.row * coord))
    (boxes : list (list coord)) :
  Forall (fun rp : Sample.row * coord =>
            Float.is_finite (fst (snd rp)) = true /\
            Float.is_finite (snd (snd rp)) = true) rs ->
  Err.mapM (fun rp => grid_box g (snd rp)) rs = inr boxes ->
  Err.mapM (fun rp => grid_box (- g) (snd rp)) rs = inr (map opposite_start boxes) /\
  Forall (fun planar =>
            exists c0 c1 c2 c3,
              planar = [c0; c1; c2; c3] \/ planar = [c0; c1; c2; c3; c0]) boxes.
Proof.
  intros Hfin. revert boxes.
  induction Hfin as [|rp rs [Hx Hy] _ IH]; intros boxes.
  - cbn. intros H; injection H as <-. split; [reflexivity|constructor].
  - cbn [Err.mapM].
    destruct (grid_box g (snd rp)) as [e|planar] eqn:Hbox; [discriminate|].
    destruct (Err.mapM (fun rp => grid_box g (snd rp)) rs) as [e|boxes'] eqn:Hboxes;
      [discriminate|].
    intros H; injection H as <-.
    destruct (IH boxes' eq_refl) as [IH1 IH2]. rewrite IH1.
    destruct (grid_box_opp g (snd rp) planar Hx Hy Hbox) as [-> Hshape].
    split; [reflexivity|]. constructor; assumption.
Qed.

Lemma mapM_rings_opp (bwd : coord -> exn + coord) (boxes rings : list (list coord)) :
  Forall (fun planar =>
            exists c0 c1 c2 c3,
              planar = [c0; c1; c2; c3] \/ planar = [c0; c1; c2; c3; c0]) boxes ->
  Err.mapM (Err.mapM bwd) boxes = inr rings ->
  Err.mapM (Err.mapM bwd) (map opposite_start boxes) = inr (map opposite_start rings) /\
  Forall (fun ring =>
            exists v0 v1 v2 v3,
              ring = [v0; v1; v2; v3] \/ ring = [v0; v1; v2; v3; v0]) rings.
Proof.
  intros Hshape. revert rings.
  induction Hshape as [|planar boxes (c0 & c1 & c2 & c3 & Hplanar) _ IH]; intros rings.
  - cbn. intros H; injection H as <-. split; [reflexivity|constructor].
  - cbn [map Err.mapM].
    destruct (Err.mapM bwd planar) as [e|ring] eqn:Hring; [discriminate|].
    destruct (Err.mapM (Err.mapM bwd) boxes) as [e|rings'] eqn:Hrings; [discriminate|].
    intros H; injection H as <-.
    destruct (IH rings' eq_refl) as [IH1 IH2]. rewrite IH1.
    destruct Hplanar as [->| ->].
    + destruct (mapM_ring4 _ _ _ _ _ _ Hring) as (v0 & v1 & v2 & v3 & -> & H0 & H1 & H2 & H3).
      cbn [opposite_start Err.mapM]. rewrite H2, H3, H0, H1.
      split; [reflexivity|]. constructor; [|assumption].
      exists v0, v1, v2, v3. left. reflexivity.
    + destruct (mapM_ring5 _ _ _ _ _ _ Hring) as (v0 & v1 & v2 & v3 & -> & H0 & H1 & H2 & H3).
      cbn [opposite_start Err.mapM]. rewrite H2, H3, H0, H1.
      split; [reflexivity|]. constructor; [|assumption].
      exists v0, v1, v2, v3. right. reflexivity.
Qed.

(** The square of edge length zero around a point other than a negative
    zero. *)
Lemma grid_box_zero (p : coord) :
  Prim2SF (fst p) <> S754_zero true -> Prim2SF (snd p) <> S754_zero true ->
  grid_box 0 p = box (fst p) (snd p) (fst p) (snd p).
Proof.
  intros Hx Hy. unfold grid_box.
  change (0 / 2)%float with 0%float.
  rewrite !sub_zero, !add_zero by assumption. reflexivity.
Qed.

End Edges.

(** X6. A negative edge length is accepted and gives the squares of its
    absolute value. Whenever [create_grid_df] returns for [grid_size] and
    the planar points are finite, it returns for [- grid_size] as well,
    with the same planar frame and, cell by cell, the same columns and
    the same corners in the same cyclic order, the ring started at the
    opposite corner: a ring [v0, v1, v2, v3, v0] becomes
    [v2, v3, v0, v1, v2], and the ring [v0, v1, v2, v3] of a box without
    width becomes [v2, v3, v0, v1]. *)
Theorem create_grid_df_opposite_edge {exn : Type}
    (transformer : Z -> Z -> exn + (Shapely.coord -> exn + Shapely.coord))
    (df : list Sample.row) (utm : Z) (grid_size : float)
    (gdf : GeoDataFrame (Sample.row * Shapely.coord)) (grid_df : GeoDataFrame Grid.row) :
  create_grid_df transformer df utm grid_size = inr (gdf, grid_df) ->
  Forall (fun rp : Sample.row * Shapely.coord =>
            Float.is_finite (fst (snd rp)) = true /\
            Float.is_finite (snd (snd rp)) = true) (rows gdf) ->
  exists grid_df',
    create_grid_df transformer df utm (- grid_size) = inr (gdf, grid_df') /\
    crs grid_df' = crs grid_df /\
    List.length (rows grid_df') = List.length (rows grid_df) /\
    forall i c,
      nth_error (rows grid_df) i = Some c ->
      exists v0 v1 v2 v3,
        (Grid.geometry c = [v0; v1; v2; v3; v0] /\
         nth_error (rows grid_df') i
           = Some (Grid.mk [v2; v3; v0; v1; v2] (Grid.n_plants c) (Grid.cell c)
                     (Grid.method c))) \/
        (Grid.geometry c = [v0; v1; v2; v3] /\
         nth_error (rows grid_df') i
           = Some (Grid.mk [v2; v3; v0; v1] (Grid.n_plants c) (Grid.cell c)
                     (Grid.method c))).
Proof.
  rewrite !create_grid_df_steps.
  destruct (transformer 4326 utm) as [e|fwd]; [discriminate|].
  destruct (Err.mapM (project_row fwd) (combine df (points df))) as [e|rs]; [discriminate|].
  destruct (Err.mapM (fun rp => grid_box grid_size (snd rp)) rs) as [e|boxes] eqn:Hboxes;
    [discriminate|].
  destruct (transformer utm 4326) as [e|bwd]; [discriminate|].
  destruct (Err.mapM (Err.mapM bwd) boxes) as [e|rings] eqn:Hrings; [discriminate|].
  intros H; injection H as <- <-. cbn [rows]. intros Hfin.
  destruct (mapM_grid_box_opp _ _ _ Hfin Hboxes) as [Hboxes' Hshape]. rewrite Hboxes'.
  destruct (mapM_rings_opp _ _ _ _ Hshape Hrings) as [Hrings' Hshape']. rewrite Hrings'.
  eexists. split; [reflexivity|]. cbn [crs rows]. split; [reflexivity|]. split.
  - pose proof (add_columns_length df rings) as L1.
    pose proof (add_columns_length df (map opposite_start rings)) as L2.
    rewrite length_map in L2. unfold Shapely.polygon in *. rewrite L1, L2. reflexivity.
  - intros i c Hc.
    assert (Hi : (i < List.length rings)%nat).
    { assert (Hlt : (i < List.length (add_columns df rings))%nat)
        by (apply nth_error_Some; rewrite Hc; discriminate).
      pose proof (add_columns_length df rings) as L1.
      unfold Shapely.polygon in *. lia. }
    destruct (nth_error rings i) as [ring|] eqn:Hring;
      [|apply nth_error_None in Hring; lia].
    rewrite (add_columns_nth_error df rings i ring Hring) in Hc. injection Hc as <-.
    rewrite Forall_forall in Hshape'.
    assert (Hturn : nth_error (map opposite_start rings) i = Some (opposite_start ring)).
    { rewrite nth_error_map. unfold Shapely.polygon in *. rewrite Hring. reflexivity. }
    rewrite (add_columns_nth_error df (map opposite_start rings) i _ Hturn).
    destruct (Hshape' ring (nth_error_In _ _ Hring)) as (v0 & v1 & v2 & v3 & [->| ->]);
      exists v0, v1, v2, v3; [right|left]; split; reflexivity.
Qed.

Lemma create_grid_df_opposite_edge_witness :
  exists gdf grid_df,
    create_grid_df Plate.transformer survey 32631 20 = inr (gdf, grid_df) /\
    Forall (fun rp : Sample.row * Shapely.coord =>
              Float.is_finite (fst (snd rp)) = true /\
              Float.is_finite (snd (snd rp)) = true) (rows gdf) /\
    exists grid_df',
      create_grid_df Plate.transformer survey 32631 (- 20) = inr (gdf, grid_df') /\
      crs grid_df' = crs grid_df /\
      List.length (rows grid_df') = List.length (rows grid_df) /\
      forall i c,
        nth_error (rows grid_df) i = Some c ->
        exists v0 v1 v2 v3,
          (Grid.geometry c = [v0; v1; v2; v3; v0] /\
           nth_error (rows grid_df') i
             = Some (Grid.mk [v2; v3; v0; v1; v2] (Grid.n_plants c) (Grid.cell c)
                       (Grid.method c))) \/
          (Grid.geometry c = [v0; v1; v2; v3] /\
           nth_error (rows grid_df') i
             = Some (Grid.mk [v2; v3; v0; v1] (Grid.n_plants c) (Grid.cell c)
                       (Grid.method c))).
Proof.
  eexists; eexists. split; [vm_compute; reflexivity|].
  assert (Hfin :
    Forall (fun rp : Sample.row * Shapely.coord =>
              Float.is_finite (fst (snd rp)) = true /\
              Float.is_finite (snd (snd rp)) = true)
      [ (Sample.mk 1 51.4501 4.1901 42 (VInt 2),
         (577994.39360000007%float, 6743667.5071999999%float));
        (Sample.mk 2 51.4513 4.1922 7 (VInt 3),
         (578132.01919999998%float, 6743824.7936000004%float)) ]).
  { repeat constructor. }
  split; [exact Hfin|].
  apply (create_grid_df_opposite_edge Plate.transformer survey 32631 20).
  - vm_compute. reflexivity.
  - exact Hfin.
Defined.

(** X7. The edge length zero is accepted and gives cells without
    extent: for every record of a grid that [create_grid_df] returns for
    it, the ring of the record's cell is one vertex four times over, the
    backward image of the record's planar point (whose coordinates are
    not the negative zero). *)
Theorem create_grid_df_zero_edge {exn : Type}
    (transformer : Z -> Z -> exn + (Shapely.coord -> exn + Shapely.coord))
    (df : list Sample.row) (utm : Z)
    (gdf : GeoDataFrame (Sample.row * Shapely.coord)) (grid_df : GeoDataFrame Grid.row) :
  create_grid_df transformer df utm 0 = inr (gdf, grid_df) ->
  forall i record,
    nth_error df i = Some record ->
    exists p c,
      nth_error (rows gdf) i = Some (record, p) /\
      nth_error (rows grid_df) i = Some c /\
      (Prim2SF (fst p) <> S754_zero true -> Prim2SF (snd p) <> S754_zero true ->
       exists bwd v,
         transformer utm 4326 = inr bwd /\ bwd p = inr v /\
         grid_box 0 p = inr [p; p; p; p] /\
         Grid.geometry c = [v; v; v; v]).
Proof.
  intros Hrun i record Hi.
  destruct (create_grid_df_cells _ _ _ _ _ _ _ Hrun) as (_ & _ & _ & _ & Hcells).
  destruct (Hcells i record Hi) as (p & planar & c & Hp & Hbox & Hc & _ & _ & _ & Hbuilt).
  exists p, c. split; [assumption|]. split; [assumption|].
  intros Hx Hy.
  destruct Hbuilt as (fwd & bwd & planar' & _ & Hbwd & _ & Hbox' & Hring).
  assert (planar' = planar) by congruence. subst planar'.
  rewrite (grid_box_zero p Hx Hy) in Hbox.
  destruct (box_ring _ _ _ _ _ Hbox) as (_ & Hnum & [(_ & ->)|(Hne & _)]);
    [|congruence].
  destruct (mapM_ring4 _ _ _ _ _ _ Hring) as (v0 & v1 & v2 & v3 & Hgeo & H0 & H1 & H2 & H3).
  rewrite <- surjective_pairing in *.
  exists bwd, v0. split; [assumption|]. split; [assumption|].
  split; [rewrite (grid_box_zero p Hx Hy); exact Hbox|].
  assert (v1 = v0) by congruence. assert (v2 = v0) by congruence.
  assert (v3 = v0) by congruence. subst. assumption.
Qed.

Lemma create_grid_df_zero_edge_witness :
  exists gdf grid_df,
    create_grid_df Plate.transformer survey 32631 0 = inr (gdf, grid_df) /\
    forall i record,
      nth_error survey i = Some record ->
      exists p c,
        nth_error (rows gdf) i = Some (record, p) /\
        nth_error (rows grid_df) i = Some c /\
        (Prim2SF (fst p) <> S754_zero true -> Prim2SF (snd p) <> S754_zero true ->
         exists bwd v,
           Plate.transformer 32631 4326 = inr bwd /\ bwd p = inr v /\
           grid_box 0 p = inr [p; p; p; p] /\
           Grid.geometry c = [v; v; v; v]).
Proof.
  eexists; eexists. split; [vm_compute; reflexivity|].
  apply (create_grid_df_zero_edge Plate.transformer survey 32631).
  vm_compute. reflexivity.
Defined.

(** ** Sample data: runs of different length *)

Section RandomDataRuns.

Variable rng : Type.
Variable randint : Z -> Z -> rng -> Z * rng.
Variable random : rng -> float * rng.

Lemma drawn_rows_firstn (min_lat max_lat min_lon max_lon : float) (k n : nat) (i : Z) (s : rng) :
  (k <= n)%nat ->
  firstn k (drawn_rows randint random min_lat max_lat min_lon max_lon i n s)
    = drawn_rows randint random min_lat max_lat min_lon max_lon i k s.
Proof.
  revert n i s. induction k as [|k IH]; intros n i s Hk; [reflexivity|].
  destruct n as [|n]; [lia|]. cbn [drawn_rows].
  destruct (draw_row _ _ _ _ _ _ i s) as [r s']. cbn [firstn].
  rewrite IH by lia. reflexivity.
Qed.

Lemma map_mapi_from {A B C : Type} (g : B -> C) (f : nat -> A -> B) (l : list A) (i : nat) :
  map g (mapi_from i f l) = mapi_from i (fun j a => g (f j a)) l.
Proof.
  revert i. induction l as [|a l IH]; intros i; [reflexivity|].
  cbn [mapi_from map]. rewrite IH. reflexivity.
Qed.

Lemma drawn_rows_draws (min_lat max_lat min_lon max_lon : float) (n : nat) (j : nat) (s : rng) :
  drawn_rows randint random min_lat max_lat min_lon max_lon (Z.of_nat j) n s
    = mapi_from j
        (fun i '(n_plants, r1, r2) =>
           Draw.mk (Z.of_nat i + 1)
             (min_lat + r1 * (max_lat - min_lat))%float
             (min_lon + r2 * (max_lon - min_lon))%float
             n_plants (method_label (Z.of_nat i)))
        (draws randint random n s).
Proof.
  revert j s. induction n as [|n IH]; intros j s; [reflexivity|].
  cbn [drawn_rows draws]. unfold draw_row.
  destruct (randint 0 100 s) as [k s0].
  destruct (random s0) as [r1 s1]. destruct (random s1) as [r2 s2].
  cbn [mapi_from]. f_equal.
  replace (Z.of_nat j + 1) with (Z.of_nat (S j)) by lia. apply IH.
Qed.

Lemma draws_length (n : nat) (s : rng) : List.length (draws randint random n s) = n.
Proof.
  revert s. induction n as [|n IH]; intros s; [reflexivity|].
  cbn [draws]. destruct (randint 0 100 s) as [k s0].
  destruct (random s0) as [r1 s1]. destruct (random s1) as [r2 s2].
  cbn [List.length]. now rewrite IH.
Qed.

End RandomDataRuns.

(** X8. With the same generator state, a longer run begins with the
    shorter one: the header and the first [n] data rows of a run of [n']
    rows ([n <= n']) are the whole output of a run of [n] rows. *)
Theorem generate_random_data_prefix {rng : Type}
    (randint : Z -> Z -> rng -> Z * rng) (random : rng -> float * rng)
    (min_lat max_lat min_lon max_lon : float) (n n' : Z) (s : rng) :
  n <= n' ->
  firstn (S (Z.to_nat n))
    (generate_random_data randint random min_lat max_lat min_lon max_lon n' s)
  = generate_random_data randint random min_lat max_lat min_lon max_lon n s.
Proof.
  intros Hn. unfold generate_random_data. rewrite !write_rows_drawn.
  change ([header] ++ ?l)%list with (header :: l). cbn [firstn].
  rewrite firstn_map, drawn_rows_firstn by lia. reflexivity.
Qed.

Lemma generate_random_data_prefix_witness :
  3 <= 100 /\
  firstn (S (Z.to_nat 3))
    (generate_random_data Tape.randint Tape.random 51.4459 51.4521 4.1828 4.2032
       100 [142; 2 ^ 52; 5])
  = generate_random_data Tape.randint Tape.random 51.4459 51.4521 4.1828 4.2032
      3 [142; 2 ^ 52; 5].
Proof.
  split; [lia|].
  apply (generate_random_data_prefix Tape.randint Tape.random
           51.4459 51.4521 4.1828 4.2032 3 100 [142; 2 ^ 52; 5]).
  lia.
Defined.

(** X9. [num_rows] is not checked: the file holds the header line
    alone exactly when [num_rows] is zero or negative, and a negative
    [num_rows] raises nothing. *)
Theorem generate_random_data_header_only {rng : Type}
    (randint : Z -> Z -> rng -> Z * rng) (random : rng -> float * rng)
    (min_lat max_lat min_lon max_lon : float) (num_rows : Z) (s : rng) :
  generate_random_data randint random min_lat max_lat min_lon max_lon num_rows s = [header]
  <-> num_rows <= 0.
Proof.
  unfold generate_random_data. rewrite write_rows_drawn. split.
  - intros H. apply (f_equal (@List.length string)) in H.
    rewrite length_app, length_map, drawn_rows_length in H. cbn [List.length] in H. lia.
  - intros H. replace (Z.to_nat num_rows) with 0%nat by lia. reflexivity.
Qed.

(** X10. The bounds do not influence what is taken from the generator:
    for a generator state there is one list of draws (a plant count and
    two fractions per row) from which the output follows for every choice
    of bounds, row [i] holding the identifier [i + 1], the coordinates
    [min + r * (max - min)], the count and the label of [i]. *)
Theorem generate_random_data_draws {rng : Type}
    (randint : Z -> Z -> rng -> Z * rng) (random : rng -> float * rng)
    (num_rows : Z) (s : rng) :
  exists drawn : list (Z * float * float),
    List.length drawn = Z.to_nat num_rows /\
    forall min_lat max_lat min_lon max_lon : float,
      generate_random_data randint random min_lat max_lat min_lon max_lon num_rows s
      = header ::
        mapi_from 0
          (fun i '(n_plants, r1, r2) =>
             format_row
               (Draw.mk (Z.of_nat i + 1)
                  (min_lat + r1 * (max_lat - min_lat))%float
                  (min_lon + r2 * (max_lon - min_lon))%float
                  n_plants (method_label (Z.of_nat i))))
          drawn.
Proof.
  exists (draws randint random (Z.to_nat num_rows) s). split; [apply draws_length|].
  intros min_lat max_lat min_lon max_lon.
  unfold generate_random_data. rewrite write_rows_drawn.
  change ([header] ++ ?l)%list with (header :: l). f_equal.
  change 0 with (Z.of_nat 0). rewrite drawn_rows_draws, map_mapi_from.
  clear. generalize 0%nat. induction (draws randint random (Z.to_nat num_rows) s) as [|[[k r1] r2] l IH];
    intros j; [reflexivity|].
  cbn [mapi_from]. rewrite IH. reflexivity.
Qed.

(** ** Sample data: fields *)

Lemma split_nonempty (sep : ascii) (s : string) : Tsv.split sep s <> [].
Proof.
  destruct s as [|c s]; cbn [Tsv.split]; [discriminate|].
  destruct (Ascii.eqb c sep); [discriminate|].
  destruct (Tsv.split sep s); discriminate.
Qed.

Lemma split_cons_free (sep c : ascii) (s : string) :
  Ascii.eqb c sep = false -> Tsv.split sep s = [s] ->
  Tsv.split sep (String c s) = [String c s].
Proof. intros Hc Hs. cbn [Tsv.split]. rewrite Hc, Hs. reflexivity. Qed.

Lemma split_cons_free_inv (sep c : ascii) (s : string) :
  Tsv.split sep (String c s) = [String c s] ->
  Ascii.eqb c sep = false /\ Tsv.split sep s = [s].
Proof.
  cbn [Tsv.split]. destruct (Ascii.eqb c sep); [discriminate|].
  pose proof (split_nonempty sep s) as Hne.
  destruct (Tsv.split sep s) as [|f fs]; [contradiction|].
  intros H. injection H as -> ->. split; reflexivity.
Qed.

Lemma split_app_free (sep : ascii) (s t : string) :
  Tsv.split sep s = [s] -> Tsv.split sep t = [t] ->
  Tsv.split sep (s ++ t) = [(s ++ t)%string].
Proof.
  intros Hs Ht. induction s as [|c s IH]; [exact Ht|].
  apply split_cons_free_inv in Hs. destruct Hs as [Hc Hs].
  cbn [String.append]. apply split_cons_free; auto.
Qed.

Lemma split_field (sep : ascii) (s t : string) :
  Tsv.split sep s = [s] ->
  Tsv.split sep (s ++ String sep t) = s :: Tsv.split sep t.
Proof.
  intros Hs. induction s as [|c s IH].
  - cbn [String.append Tsv.split]. rewrite Ascii.eqb_refl. reflexivity.
  - apply split_cons_free_inv in Hs. destruct Hs as [Hc Hs].
    cbn [String.append Tsv.split]. rewrite Hc, (IH Hs). reflexivity.
Qed.

Lemma split_uint (d : Decimal.uint) :
  Tsv.split (ascii_of_nat 9) (NilEmpty.string_of_uint d) = [NilEmpty.string_of_uint d].
Proof.
  induction d; cbn [NilEmpty.string_of_uint]; [reflexivity|..];
    (apply split_cons_free; [reflexivity|assumption]).
Qed.

Lemma split_d (n : Z) : Tsv.split (ascii_of_nat 9) (Format.d n) = [Format.d n].
Proof.
  unfold Format.d, NilZero.string_of_int, NilZero.string_of_uint.
  destruct (Z.to_int n) as [d|d]; destruct d; try reflexivity;
    repeat (apply split_cons_free; [reflexivity|]); apply split_uint.
Qed.

Lemma digit_not_tab (k : Z) : Ascii.eqb (Format.digit k) (ascii_of_nat 9) = false.
Proof.
  unfold Format.digit.
  pose proof (Z.mod_pos_bound k 10 ltac:(lia)) as Hk.
  assert (Hn : (Z.to_nat (k mod 10) < 10)%nat) by lia.
  remember (Z.to_nat (k mod 10)) as j eqn:Hj. clear Hj Hk.
  do 10 (destruct j as [|j]; [reflexivity|]). lia.
Qed.

Lemma split_six_digits (n : Z) :
  Tsv.split (ascii_of_nat 9) (Format.six_digits n) = [Format.six_digits n].
Proof.
  unfold Format.six_digits.
  repeat (apply split_cons_free; [apply digit_not_tab|]). reflexivity.
Qed.

Lemma split_f6 (x : float) : Tsv.split (ascii_of_nat 9) (Format.f6 x) = [Format.f6 x].
Proof.
  unfold Format.f6.
  destruct (Prim2SF x) as [[|]|[|]| |s m e]; try reflexivity.
  repeat apply split_app_free.
  - destruct s; reflexivity.
  - apply split_d.
  - reflexivity.
  - apply split_six_digits.
Qed.

Lemma split_method_label (i : Z) :
  Tsv.split (ascii_of_nat 9) (method_label i) = [method_label i].
Proof.
  unfold method_label.
  destruct (i <? 25); [reflexivity|]. destruct (i <? 50); [reflexivity|].
  destruct (i <? 75); reflexivity.
Qed.

Lemma format_row_fields (r : Draw.row) :
  Tsv.split (ascii_of_nat 9) (Draw.method r) = [Draw.method r] ->
  Tsv.fields (format_row r)
    [Format.d (Draw.cell r); Format.f6 (Draw.lat r); Format.f6 (Draw.lon r);
     Format.d (Draw.n_plants r); Draw.method r].
Proof.
  intros Hm. unfold format_row.
  exists (Format.d (Draw.cell r) ++ Format.tab ++ Format.f6 (Draw.lat r) ++ Format.tab
      ++ Format.f6 (Draw.lon r) ++ Format.tab ++ Format.d (Draw.n_plants r) ++ Format.tab
      ++ Draw.method r)%string.
  split.
  - rewrite !string_app_assoc. reflexivity.
  - unfold Format.tab. cbn [String.append].
    rewrite (split_field _ _ _ (split_d _)), (split_field _ _ _ (split_f6 _)),
      (split_field _ _ _ (split_f6 _)), (split_field _ _ _ (split_d _)), Hm.
    reflexivity.
Qed.

(** X11. Every line written is a record of five tab-separated fields.
    The header line holds the column names [cell], [latitude],
    [longitude], [n_seagrass_plants] and [method]; data row [i] (from 0)
    holds the identifier [i + 1], the two coordinates with six decimals,
    the plant count and the label of [i]. No field contains a tab. *)
Theorem generate_random_data_fields {rng : Type}
    (randint : Z -> Z -> rng -> Z * rng) (random : rng -> float * rng)
    (min_lat max_lat min_lon max_lon : float) (num_rows : Z) (s : rng) :
  let output :=
    generate_random_data randint random min_lat max_lat min_lon max_lon num_rows s in
  (exists line,
     nth_error output 0 = Some line /\
     Tsv.fields line
       ["cell"; "latitude"; "longitude"; "n_seagrass_plants"; "method"]%string) /\
  forall i line,
    nth_error output (S i) = Some line ->
    exists r,
      nth_error (drawn_rows randint random min_lat max_lat min_lon max_lon
                   0 (Z.to_nat num_rows) s) i = Some r /\
      Tsv.fields line
        [Format.d (Z.of_nat i + 1); Format.f6 (Draw.lat r); Format.f6 (Draw.lon r);
         Format.d (Draw.n_plants r); method_label (Z.of_nat i)] /\
      Forall (fun field => Tsv.split (ascii_of_nat 9) field = [field])
        [Format.d (Z.of_nat i + 1); Format.f6 (Draw.lat r); Format.f6 (Draw.lon r);
         Format.d (Draw.n_plants r); method_label (Z.of_nat i)].
Proof.
  intros output. subst output. unfold generate_random_data. rewrite write_rows_drawn.
  change ([header] ++ ?l)%list with (header :: l). split.
  - exists header. split; [reflexivity|].
    exists ("cell" ++ Format.tab ++ "latitude" ++ Format.tab ++ "longitude" ++ Format.tab
      ++ "n_seagrass_plants" ++ Format.tab ++ "method")%string.
    split; reflexivity.
  - intros i line Hline. cbn [nth_error] in Hline. rewrite nth_error_map in Hline.
    destruct (nth_error (drawn_rows randint random min_lat max_lat min_lon max_lon
                           0 (Z.to_nat num_rows) s) i) as [r|] eqn:Hr; [|discriminate].
    injection Hline as <-. exists r. split; [reflexivity|].
    assert (Hrow : Draw.cell r = Z.of_nat i + 1 /\ Draw.method r = method_label (Z.of_nat i)).
    { change 0 with (Z.of_nat 0) in Hr. rewrite drawn_rows_draws in Hr.
      rewrite mapi_from_nth_error in Hr.
      destruct (nth_error (draws randint random (Z.to_nat num_rows) s) i) as [[[k r1] r2]|];
        [|discriminate].
      injection Hr as <-. split; reflexivity. }
    destruct Hrow as [Hcell Hlabel].
    pose proof (format_row_fields r) as Hfields. rewrite Hcell, Hlabel in Hfields.
    split; [apply Hfields, split_method_label|].
    repeat constructor; auto using split_d, split_f6, split_method_label.
Qed.

(** ** Bounds in reverse order *)

Section Opposites.

Import Float.

Lemma SFopp_involutive (x : spec_float) : SFopp (SFopp x) = x.
Proof. destruct x; cbn [SFopp]; rewrite ?negb_involutive; reflexivity. Qed.

Lemma cond_Zopp_negb (s : bool) (v : Z) : cond_Zopp (negb s) v = - cond_Zopp s v.
Proof. destruct s; cbn [cond_Zopp negb]; lia. Qed.

Lemma binary_round_opp (s : bool) (m : positive) (e : Z) :
  binary_round prec emax (negb s) m e = SFopp (binary_round prec emax s m e).
Proof.
  unfold binary_round. destruct (shl_align m e _) as [mz ez].
  apply binary_round_aux_opp.
Qed.

Lemma binary_normalize_opp (z e : Z) :
  sf_opposite (binary_normalize prec emax z e false)
    (binary_normalize prec emax (- z) e false).
Proof.
  destruct z as [|p|p]; cbn [Z.opp binary_normalize].
  - right. exists false, false. split; reflexivity.
  - left. apply (binary_round_opp false).
  - left. rewrite (binary_round_opp false), SFopp_involutive. reflexivity.
Qed.

Lemma sf_opposite_opp (x : spec_float) : sf_opposite x (SFopp x).
Proof. left; reflexivity. Qed.

Lemma sf_opposite_zeros (s s' : bool) : sf_opposite (S754_zero s) (S754_zero s').
Proof. right. exists s, s'. split; reflexivity. Qed.

Lemma SFsub_opposite (b a : spec_float) :
  sf_finite a = true -> sf_finite b = true ->
  sf_opposite (SFsub prec emax b a) (SFsub prec emax (SFopp b) (SFopp a)).
Proof.
  destruct a as [sa| | |sa ma ea]; try discriminate;
    destruct b as [sb| | |sb mb eb]; try discriminate; intros _ _; cbn [SFopp SFsub].
  - destruct sb, sa; apply sf_opposite_zeros.
  - apply sf_opposite_opp.
  - left. reflexivity.
  - rewrite !cond_Zopp_negb.
    match goal with |- sf_opposite (binary_normalize _ _ (?u - ?v) _ _) _ =>
      replace (- u - - v) with (- (u - v)) by lia end.
    apply binary_normalize_opp.
Qed.

Lemma SFmul_opposite (r d d' : spec_float) :
  sf_finite r = true -> sf_opposite d d' ->
  sf_opposite (SFmul prec emax r d) (SFmul prec emax r d').
Proof.
  intros Hr [->|(s & s' & -> & ->)].
  - left.
    destruct r as [sr| | |sr mr er]; try discriminate;
      destruct d as [sd|sd| |sd md ed]; cbn [SFopp SFmul];
      rewrite <- ?negb_xorb_r; try reflexivity.
    apply binary_round_aux_opp.
  - destruct r as [sr| | |sr mr er]; try discriminate; cbn [SFmul];
      apply sf_opposite_zeros.
Qed.

Lemma SFadd_opposite (a p p' : spec_float) :
  sf_finite a = true -> sf_opposite p p' ->
  sf_opposite (SFadd prec emax a p) (SFadd prec emax (SFopp a) p').
Proof.
  intros Ha [->|(s & s' & -> & ->)].
  - destruct a as [sa| | |sa ma ea]; try discriminate;
      destruct p as [sp|sp| |sp mp ep]; cbn [SFopp SFadd];
      try (left; reflexivity).
    + destruct sa, sp; apply sf_opposite_zeros.
    + rewrite !cond_Zopp_negb.
      match goal with |- sf_opposite (binary_normalize _ _ (?u + ?v) _ _) _ =>
        replace (- u + - v) with (- (u + v)) by lia end.
      apply binary_normalize_opp.
  - destruct a as [sa| | |sa ma ea]; try discriminate; cbn [SFopp SFadd].
    + destruct sa, s, s'; apply sf_opposite_zeros.
    + left. reflexivity.
Qed.

Lemma val_opposite (x y : spec_float) : sf_opposite x y -> val y = - val x.
Proof.
  intros [->|(s & s' & -> & ->)]; [|reflexivity].
  destruct x as [s|s| |s m e]; cbn [SFopp val]; try reflexivity.
  apply cond_Zopp_negb.
Qed.

Lemma finite_opposite (x y : spec_float) : sf_opposite x y -> sf_finite y = sf_finite x.
Proof.
  intros [->|(s & s' & -> & ->)]; [|reflexivity]. destruct x; reflexivity.
Qed.

Lemma valid_opposite (x y : spec_float) : sf_opposite x y -> valid_binary y = valid_binary x.
Proof.
  intros [->|(s & s' & -> & ->)]; [|reflexivity]. destruct x; reflexivity.
Qed.

Lemma SFleb_opposite (x y x' y' : spec_float) :
  valid_binary x = true -> valid_binary y = true ->
  sf_finite x = true -> sf_finite y = true ->
  sf_opposite x x' -> sf_opposite y y' ->
  SFleb x' y' = true -> SFleb y x = true.
Proof.
  intros Hx Hy Hfx Hfy Hxx Hyy Hle.
  apply SFleb_val in Hle;
    rewrite ?(valid_opposite _ _ Hxx), ?(valid_opposite _ _ Hyy),
      ?(finite_opposite _ _ Hxx), ?(finite_opposite _ _ Hyy); auto.
  rewrite (val_opposite _ _ Hxx), (val_opposite _ _ Hyy) in Hle.
  apply SFleb_val; auto. lia.
Qed.

Lemma SFleb_between_finite (a x b : spec_float) :
  sf_finite a = true -> sf_finite b = true ->
  SFleb a x = true -> SFleb x b = true -> sf_finite x = true.
Proof.
  destruct a as [sa|sa| |sa ma ea]; try discriminate;
    destruct b as [sb|sb| |sb mb eb]; try discriminate;
    destruct x as [sx|[|]| |sx mx ex]; try discriminate; try reflexivity;
    try (destruct sa; discriminate); try (destruct sb; discriminate).
Qed.

Lemma unit_finite (r : spec_float) (m : positive) (e : Z) :
  SFleb (S754_zero false) r = true -> SFltb r (S754_finite false m e) = true ->
  sf_finite r = true.
Proof. destruct r as [s|[|]| |s mr er]; try reflexivity; discriminate. Qed.

Lemma SF_affine_reversed (a b r : spec_float) :
  valid_binary a = true -> valid_binary b = true -> valid_binary r = true ->
  sf_finite a = true -> sf_finite b = true ->
  SFleb b a = true ->
  SFleb (S754_zero false) r = true -> SFltb r (S754_finite false 4503599627370496 (-52)) = true ->
  valid_binary (SFsub prec emax b a) = true ->
  sf_finite (SFsub prec emax b a) = true ->
  valid_binary (SFmul prec emax r (SFsub prec emax b a)) = true ->
  valid_binary (SFadd prec emax a (SFmul prec emax r (SFsub prec emax b a))) = true ->
  let x := SFadd prec emax a (SFmul prec emax r (SFsub prec emax b a)) in
  SFleb b x = true /\ SFleb x a = true.
Proof.
  intros Ha Hb Hr Hfa Hfb Hle H0 H1 Hd Hfd Hp Hx x.
  pose proof (unit_finite _ _ _ H0 H1) as Hfr.
  pose proof (SFsub_opposite b a Hfa Hfb) as Od.
  pose proof (SFmul_opposite r _ _ Hfr Od) as Op.
  pose proof (SFadd_opposite a _ _ Hfa Op) as Ox. fold x in Ox.
  set (x' := SFadd prec emax (SFopp a) (SFmul prec emax r (SFsub prec emax (SFopp b) (SFopp a)))) in *.
  pose proof (sf_opposite_opp a) as Oa. pose proof (sf_opposite_opp b) as Ob.
  assert (Hle' : SFleb (SFopp a) (SFopp b) = true).
  { apply (SFleb_opposite (SFopp b) (SFopp a) b a);
      rewrite ?(valid_opposite _ _ Ob), ?(valid_opposite _ _ Oa),
        ?(finite_opposite _ _ Ob), ?(finite_opposite _ _ Oa); auto;
      left; symmetry; apply SFopp_involutive. }
  destruct (SF_affine_within (SFopp a) (SFopp b) r) as [Hlo Hhi];
    rewrite ?(valid_opposite _ _ Ob), ?(valid_opposite _ _ Oa),
      ?(finite_opposite _ _ Ob), ?(finite_opposite _ _ Oa),
      ?(valid_opposite _ _ Od), ?(finite_opposite _ _ Od), ?(valid_opposite _ _ Op); auto.
  fold x' in Hlo, Hhi.
  assert (Hfx' : sf_finite x' = true).
  { apply (SFleb_between_finite (SFopp a) x' (SFopp b));
      rewrite ?(finite_opposite _ _ Ob), ?(finite_opposite _ _ Oa); auto. }
  assert (Hfx : sf_finite x = true) by (rewrite <- (finite_opposite _ _ Ox); exact Hfx').
  split.
  - apply (SFleb_opposite x b x' (SFopp b)); auto.
  - apply (SFleb_opposite a x (SFopp a) x'); auto.
Qed.

(** [a + r * (b - a)] for finite [b <= a] and a draw [0 <= r < 1] is
    between [b] and [a], every operation rounded. *)
Lemma affine_reversed (a b r : float) :
  sf_finite (Prim2SF a) = true -> sf_finite (Prim2SF b) = true ->
  (b <=? a)%float = true ->
  sf_finite (Prim2SF (b - a)%float) = true ->
  (0 <=? r)%float = true -> (r <? 1)%float = true ->
  (b <=? a + r * (b - a))%float = true /\ (a + r * (b - a) <=? a)%float = true.
Proof.
  intros Hfa Hfb Hab Hfd H0 H1.
  rewrite !leb_spec, ltb_spec in *.
  pose proof (Prim2SF_valid (r * (b - a))%float) as Hq.
  pose proof (Prim2SF_valid (b - a)%float) as Hd.
  pose proof (Prim2SF_valid (a + r * (b - a))%float) as Hx.
  rewrite add_spec, mul_spec, sub_spec in *.
  apply SF_affine_reversed; auto using Prim2SF_valid.
Qed.

(** With equal bounds the result is the bound itself. *)
Lemma affine_point (b r : float) :
  sf_finite (Prim2SF b) = true -> Prim2SF b <> S754_zero true ->
  sf_finite (Prim2SF r) = true ->
  (b + r * (b - b))%float = b.
Proof.
  intros Hb Hz Hr. apply Prim2SF_inj. rewrite add_spec, mul_spec, sub_spec.
  destruct (Prim2SF b) as [[|]| | |sb mb eb]; try discriminate; [contradiction| |].
  - destruct (Prim2SF r) as [[|]| | |[|] mr er]; try discriminate; reflexivity.
  - unfold SF64sub. cbn [SFsub]. rewrite Z.sub_diag. cbn [binary_normalize].
    destruct (Prim2SF r) as [sr| | |sr mr er]; try discriminate; reflexivity.
Qed.

End Opposites.

(** ** Sample data: bounds in reverse order and equal bounds *)

Section RandomDataBounds.

Variable rng : Type.
Variable randint : Z -> Z -> rng -> Z * rng.
Variable random : rng -> float * rng.

Lemma draws_random (n : nat) (s : rng) (j : nat) (k : Z) (r1 r2 : float) :
  nth_error (draws randint random n s) j = Some (k, r1, r2) ->
  exists s1 s2, r1 = fst (random s1) /\ r2 = fst (random s2).
Proof.
  revert s j. induction n as [|n IH]; intros s j; [destruct j; discriminate|].
  cbn [draws]. destruct (randint 0 100 s) as [k0 s0].
  destruct (random s0) as [q1 s1] eqn:E1. destruct (random s1) as [q2 s2] eqn:E2.
  destruct j as [|j]; cbn [nth_error].
  - intros H; injection H as <- <- <-. exists s0, s1. rewrite E1, E2. split; reflexivity.
  - apply IH.
Qed.

(** Row [i] of the output, with the draws it is made of. *)
Lemma generate_random_data_row (min_lat max_lat min_lon max_lon : float)
    (num_rows : Z) (s : rng) (i : Z) :
  0 <= i < num_rows ->
  exists k s1 s2,
    nth_error
      (generate_random_data randint random min_lat max_lat min_lon max_lon num_rows s)
      (S (Z.to_nat i))
    = Some (format_row
              (Draw.mk (i + 1)
                 (min_lat + fst (random s1) * (max_lat - min_lat))%float
                 (min_lon + fst (random s2) * (max_lon - min_lon))%float
                 k (method_label i))).
Proof.
  intros Hi. unfold generate_random_data. rewrite write_rows_drawn.
  change ([header] ++ ?l)%list with (header :: l). cbn [nth_error].
  change 0 with (Z.of_nat 0). rewrite drawn_rows_draws, nth_error_map, mapi_from_nth_error.
  pose proof (draws_length _ randint random (Z.to_nat num_rows) s) as Hlen.
  destruct (nth_error (draws randint random (Z.to_nat num_rows) s) (Z.to_nat i))
    as [[[k r1] r2]|] eqn:Hd; [|apply nth_error_None in Hd; lia].
  destruct (draws_random _ _ _ _ _ _ Hd) as (s1 & s2 & -> & ->).
  exists k, s1, s2. cbn [option_map Nat.add]. rewrite Z2Nat.id by lia. reflexivity.
Qed.

End RandomDataBounds.

(** X12. The order of the bounds is not checked. When the bounds are
    given in reverse ([max <= min], both finite with a finite
    difference), every coordinate still lies between them, and what is
    printed for it lies between them up to half a millionth. *)
Theorem generate_random_data_reversed_bounds {rng : Type}
    (randint : Z -> Z -> rng -> Z * rng) (random : rng -> float * rng)
    (min_lat max_lat min_lon max_lon : float) (num_rows : Z) (s : rng) (i : Z) :
  (forall s, (0 <=? fst (random s))%float = true /\ (fst (random s) <? 1)%float = true) ->
  0 <= i < num_rows ->
  exists r,
    nth_error
      (generate_random_data randint random min_lat max_lat min_lon max_lon num_rows s)
      (S (Z.to_nat i)) = Some (format_row r) /\
    (Float.is_finite min_lat = true -> Float.is_finite max_lat = true ->
     (max_lat <=? min_lat)%float = true ->
     Float.is_finite (max_lat - min_lat)%float = true ->
     Format.within max_lat min_lat (Draw.lat r)) /\
    (Float.is_finite min_lon = true -> Float.is_finite max_lon = true ->
     (max_lon <=? min_lon)%float = true ->
     Float.is_finite (max_lon - min_lon)%float = true ->
     Format.within max_lon min_lon (Draw.lon r)).
Proof.
  intros Hrandom Hi.
  destruct (generate_random_data_row _ randint random min_lat max_lat min_lon max_lon
              num_rows s i Hi) as (k & s1 & s2 & Hrow).
  eexists. split; [exact Hrow|]. cbn [Draw.lat Draw.lon].
  assert (Hwithin : forall lo hi r,
            Float.is_finite lo = true -> Float.is_finite hi = true ->
            (hi <=? lo)%float = true -> Float.is_finite (hi - lo)%float = true ->
            (0 <=? r)%float = true -> (r <? 1)%float = true ->
            Format.within hi lo (lo + r * (hi - lo))%float).
  { intros lo hi r Hlo Hhi Hle Hd H0 H1.
    destruct (affine_reversed lo hi r Hlo Hhi Hle Hd H0 H1) as [Hge Hbelow].
    destruct (finite_to_Q lo Hlo) as (vlo & Hvlo).
    destruct (finite_to_Q hi Hhi) as (vhi & Hvhi).
    destruct (f6_value_within hi lo _ vhi vlo Hvhi Hvlo Hge Hbelow) as (p & Hp & Hbounds).
    split; [assumption|]. split; [assumption|].
    exists vhi, vlo, p. auto. }
  split; intros Hlo Hhi Hle Hd; apply Hwithin; try assumption; apply Hrandom.
Qed.

Lemma generate_random_data_reversed_bounds_witness :
  (forall s, (0 <=? fst (Tape.random s))%float = true /\
             (fst (Tape.random s) <? 1)%float = true) /\
  0 <= 1 < 3 /\
  exists r,
    nth_error
      (generate_random_data Tape.randint Tape.random 51.4521 51.4459 4.2032 4.1828
         3 [142; 2 ^ 52; 5])
      (S (Z.to_nat 1)) = Some (format_row r) /\
    (Float.is_finite 51.4521 = true -> Float.is_finite 51.4459 = true ->
     (51.4459 <=? 51.4521)%float = true ->
     Float.is_finite (51.4459 - 51.4521)%float = true ->
     Format.within 51.4459 51.4521 (Draw.lat r)) /\
    (Float.is_finite 4.2032 = true -> Float.is_finite 4.1828 = true ->
     (4.1828 <=? 4.2032)%float = true ->
     Float.is_finite (4.1828 - 4.2032)%float = true ->
     Format.within 4.1828 4.2032 (Draw.lon r)).
Proof.
  split; [exact tape_random_unit|]. split; [lia|].
  apply (generate_random_data_reversed_bounds Tape.randint Tape.random
           51.4521 51.4459 4.2032 4.1828 3 [142; 2 ^ 52; 5] 1 tape_random_unit).
  lia.
Defined.

(** X13. Equal bounds give a constant column: when [min_lat] and
    [max_lat] are the same finite number (not the negative zero), every
    row holds exactly this latitude, and likewise for the longitude. *)
Theorem generate_random_data_point_bounds {rng : Type}
    (randint : Z -> Z -> rng -> Z * rng) (random : rng -> float * rng)
    (min_lat max_lat min_lon max_lon : float) (num_rows : Z) (s : rng) (i : Z) :
  (forall s, (0 <=? fst (random s))%float = true /\ (fst (random s) <? 1)%float = true) ->
  0 <= i < num_rows ->
  exists r,
    nth_error
      (generate_random_data randint random min_lat max_lat min_lon max_lon num_rows s)
      (S (Z.to_nat i)) = Some (format_row r) /\
    (min_lat = max_lat -> Float.is_finite min_lat = true ->
     Prim2SF min_lat <> S754_zero true -> Draw.lat r = min_lat) /\
    (min_lon = max_lon -> Float.is_finite min_lon = true ->
     Prim2SF min_lon <> S754_zero true -> Draw.lon r = min_lon).
Proof.
  intros Hrandom Hi.
  destruct (generate_random_data_row _ randint random min_lat max_lat min_lon max_lon
              num_rows s i Hi) as (k & s1 & s2 & Hrow).
  eexists. split; [exact Hrow|]. cbn [Draw.lat Draw.lon].
  assert (Hunit : forall s0, Float.sf_finite (Prim2SF (fst (random s0))) = true).
  { intros s0. destruct (Hrandom s0) as [H0 H1]. rewrite leb_spec in H0.
    rewrite ltb_spec in H1. exact (unit_finite _ _ _ H0 H1). }
  split; intros <- Hfin Hz; apply affine_point; auto.
Qed.

Lemma generate_random_data_point_bounds_witness :
  (forall s, (0 <=? fst (Tape.random s))%float = true /\
             (fst (Tape.random s) <? 1)%float = true) /\
  0 <= 1 < 3 /\
  exists r,
    nth_error
      (generate_random_data Tape.randint Tape.random 51.4459 51.4459 4.1828 4.1828
         3 [142; 2 ^ 52; 5])
      (S (Z.to_nat 1)) = Some (format_row r) /\
    (51.4459%float = 51.4459%float -> Float.is_finite 51.4459 = true ->
     Prim2SF 51.4459 <> S754_zero true -> Draw.lat r = 51.4459%float) /\
    (4.1828%float = 4.1828%float -> Float.is_finite 4.1828 = true ->
     Prim2SF 4.1828 <> S754_zero true -> Draw.lon r = 4.1828%float).
Proof.
  split; [exact tape_random_unit|]. split; [lia|].
  apply (generate_random_data_point_bounds Tape.randint Tape.random
           51.4459 51.4459 4.1828 4.1828 3 [142; 2 ^ 52; 5] 1 tape_random_unit).
  lia.
Defined.
